(** * Chain-of-Edits: the edit engine, the trace synthesizer and the
      rollout / advantage code, embedded from the Python sources.

    - [pystr]          the fragment of Python's [str] the sources use
    - [env]            src/env.py
    - [corruptor]      src/corruptor.py
    - [demo_generator] src/demo_generator.py
    - [rl_train]       src/rl_train.py (rollout_one,
                       compute_returns_and_advantages)
    - [scenario]       a small interpreter and scripted policies for the
                       concrete episodes

    The definitions come first; the properties follow, grouped by
    component.

    Modelling conventions.
    - A Python [str] is a [string]; a character is a code point below 256
      (the Latin-1 range), read off the 8-bit [ascii] value.  The character
      classes below are Python's on that range.
    - Python integers are unbounded: line numbers are [nat].
    - Python floats are idealised as real numbers ([R]).
    - A Python call either returns or raises: [result].
    - [exec], the policy model and the random module are interfaces
      ([Interpreter], [Policy], [rng]). *)

From Stdlib Require Import List String Ascii Arith Bool Lia.
From Stdlib Require Import Reals Lra.
From Stdlib Require Import Sorted.
Import ListNotations.
Open Scope list_scope.
Open Scope nat_scope.
Open Scope string_scope.

(* ================================================================== *)
(** ** Calls that may raise *)
(* ================================================================== *)

(** The exceptions that can leave the modelled functions.  [Uncaught] is an
    exception raised by executed candidate code that is not an instance of
    [Exception] (SystemExit, KeyboardInterrupt): the [except Exception]
    clauses of [DSLExecutor.run] let it through. *)
Inductive exception : Type :=
| IndexError
| ValueError
| Uncaught.

Inductive result (A : Type) : Type :=
| Ok (a : A)
| Raise (e : exception).
Arguments Ok {A} a.
Arguments Raise {A} e.

Definition bind {A B : Type} (c : result A) (k : A -> result B) : result B :=
  match c with
  | Ok a => k a
  | Raise e => Raise e
  end.

Notation "x <- c ;; k" := (bind c (fun x => k))
  (at level 61, c at next level, right associativity).
Notation "' p <- c ;; k" := (bind c (fun p => k))
  (at level 61, p pattern, c at next level, right associativity).

(* ================================================================== *)
(** ** Python strings *)
(* ================================================================== *)

Module pystr.

Definition is_empty (s : string) : bool :=
  match s with
  | EmptyString => true
  | String _ _ => false
  end.

(** [str.isspace] of one character, code points below 256:
    TAB LF VT FF CR, FS GS RS US, SPACE, NEL (0x85), NBSP (0xA0). *)
Definition isspace (c : ascii) : bool :=
  let n := nat_of_ascii c in
  (((9 <=? n) && (n <=? 13)) || ((28 <=? n) && (n <=? 32))
   || (n =? 133) || (n =? 160))%nat.

(** The characters of Unicode category Nd below 256: '0'..'9'.  These are
    the characters [int] converts and the regex class [\d] matches. *)
Definition isdecimal (c : ascii) : bool :=
  let n := nat_of_ascii c in ((48 <=? n) && (n <=? 57))%nat.

(** [str.isdigit] of one character: the decimal digits and the superscript
    digits 0xB2, 0xB3, 0xB9. *)
Definition isdigit_char (c : ascii) : bool :=
  let n := nat_of_ascii c in
  isdecimal c || ((n =? 178) || (n =? 179) || (n =? 185))%nat.

Fixpoint forallb_str (p : ascii -> bool) (s : string) : bool :=
  match s with
  | EmptyString => true
  | String c r => p c && forallb_str p r
  end.

(** [s.isdigit()]: at least one character and all of them digits. *)
Definition isdigit (s : string) : bool :=
  negb (is_empty s) && forallb_str isdigit_char s.

Definition digit_value (c : ascii) : nat := nat_of_ascii c - 48.

Fixpoint int_acc (acc : nat) (s : string) : nat :=
  match s with
  | EmptyString => acc
  | String c r => int_acc (10 * acc + digit_value c) r
  end.

(** [int(s)] for a string without sign, blanks or underscores (the sources
    call it only behind [isdigit] or on a [\d+] group): the decimal value,
    or ValueError when some character is not a decimal digit.  The
    interpreter's limit on the number of digits is not modelled. *)
Definition int (s : string) : result nat :=
  if negb (is_empty s) && forallb_str isdecimal s
  then Ok (int_acc 0 s)
  else Raise ValueError.

(** [str(n)] for a non-negative integer. *)
Definition digit_char (d : nat) : ascii := ascii_of_nat (48 + d).

Fixpoint str_digits (fuel n : nat) (acc : string) : string :=
  match fuel with
  | O => acc
  | S fuel' =>
      let acc' := String (digit_char (n mod 10)) acc in
      if (n <? 10)%nat then acc' else str_digits fuel' (n / 10) acc'
  end.

Definition str (n : nat) : string := str_digits (S n) n "".

(** [s.lstrip()], [s.rstrip()], [s.strip()]. *)
Fixpoint lstrip (s : string) : string :=
  match s with
  | EmptyString => ""
  | String c r => if isspace c then lstrip r else s
  end.

Fixpoint rstrip (s : string) : string :=
  match s with
  | EmptyString => ""
  | String c r =>
      let r' := rstrip r in
      if isspace c && is_empty r' then "" else String c r'
  end.

Definition strip (s : string) : string := rstrip (lstrip s).

(** [s.split()]: the maximal runs of non-blank characters, in order. *)
Fixpoint split_from (cur : string) (s : string) : list string :=
  match s with
  | EmptyString => if is_empty cur then [] else [cur]
  | String c r =>
      if isspace c
      then (if is_empty cur then split_from "" r else cur :: split_from "" r)
      else split_from (cur ++ String c "") r
  end.

Definition split (s : string) : list string := split_from "" s.

(** [sep.join(l)]. *)
Fixpoint join (sep : string) (l : list string) : string :=
  match l with
  | [] => ""
  | [x] => x
  | x :: rest => x ++ sep ++ join sep rest
  end.

(** [s.startswith(p)]. *)
Fixpoint startswith (s p : string) {struct p} : bool :=
  match p with
  | EmptyString => true
  | String a p' =>
      match s with
      | EmptyString => false
      | String b s' => Ascii.eqb a b && startswith s' p'
      end
  end.

Fixpoint drop (n : nat) (s : string) : string :=
  match n, s with
  | O, _ => s
  | S _, EmptyString => ""
  | S k, String _ r => drop k r
  end.

(** [s.partition(sep)] for a non-empty [sep]: the text before and after the
    first occurrence of [sep], or [None] when [sep not in s]. *)
Fixpoint partition (sep s : string) : option (string * string) :=
  if startswith s sep then Some ("", drop (String.length sep) s)
  else match s with
       | EmptyString => None
       | String c r =>
           match partition sep r with
           | Some (a, b) => Some (String c a, b)
           | None => None
           end
       end.

(** [sep in s]. *)
Definition contains (sep s : string) : bool :=
  match partition sep s with Some _ => true | None => false end.

(** [s.split(sep, 1)[1]] when [sep in s]. *)
Definition after_first (sep s : string) : string :=
  match partition sep s with Some (_, b) => b | None => "" end.

(** [s.replace(old, new)]: every non-overlapping occurrence, left to right;
    an empty [old] matches before every character and at the end. *)
Fixpoint replace_scan (old new s : string) (skip : nat) : string :=
  match s with
  | EmptyString => ""
  | String c r =>
      match skip with
      | S k => replace_scan old new r k
      | O =>
          if startswith s old
          then new ++ replace_scan old new r (String.length old - 1)
          else String c (replace_scan old new r 0)
      end
  end.

Fixpoint intersperse (new s : string) : string :=
  match s with
  | EmptyString => new
  | String c r => new ++ String c (intersperse new r)
  end.

Definition replace (s old new : string) : string :=
  if is_empty old then intersperse new s else replace_scan old new s 0.

(** Line boundaries of [str.splitlines] below 256:
    LF VT FF CR FS GS RS NEL. *)
Definition islinebreak (c : ascii) : bool :=
  let n := nat_of_ascii c in
  (((10 <=? n) && (n <=? 13)) || ((28 <=? n) && (n <=? 30))
   || (n =? 133))%nat.

(** [s.splitlines()[0]] for a non-empty [s]. *)
Fixpoint first_line (s : string) : string :=
  match s with
  | EmptyString => ""
  | String c r => if islinebreak c then "" else String c (first_line r)
  end.

(** Longest prefix of characters satisfying [p], and the rest. *)
Fixpoint span (p : ascii -> bool) (s : string) : string * string :=
  match s with
  | EmptyString => ("", "")
  | String c r =>
      if p c then let '(a, b) := span p r in (String c a, b) else ("", s)
  end.

(** [s[:n]]. *)
Fixpoint take (n : nat) (s : string) : string :=
  match n, s with
  | O, _ => ""
  | S _, EmptyString => ""
  | S k, String c r => String c (take k r)
  end.

Definition strip_prefix (p s : string) : option string :=
  if startswith s p then Some (drop (String.length p) s) else None.

Definition newline : ascii := ascii_of_nat 10.
Definition not_newline (c : ascii) : bool := negb (Ascii.eqb c newline).

(** The regular expression of the REPW branch, matched with [re.match] on
    the stripped action: the literal REPW, one or more blanks, a group of
    one or more decimal digits, one or more blanks, the delimiter, a lazy
    group of any characters but LF, the delimiter again, a greedy group of
    any characters but LF, and the end of the text.  The three groups are
    returned.  The pattern is deterministic up to the first delimiter
    (blanks, digits and the delimiter's character are disjoint classes).
    After it, the text has no trailing LF (it is stripped), so a match
    needs the rest to hold no LF at all, and the lazy group stops at the
    first further delimiter. *)
Definition match_repw (s : string) : option (string * string * string) :=
  match strip_prefix "REPW" s with
  | None => None
  | Some s1 =>
      let '(ws1, s2) := span isspace s1 in
      let '(digits, s3) := span isdecimal s2 in
      let '(ws2, s4) := span isspace s3 in
      if is_empty ws1 || is_empty digits || is_empty ws2 then None
      else match strip_prefix ">>>" s4 with
           | None => None
           | Some rest =>
               if forallb_str not_newline rest
               then match partition ">>>" rest with
                    | Some (old, new) => Some (digits, old, new)
                    | None => None
                    end
               else None
           end
  end.

(** Character and word predicates used to state the properties. *)
Definition nonblank (c : ascii) : bool := negb (isspace c).

Definition not_gt (c : ascii) : bool := negb (Ascii.eqb c ">").

(** A word: not empty and without blanks. *)
Definition word (w : string) : Prop :=
  w <> "" /\ forallb_str nonblank w = true.

(** A character that is a space or no blank at all. *)
Definition space_or_nonblank (c : ascii) : bool :=
  nonblank c || Ascii.eqb c " ".

End pystr.

(* ================================================================== *)
(** ** Python lists *)
(* ================================================================== *)

Module pylist.

(** [l.pop(i)] for [i < len(l)]: the list without its [i]-th element. *)
Definition pop {A} (l : list A) (i : nat) : list A :=
  (firstn i l ++ skipn (S i) l)%list.

(** [l.insert(i, x)]: [x] placed before position [i], at the end when
    [i >= len(l)]. *)
Definition insert {A} (l : list A) (i : nat) (x : A) : list A :=
  (firstn i l ++ x :: skipn i l)%list.

(** [l[i] = x] for [i < len(l)]. *)
Fixpoint set_item {A} (l : list A) (i : nat) (x : A) : list A :=
  match l, i with
  | [], _ => []
  | _ :: r, O => x :: r
  | y :: r, S k => y :: set_item r k x
  end.

End pylist.

Import pystr.

(** The line feed, as a one-character string. *)
Definition nl : string := String newline "".

(* ================================================================== *)
(** ** src/env.py *)
(* ================================================================== *)

Module env.

(** What [exec(text, g, g)] can do: return, raise an [Exception] (with its
    [repr] and the body of the traceback that [traceback.format_exc] prints
    under its header line), or raise something that is not an [Exception].
    The namespace [g] is mutated in place, so it is threaded through. *)
Inductive outcome (NS : Type) : Type :=
| Returned (g : NS)
| Raised (g : NS) (repr tb : string)
| Escaped.
Arguments Returned {NS} g.
Arguments Raised {NS} g repr tb.
Arguments Escaped {NS}.

(** The builtin [exec] and the empty namespace [{}]. *)
Class Interpreter : Type := {
  Namespace : Type;
  fresh : Namespace;
  exec : string -> Namespace -> outcome Namespace
}.

(** [traceback.format_exc()]: a fixed header line, then the frames and the
    exception line. *)
Definition format_exc (tb : string) : string :=
  "Traceback (most recent call last):" ++ nl ++ tb.

Record ScratchpadState : Type := {
  code_lines : list string;
  feedback : string
}.

Fixpoint numbered (i : nat) (lines : list string) : list string :=
  match lines with
  | [] => []
  | l :: rest => ("L " ++ str (S i) ++ " " ++ l) :: numbered (S i) rest
  end.

Definition render (st : ScratchpadState) : string :=
  join nl (numbered 0 (code_lines st)) ++ nl ++ "***" ++ nl ++ feedback st.

Section DSLExecutor.
Context `{Interpreter}.

(** A failure record [(idx, test, repr(e))]. *)
Definition failure : Type := nat * string * string.

Definition failure_text (f : failure) : string :=
  let '(i, t, err) := f in
  "Test " ++ str i ++ " failed!" ++ nl ++ "Test code:" ++ nl ++ t ++ nl
  ++ "Error: " ++ err.

(** The loop over [enumerate(self.tests, 1)]. *)
Fixpoint run_tests (tests : list string) (idx : nat) (g : Namespace)
    (failed : list failure) : result (list failure) :=
  match tests with
  | [] => Ok failed
  | test :: rest =>
      match exec test g with
      | Returned g' => run_tests rest (S idx) g' failed
      | Raised g' e _ => run_tests rest (S idx) g' (failed ++ [(idx, test, e)])
      | Escaped => Raise Uncaught
      end
  end.

Definition run (tests : list string) (code_text : string) : result string :=
  match exec code_text fresh with
  | Returned g =>
      failed <- run_tests tests 1 g [] ;;
      match failed with
      | [] => Ok ""
      | _ => Ok (join nl (map failure_text failed))
      end
  | Raised _ _ tb => Ok (format_exc tb)
  | Escaped => Raise Uncaught
  end.

(** Every test statement executes without raising, each one against the
    namespace the program and the tests before it have populated. *)
Fixpoint all_pass (tests : list string) (g : Namespace) : Prop :=
  match tests with
  | [] => True
  | test :: rest => exists g', exec test g = Returned g' /\ all_pass rest g'
  end.

(** The program made of the lines executes without raising, and then every
    test does. *)
Definition passes (tests lines : list string) : Prop :=
  exists g, exec (join nl lines) fresh = Returned g /\ all_pass tests g.

(** The records [(idx, test, repr(e))] of the tests that raise, in order,
    when the tests are numbered from [idx] and run from namespace [g]. *)
Inductive failures : list string -> nat -> Namespace -> list failure -> Prop :=
| failures_done (idx : nat) (g : Namespace) : failures [] idx g []
| failures_pass (test : string) (rest : list string) (idx : nat)
    (g g' : Namespace) (fs : list failure) :
    exec test g = Returned g' ->
    failures rest (S idx) g' fs ->
    failures (test :: rest) idx g fs
| failures_fail (test : string) (rest : list string) (idx : nat)
    (g g' : Namespace) (e tb : string) (fs : list failure) :
    exec test g = Raised g' e tb ->
    failures rest (S idx) g' fs ->
    failures (test :: rest) idx g ((idx, test, e) :: fs).

(** The feedback is the traceback of the program's own exception. *)
Definition is_traceback (lines : list string) (fb : string) : Prop :=
  exists g e tb,
    exec (join nl lines) fresh = Raised g e tb /\ fb = format_exc tb.

(** The feedback is the report of all the failing tests, and there is
    one. *)
Definition is_failure_report (tests lines : list string) (fb : string)
  : Prop :=
  exists g f fs,
    exec (join nl lines) fresh = Returned g /\
    failures tests 1 g (f :: fs) /\
    fb = join nl (map failure_text (f :: fs)).

(** A [CoEEnv]: its scratchpad state and the tests of its executor. *)
Record CoEEnv : Type := {
  state : ScratchpadState;
  tests : list string
}.

Definition update_feedback (e : CoEEnv) : result CoEEnv :=
  let code_text := join nl (code_lines (state e)) in
  fb <- run (tests e) code_text ;;
  Ok {| state := {| code_lines := code_lines (state e); feedback := fb |};
        tests := tests e |}.

(** [CoEEnv(code_lines, tests)]. *)
Definition init (lines : list string) (ts : list string) : result CoEEnv :=
  update_feedback
    {| state := {| code_lines := lines; feedback := "" |}; tests := ts |}.

End DSLExecutor.

Definition in_range (ln : nat) (lines : list string) : bool :=
  ((1 <=? ln) && (ln <=? List.length lines))%nat.

(** The text after the first delimiter of the action, or the empty text. *)
Definition content_of (action : string) : string :=
  if contains ">>>" action then after_first ">>>" action else "".

Definition dell (lines : list string) (args : list string)
  : result (list string) :=
  match args with
  | a :: _ =>
      if isdigit a then
        ln <- int a ;;
        Ok (if in_range ln lines then pylist.pop lines (ln - 1) else lines)
      else Ok lines
  | [] => Ok lines
  end.

Definition addl (lines : list string) (action : string) (args : list string)
  : result (list string) :=
  match args with
  | a :: _ =>
      if isdigit a then
        ln <- int a ;;
        let insertion := content_of action in
        let ln := Nat.max 1 (Nat.min ln (List.length lines + 1)) in
        Ok (pylist.insert lines (ln - 1) insertion)
      else Ok lines
  | [] => Ok lines
  end.

Definition repl (lines : list string) (action : string) (args : list string)
  : result (list string) :=
  match args with
  | a :: _ =>
      if isdigit a then
        ln <- int a ;;
        let replacement := content_of action in
        Ok (if in_range ln lines
            then pylist.set_item lines (ln - 1) replacement
            else lines)
      else Ok lines
  | [] => Ok lines
  end.

Definition repw (lines : list string) (action : string)
  : result (list string) :=
  match match_repw action with
  | Some (digits, old, new) =>
      ln <- int digits ;;
      Ok (if in_range ln lines
          then pylist.set_item lines (ln - 1)
                 (replace (nth (ln - 1) lines "") old new)
          else lines)
  | None => Ok lines
  end.

(** The part of [CoEEnv.apply] before [self.update_feedback()]: the action
    is stripped and split, [parts[0]] selects the branch, and the code lines
    are edited. *)
Definition edit (lines : list string) (action : string)
  : result (list string) :=
  let action := strip action in
  let parts := split action in
  match parts with
  | [] => Raise IndexError
  | verb :: args =>
      if verb =? "DELL" then dell lines args
      else if verb =? "ADDL" then addl lines action args
      else if verb =? "REPL" then repl lines action args
      else if verb =? "REPW" then repw lines action
      else if verb =? "EXIT" then Ok lines
      else Ok lines
  end.

(** The action texts the engine ignores on purpose: a leading token that is
    none of DELL, ADDL, REPL, REPW; one of DELL, ADDL, REPL with no second
    token or one that is not all digits; REPW text that the pattern does not
    match. *)
Definition ignored (action : string) : bool :=
  let action := strip action in
  match split action with
  | [] => false
  | verb :: args =>
      if (verb =? "DELL") || (verb =? "ADDL") || (verb =? "REPL") then
        match args with
        | [] => true
        | a :: _ => negb (isdigit a)
        end
      else if verb =? "REPW" then
        match match_repw action with
        | None => true
        | Some _ => false
        end
      else true
  end.

Section CoEEnv.
Context `{Interpreter}.

(** The tail of [apply]: [self.update_feedback()] on the edited lines, then
    [return deepcopy(self.state)].  The result is the environment after the
    call and the returned snapshot. *)
Definition recompute (e : CoEEnv) (lines : list string)
  : result (CoEEnv * ScratchpadState) :=
  e' <- update_feedback
          {| state := {| code_lines := lines; feedback := feedback (state e) |};
             tests := tests e |} ;;
  Ok (e', state e').

(** [env.apply(action)]. *)
Definition apply (e : CoEEnv) (action : string)
  : result (CoEEnv * ScratchpadState) :=
  lines <- edit (code_lines (state e)) action ;;
  recompute e lines.

End CoEEnv.

End env.

(* ================================================================== *)
(** ** src/corruptor.py *)
(* ================================================================== *)

Module corruptor.

(** The global random source: the stream of raw draws and the number of
    draws consumed so far.  [randrange(n)] reduces the next draw modulo [n],
    so every value below [n] is a possible outcome. *)
Record rng : Type := {
  draws : nat -> nat;
  cursor : nat
}.

Definition advance (r : rng) : rng :=
  {| draws := draws r; cursor := S (cursor r) |}.

Definition randrange (n : nat) (r : rng) : result (nat * rng) :=
  if (n =? 0)%nat then Raise ValueError
  else Ok (draws r (cursor r) mod n, advance r).

(** [random.choice(seq)]: IndexError on an empty sequence. *)
Definition choice {A : Type} (seq : list A) (d : A) (r : rng)
  : result (A * rng) :=
  match seq with
  | [] => Raise IndexError
  | _ => '(i, r) <- randrange (List.length seq) r ;; Ok (nth i seq d, r)
  end.

Definition letters : string := "abcdefghijklmnopqrstuvwxyz".

Definition delete_line (code_lines : list string) (r : rng)
  : result (list string * rng) :=
  match code_lines with
  | [] => Ok (code_lines, r)
  | _ =>
      '(idx, r) <- randrange (List.length code_lines) r ;;
      Ok ((firstn idx code_lines ++ skipn (idx + 1) code_lines)%list, r)
  end.

Definition add_line (code_lines donor_lines : list string) (r : rng)
  : result (list string * rng) :=
  '(idx, r) <- randrange (List.length code_lines + 1) r ;;
  '(line, r) <- choice donor_lines "" r ;;
  Ok ((firstn idx code_lines ++ [line] ++ skipn idx code_lines)%list, r).

Definition replace_line (code_lines donor_lines : list string) (r : rng)
  : result (list string * rng) :=
  match code_lines with
  | [] => Ok (code_lines, r)
  | _ =>
      '(idx, r) <- randrange (List.length code_lines) r ;;
      '(line, r) <- choice donor_lines "" r ;;
      Ok (pylist.set_item code_lines idx line, r)
  end.

Definition typo_word (code_lines : list string) (r : rng)
  : result (list string * rng) :=
  match code_lines with
  | [] => Ok (code_lines, r)
  | _ =>
      '(idx, r) <- randrange (List.length code_lines) r ;;
      let words := split (nth idx code_lines "") in
      match words with
      | [] => Ok (code_lines, r)
      | _ =>
          '(wi, r) <- randrange (List.length words) r ;;
          let w := nth wi words "" in
          '(w2, r) <-
            (if (1 <? String.length w)%nat then
               '(pos, r) <- randrange (String.length w) r ;;
               '(c, r) <- choice (list_ascii_of_string letters) zero r ;;
               Ok (take pos w ++ String c "" ++ drop (pos + 1) w, r)
             else
               '(c, r) <- choice (list_ascii_of_string letters) zero r ;;
               Ok (w ++ String c "", r)) ;;
          let words := pylist.set_item words wi w2 in
          let new_line := join " " words in
          Ok (pylist.set_item code_lines idx new_line, r)
      end
  end.

End corruptor.

(* ================================================================== *)
(** ** src/demo_generator.py *)
(* ================================================================== *)

Module demo_generator.
Import env corruptor.

Definition CORRUPTION_TYPES : list string :=
  ["delete"; "add"; "replace"; "typo"].

(** The loop [for i, ln in enumerate(a): if i >= len(b) or b[i] != ln:
    return ...], started at index [i]: the first such index with its
    line. *)
Fixpoint first_mismatch (i : nat) (a b : list string)
  : option (nat * string) :=
  match a with
  | [] => None
  | ln :: a' =>
      match b with
      | [] => Some (i, ln)
      | x :: b' => if x =? ln then first_mismatch (S i) a' b' else Some (i, ln)
      end
  end.

(** [l[-1]] and [l[0]]. *)
Definition last_item (l : list string) : result string :=
  match l with
  | [] => Raise IndexError
  | _ => Ok (List.last l "")
  end.

Definition first_item (l : list string) : result string :=
  match l with
  | [] => Raise IndexError
  | x :: _ => Ok x
  end.

Definition invert_action_for_op (op_type : string)
    (clean_lines current_lines : list string) : result string :=
  if op_type =? "delete" then
    match first_mismatch 0 clean_lines current_lines with
    | Some (i, ln) => Ok ("ADDL " ++ str (i + 1) ++ " >>>" ++ ln)
    | None =>
        ln <- last_item clean_lines ;;
        Ok ("ADDL " ++ str (List.length current_lines + 1) ++ " >>>" ++ ln)
    end
  else if op_type =? "add" then
    match first_mismatch 0 current_lines clean_lines with
    | Some (i, _) => Ok ("DELL " ++ str (i + 1))
    | None => Ok ("DELL " ++ str (List.length current_lines))
    end
  else if (op_type =? "replace") || (op_type =? "typo") then
    match first_mismatch 0 clean_lines current_lines with
    | Some (i, ln) => Ok ("REPL " ++ str (i + 1) ++ " >>>" ++ ln)
    | None =>
        ln <- first_item clean_lines ;;
        Ok ("REPL 1 >>>" ++ ln)
    end
  else Ok "EXIT".

(** The corruption loop of [generate_demo_for_example]. *)
Fixpoint corrupt (n : nat) (code ops donor_pool : list string) (r : rng)
  : result (list string * list string * rng) :=
  match n with
  | O => Ok (code, ops, r)
  | S n' =>
      '(c, r) <- choice CORRUPTION_TYPES "" r ;;
      '(code, ops, r) <-
        (if c =? "delete" then
           '(code, r) <- delete_line code r ;;
           Ok (code, (ops ++ ["delete"])%list, r)
         else if c =? "add" then
           '(code, r) <- add_line code donor_pool r ;;
           Ok (code, (ops ++ ["add"])%list, r)
         else if c =? "replace" then
           '(code, r) <- replace_line code donor_pool r ;;
           Ok (code, (ops ++ ["replace"])%list, r)
         else if c =? "typo" then
           '(code, r) <- typo_word code r ;;
           Ok (code, (ops ++ ["typo"])%list, r)
         else Ok (code, ops, r)) ;;
      corrupt n' code ops donor_pool r
  end.

Section Synthesis.
Context `{Interpreter}.

(** The loop over [reversed(ops)]. *)
Fixpoint invert_all (rev_ops : list string) (clean_code_lines : list string)
    (e : CoEEnv) (current_lines : list string) (trace : list string)
  : result (CoEEnv * list string) :=
  match rev_ops with
  | [] => Ok (e, trace)
  | op :: rest =>
      action <- invert_action_for_op op clean_code_lines current_lines ;;
      let trace := (trace ++ [action])%list in
      '(e, st) <- apply e action ;;
      let trace := (trace ++ [render st])%list in
      invert_all rest clean_code_lines e (code_lines st) trace
  end.

(** Returns [(trace, code)]; the environment at the end and the random
    source are returned too, to state what the call did. *)
Definition generate_demo_for_example (clean_code_lines tests donor_pool
    : list string) (num_corruptions : nat) (r : rng)
  : result (list string * list string * CoEEnv * rng) :=
  '(code, ops, r) <- corrupt num_corruptions clean_code_lines [] donor_pool r ;;
  e <- init code tests ;;
  let trace := [render (state e)] in
  let current_lines := code_lines (state e) in
  '(e, trace) <- invert_all (rev ops) clean_code_lines e current_lines trace ;;
  let trace := (trace ++ ["EXIT"])%list in
  Ok (trace, code, e, r).

End Synthesis.

End demo_generator.

(* ================================================================== *)
(** ** src/rl_train.py *)
(* ================================================================== *)

Module rl_train.
Import env.
Open Scope R_scope.

(** The learned policy, an external collaborator: the text decoded from
    [model.generate] at turn [t] for a prompt (sampling is stochastic, so the
    turn is an argument), and the log-probability [compute_logprob] gives an
    action. *)
Class Policy : Type := {
  LogP : Type;
  generate : nat -> string -> string;
  compute_logprob : string -> string -> LogP
}.

Section Rollout.
Context `{Interpreter} `{Policy}.

(** A step of a trajectory (the dict appended to [traj]). *)
Record step : Type := {
  prompt : string;
  action : string;
  logp : LogP;
  reward : R
}.

Definition sample_action (t : nat) (prompt : string) : string :=
  strip (generate t prompt).

(** [action.startswith(("DELL", "ADDL", "REPL", "REPW", "EXIT"))]. *)
Definition starts_with_command (action : string) : bool :=
  existsb (startswith action) ["DELL"; "ADDL"; "REPL"; "REPW"; "EXIT"].

(** [traj[-1]["reward"] -= 0.5]. *)
Fixpoint penalise_last (traj : list step) : result (list step) :=
  match traj with
  | [] => Raise IndexError
  | [s] => Ok [{| prompt := prompt s; action := action s; logp := logp s;
                  reward := reward s - 0.5 |}]
  | s :: rest => rest' <- penalise_last rest ;; Ok (s :: rest')
  end.

(** [action.splitlines()[0] if action else "EXIT"]. *)
Definition first_line_or_exit (action : string) : string :=
  if is_empty action then "EXIT"%string else first_line action.

(** The loop [for t in range(max_turns)], from turn [t] with [turns] turns
    left. *)
Fixpoint rollout_loop (turns t : nat) (e : CoEEnv) (traj : list step)
  : result (CoEEnv * list step) :=
  match turns with
  | O => Ok (e, traj)
  | S turns' =>
      let prompt := (render (state e) ++ nl ++ "### ")%string in
      let action := sample_action t prompt in
      let action := first_line_or_exit action in
      let logp := compute_logprob prompt action in
      let before := feedback (state e) in
      '(e, new_state) <- apply e action ;;
      let reward := 0 in
      let reward :=
        if (feedback new_state =? "")%string && negb (before =? "")%string
        then 1 else reward in
      let reward :=
        if negb (starts_with_command action) then reward - 0.5 else reward in
      let traj :=
        (traj ++ [{| prompt := prompt; action := action; logp := logp;
                     reward := reward |}])%list in
      if startswith action "EXIT" then Ok (e, traj)
      else rollout_loop turns' (S t) e traj
  end.

(** [traj[-1]], when there is one. *)
Definition last_step (traj : list step) : option step :=
  match rev traj with
  | [] => None
  | s :: _ => Some s
  end.

Definition rollout_one (init_code_lines tests : list string)
    (max_turns : nat) : result (list step) :=
  e <- init init_code_lines tests ;;
  '(e, traj) <- rollout_loop max_turns 0 e [] ;;
  if (feedback (state e) =? "")%string then
    match last_step traj with
    | None => penalise_last traj
    | Some s =>
        if negb (startswith (action s) "EXIT") then penalise_last traj
        else Ok traj
    end
  else Ok traj.

(** The reward of one turn, in the words of the specification: 1 when the
    feedback goes from non-empty to empty on the turn and 0 otherwise, and
    0.5 less when the action text does not start with a command verb. *)
Definition expected_reward (before after action : string) : R :=
  (if (after =? "")%string && negb (before =? "")%string then 1 else 0)
  + (if starts_with_command action then 0 else - 0.5).

Definition is_exit (s : step) : bool := startswith (action s) "EXIT".

(** [recorded e t steps e']: from environment [e] at turn [t], the steps are
    the turns the driver plays one after the other, each on the environment
    the previous one left, and [e'] is the environment after the last. *)
Inductive recorded : CoEEnv -> nat -> list step -> CoEEnv -> Prop :=
| recorded_none (e : CoEEnv) (t : nat) : recorded e t [] e
| recorded_turn (e e1 e' : CoEEnv) (t : nat) (s : step)
    (st : ScratchpadState) (rest : list step) :
    prompt s = (render (state e) ++ nl ++ "### ")%string ->
    action s = first_line_or_exit (sample_action t (prompt s)) ->
    apply e (action s) = Ok (e1, st) ->
    reward s = expected_reward (feedback (state e)) (feedback st) (action s) ->
    recorded e1 (S t) rest e' ->
    recorded e t (s :: rest) e'.

(** The step with 0.5 taken off its reward. *)
Definition penalised (s : step) : step :=
  {| prompt := prompt s; action := action s; logp := logp s;
     reward := reward s - 0.5 |}.

(** How the loop ends: within the turn budget; no step follows a step whose
    action starts with EXIT; a trajectory shorter than the budget ends with
    such a step; a positive budget records at least one step. *)
Definition loop_post (turns : nat) (body : list step) : Prop :=
  (List.length body <= turns)%nat /\
  Forall (fun s => is_exit s = false) (removelast body) /\
  ((List.length body < turns)%nat ->
   exists s, last_step body = Some s /\ is_exit s = true) /\
  ((0 < turns)%nat -> body <> []).

(** *** compute_returns_and_advantages *)

(** [max(len(t) for t in group_trajs)]: ValueError on an empty group. *)
Definition max_len {A : Type} (group : list (list A)) : result nat :=
  match group with
  | [] => Raise ValueError
  | _ => Ok (fold_right Nat.max 0%nat (map (@List.length A) group))
  end.

(** The backward loop: [future = step["reward"] + gamma * future;
    R.insert(0, future)] over [reversed(traj)]. *)
Definition returns_of (gamma : R) (traj : list step) : list R :=
  snd (fold_left
         (fun (acc : R * list R) (s : step) =>
            let future := reward s + gamma * fst acc in
            (future, future :: snd acc))
         (rev traj) (0, [])).

(** The scan [for i, R in enumerate(returns): if t < len(R): ...], from
    index [i]: the lists [vals] and [idxs]. *)
Fixpoint collect (t i : nat) (returns : list (list R)) : list R * list nat :=
  match returns with
  | [] => ([], [])
  | Ri :: rest =>
      let '(vals, idxs) := collect t (S i) rest in
      if (t <? List.length Ri)%nat then (nth t Ri 0 :: vals, i :: idxs)
      else (vals, idxs)
  end.

(** [sum(vals)]. *)
Definition sum (vals : list R) : R := fold_left Rplus vals 0.

(** The mean and the deviation used at one turn. *)
Definition mu_sigma (vals : list R) : R * R :=
  if (2 <=? List.length vals)%nat then
    let mu := sum vals / INR (List.length vals) in
    let var := sum (map (fun v => (v - mu) ^ 2) vals)
               / INR (List.length vals - 1) in
    (mu, sqrt (Rmax var 1e-6))
  else if (List.length vals =? 1)%nat then (nth 0 vals 0, 1)
  else (0, 1).

(** [advantages[idx].append(x)]. *)
Fixpoint append_at (advantages : list (list R)) (idx : nat) (x : R)
  : list (list R) :=
  match advantages, idx with
  | [], _ => []
  | a :: rest, O => (a ++ [x])%list :: rest
  | a :: rest, S k => a :: append_at rest k x
  end.

(** The loop [for j, idx in enumerate(idxs)], from position [j]. *)
Fixpoint scatter (advantages : list (list R)) (j : nat) (idxs : list nat)
    (vals : list R) (mu sigma : R) : list (list R) :=
  match idxs with
  | [] => advantages
  | idx :: rest =>
      scatter (append_at advantages idx ((nth j vals 0 - mu) / sigma))
              (S j) rest vals mu sigma
  end.

(** The body of [for t in range(max_T)]. *)
Definition turn (returns : list (list R)) (advantages : list (list R))
    (t : nat) : list (list R) :=
  let '(vals, idxs) := collect t 0 returns in
  let '(mu, sigma) := mu_sigma vals in
  scatter advantages 0 idxs vals mu sigma.

Definition advantages_of (returns : list (list R)) (max_T : nat)
  : list (list R) :=
  fold_left (turn returns) (seq 0 max_T) (map (fun _ => []) returns).

(** An element of [flat_steps]. *)
Record flat_step : Type := {
  f_prompt : string;
  f_action : string;
  old_logp : LogP;
  adv : R
}.

Fixpoint flatten_traj (adv_i : list R) (t : nat) (traj : list step)
  : list flat_step :=
  match traj with
  | [] => []
  | s :: rest =>
      {| f_prompt := prompt s; f_action := action s; old_logp := logp s;
         adv := if (t <? List.length adv_i)%nat then nth t adv_i 0 else 0 |}
      :: flatten_traj adv_i (S t) rest
  end.

Fixpoint flatten (advantages : list (list R)) (i : nat)
    (group_trajs : list (list step)) : list flat_step :=
  match group_trajs with
  | [] => []
  | traj :: rest =>
      (flatten_traj (nth i advantages []) 0 traj
       ++ flatten advantages (S i) rest)%list
  end.

Definition compute_returns_and_advantages (group_trajs : list (list step))
    (gamma : R) : result (list flat_step) :=
  max_T <- max_len group_trajs ;;
  let returns := map (returns_of gamma) group_trajs in
  let advantages := advantages_of returns max_T in
  Ok (flatten advantages 0 group_trajs).

(** *** The estimator in the words of the specification *)

(** The default discount. *)
Definition default_gamma : R := 1.

(** Discounted returns, computed backward:
    R_t = reward_t + gamma * R_(t+1), with nothing after the last step. *)
Fixpoint discounted (gamma : R) (traj : list step) : list R :=
  match traj with
  | [] => []
  | s :: rest =>
      (reward s + gamma * hd 0 (discounted gamma rest))
      :: discounted gamma rest
  end.

(** The returns at turn [t] of the trajectories that have a step at [t]. *)
Definition column (t : nat) (returns : list (list R)) : list R :=
  flat_map (fun Ri => if (t <? List.length Ri)%nat then [nth t Ri 0] else [])
           returns.

Definition total (vals : list R) : R := fold_right Rplus 0 vals.

Definition mean (vals : list R) : R := total vals / INR (List.length vals).

(** Sample standard deviation: the sum of squared deviations divided by
    count - 1, floored at 1e-6 before the square root. *)
Definition sample_sd (vals : list R) : R :=
  sqrt (Rmax (total (map (fun v => (v - mean vals) ^ 2) vals)
              / INR (List.length vals - 1))
             1e-6).

(** mu_t and sigma_t: with exactly one return at the turn, that return
    and 1. *)
Definition mu_at (t : nat) (returns : list (list R)) : R :=
  match column t returns with
  | [v] => v
  | vals => mean vals
  end.

Definition sigma_at (t : nat) (returns : list (list R)) : R :=
  match column t returns with
  | [_] => 1
  | vals => sample_sd vals
  end.

(** The advantage of a return [x] at turn [t]. *)
Definition advantage (returns : list (list R)) (t : nat) (x : R) : R :=
  (x - mu_at t returns) / sigma_at t returns.

(** The flattened steps of one trajectory, each with the advantage of its
    return at its turn. *)
Definition flat_of (returns : list (list R)) (gamma : R) (traj : list step)
  : list flat_step :=
  map (fun ts : nat * step =>
         {| f_prompt := prompt (snd ts); f_action := action (snd ts);
            old_logp := logp (snd ts);
            adv := advantage returns (fst ts)
                     (nth (fst ts) (discounted gamma traj) 0) |})
      (combine (seq 0 (List.length traj)) traj).

(** One turn of the estimator, row by row: the row of a trajectory that
    has a step at [t] gets one more advantage. *)
Fixpoint extend_all (t : nat) (mu sigma : R) (advantages returns : list (list R))
  : list (list R) :=
  match advantages, returns with
  | a :: advantages', Ri :: returns' =>
      (if (t <? List.length Ri)%nat
       then (a ++ [(nth t Ri 0 - mu) / sigma])%list else a)
      :: extend_all t mu sigma advantages' returns'
  | _, _ => []
  end.

(** The advantages of the trajectory with returns [Ri] after the first [T]
    turns have been processed, with the statistics the code computes. *)
Definition row (returns : list (list R)) (T : nat) (Ri : list R) : list R :=
  map (fun t => (nth t Ri 0 - fst (mu_sigma (column t returns)))
                / snd (mu_sigma (column t returns)))
      (seq 0 (Nat.min T (List.length Ri))).

End Rollout.

End rl_train.

(* ================================================================== *)
(** ** Concrete collaborators for the scenarios *)
(* ================================================================== *)

Module scenario.
Import env rl_train.

Definition dq : string := String (ascii_of_nat 34) "".

(** An interpreter for a handful of one-line programs, doing on each what
    Python does (traceback frames elided); every other text is rejected as
    a syntax error, which is only meant for the texts of the scenarios. *)
Definition toy_exec (text : string) (g : unit) : outcome unit :=
  if (text =? "") || (text =? "pass") || (text =? "x = 1") then Returned tt
  else if text =? "raise SystemExit" then Escaped
  else if text =? "assert False" then
    Raised tt "AssertionError()" ("AssertionError" ++ nl)
  else if text =? "x" then
    Raised tt ("NameError(" ++ dq ++ "name 'x' is not defined" ++ dq ++ ")")
              ("NameError: name 'x' is not defined" ++ nl)
  else Raised tt "SyntaxError('invalid syntax')"
              ("SyntaxError: invalid syntax" ++ nl).

#[export] Instance toy : Interpreter :=
  {| Namespace := unit; fresh := tt; exec := toy_exec |}.

(** A policy that answers turn [t] with the [t]-th text of a script. *)
Definition scripted (script : list string) : Policy :=
  {| LogP := unit;
     generate := fun t _ => nth t script "";
     compute_logprob := fun _ _ => tt |}.

Definition env_of (lines : list string) (fb : string) (ts : list string)
  : CoEEnv :=
  {| state := {| code_lines := lines; feedback := fb |}; tests := ts |}.

End scenario.

(* ================================================================== *)
(** ** src/eval.py *)
(* ================================================================== *)

Module eval.
Import env rl_train.

Section Episode.
Context `{Interpreter} `{Policy}.

(** The loop of [run_one_episode_greedy] and of [run_one_episode_sample]
    (the two differ only in how the policy decodes, which is the policy's
    business here), from turn [t] with [turns] turns left.  The boolean
    tells whether the loop left through its [return True]; the environment
    at the end and the actions applied so far are returned too. *)
Fixpoint episode_loop (turns t : nat) (e : CoEEnv) (applied : list string)
  : result (bool * CoEEnv * list string) :=
  match turns with
  | O => Ok (false, e, applied)
  | S turns' =>
      let prompt := (render (state e) ++ nl ++ "### ")%string in
      let action := strip (generate t prompt) in
      let action := first_line_or_exit action in
      '(e, _) <- apply e action ;;
      let applied := (applied ++ [action])%list in
      if (feedback (state e) =? "")%string then Ok (true, e, applied)
      else if startswith action "EXIT" then Ok (false, e, applied)
      else episode_loop turns' (S t) e applied
  end.

(** [run_one_episode_greedy(model, tokenizer, init_code_lines, tests,
    max_turns)]: the returned boolean, with the final environment and the
    applied actions. *)
Definition run_one_episode (init_code_lines tests : list string)
    (max_turns : nat) : result (bool * CoEEnv * list string) :=
  e <- init init_code_lines tests ;;
  '(returned, e, applied) <- episode_loop max_turns 0 e [] ;;
  if returned then Ok (true, e, applied)
  else Ok ((feedback (state e) =? "")%string, e, applied).

End Episode.

End eval.

(* ================================================================== *)
(** ** src/dataset_builder.py *)
(* ================================================================== *)

Module dataset_builder.
Import corruptor.

(** [random.randint(a, b)]. *)
Definition randint (a b : nat) (r : rng) : result (nat * rng) :=
  '(k, r) <- randrange (b - a + 1) r ;; Ok (a + k, r).

(** The inner loop of [synthetic_repair_dataset]: [c] random corruptions,
    with the clean lines themselves as donor lines. *)
Fixpoint corrupt_lines (c : nat) (code clean_lines : list string) (r : rng)
  : result (list string * rng) :=
  match c with
  | O => Ok (code, r)
  | S c' =>
      '(op, r) <- choice ["delete"; "add"; "replace"; "typo"] "" r ;;
      '(code, r) <-
        (if op =? "delete" then delete_line code r
         else if op =? "add" then add_line code clean_lines r
         else if op =? "replace" then replace_line code clean_lines r
         else if op =? "typo" then typo_word code r
         else Ok (code, r)) ;;
      corrupt_lines c' code clean_lines r
  end.

(** One corrupted sample of [synthetic_repair_dataset]:
    [code = clean_lines[:]; c = random.randint(5, 20)] and the loop. *)
Definition corrupted_sample (clean_lines : list string) (r : rng)
  : result (list string * rng) :=
  '(c, r) <- randint 5 20 r ;;
  corrupt_lines c clean_lines clean_lines r.

End dataset_builder.

(* ================================================================== *)
(** ** src/generate_results.py *)
(* ================================================================== *)

Module generate_results.

(** The chain of [startswith] tests of [analyze_coe_demos] on one trace
    item. *)
Definition action_type (item : string) : option string :=
  if startswith item "DELL" then Some "DELL"
  else if startswith item "ADDL" then Some "ADDL"
  else if startswith item "REPL" then Some "REPL"
  else if startswith item "REPW" then Some "REPW"
  else None.

(** [action_types] after the loop over the items of one trace. *)
Definition action_types (trace : list string) : list string :=
  flat_map (fun item => match action_type item with
                        | Some a => [a]
                        | None => []
                        end) trace.

End generate_results.

(* ================================================================== *)
(** ** src/rl_train.py, the clipped objective of train_loop *)
(* ================================================================== *)

Module trainer.
Open Scope R_scope.

(** [torch.clamp(x, lo, hi)] on a scalar. *)
Definition clamp (x lo hi : R) : R := Rmin (Rmax x lo) hi.

(** The loss of one step: [ratio = exp(new_logp - old_logp)],
    [clipped = clamp(ratio, 1 - clip_eps, 1 + clip_eps)],
    [loss = -mean(min(ratio * adv, clipped * adv))] on scalars. *)
Definition step_loss (new_logp old_logp adv clip_eps : R) : R :=
  let ratio := exp (new_logp - old_logp) in
  let clipped := clamp ratio (1 - clip_eps) (1 + clip_eps) in
  - Rmin (ratio * adv) (clipped * adv).

End trainer.

(* ================================================================== *)
(** ** Predicates used to state further properties *)
(* ================================================================== *)

Module props.

(** A text made of blanks only (the empty text included). *)
Definition blank (s : string) : bool := forallb_str isspace s.

(** [old] occurs in [s]. *)
Definition occurs (old s : string) : Prop :=
  exists a b, s = a ++ old ++ b.


(** The verbs whose line argument goes through [isdigit] and [int]. *)
Definition numbered_verb (verb : string) : bool :=
  (verb =? "DELL") || (verb =? "ADDL") || (verb =? "REPL").

(** The action texts the synthesizer writes for the four corruption types
    start with one of these verbs. *)
Definition synth_verb (a : string) : bool :=
  startswith a "ADDL" || startswith a "DELL" || startswith a "REPL".

(** The second list has at most [n] lines more or fewer than the first. *)
Definition within (n : nat) (code code' : list string) : Prop :=
  List.length code - n <= List.length code' <= List.length code + n.

(** The items a synthesized step adds to the trace: the action and the
    rendering of the state after it. *)
Definition step_items (p : string * env.ScratchpadState) : list string :=
  [fst p; env.render (snd p)].

(** The feedback of the environment is the one its executor computes on
    its lines. *)
Definition consistent `{env.Interpreter} (e : env.CoEEnv) : Prop :=
  env.run (env.tests e) (join nl (env.code_lines (env.state e)))
  = Ok (env.feedback (env.state e)).

(** The values a step reward can take. *)
Definition reward_value (x : R) : Prop :=
  (x = -1 \/ x = -0.5 \/ x = 0 \/ x = 0.5 \/ x = 1)%R.

(** The index and the test text of a failure record. *)
Definition index_of (f : env.failure) : nat := fst (fst f).
Definition test_of (f : env.failure) : string := snd (fst f).

End props.

(* ================================================================== *)
(** ** A line-wise interpreter for the longer scenarios *)
(* ================================================================== *)

Module programs.
Import env.

(** The lines of a program text, split at LF. *)
Fixpoint lines_of (cur text : string) : list string :=
  match text with
  | EmptyString => [cur]
  | String c r =>
      if Ascii.eqb c newline then cur :: lines_of "" r
      else lines_of (cur ++ String c "") r
  end.

Definition harmless (line : string) : bool :=
  (line =? "") || (line =? "pass") || (line =? "x = 1").

(** A program whose lines are all empty, [pass] or [x = 1] returns, as in
    Python; any other program is taken to raise a NameError, which is what
    Python does for the programs of the scenarios (the other line they can
    hold is a bare [x] before any assignment). *)
Definition line_exec (text : string) (g : unit) : outcome unit :=
  if forallb harmless (lines_of "" text) then Returned tt
  else Raised tt "NameError(...)" ("NameError: name 'x' is not defined" ++ nl).

Definition line_interpreter : Interpreter :=
  {| Namespace := unit; fresh := tt; exec := line_exec |}.

End programs.

(* ================================================================== *)
(** * Properties *)
(* ================================================================== *)

(** ** Strings *)

Section StringFacts.

(** The string functions on concrete texts. *)
Example strip_split_example :
  strip "  ADDL 2   >>>    return a  " = "ADDL 2   >>>    return a" /\
  split "  ADDL 2   >>>    return a  " = ["ADDL"; "2"; ">>>"; "return"; "a"] /\
  split "   " = [] /\
  join ", " ["a"; "b"; "c"] = "a, b, c".
Proof. repeat split. Qed.

Example partition_replace_example :
  partition ">>>" "REPL 1 >>>a >>> b" = Some ("REPL 1 ", "a >>> b") /\
  partition ">>>" "DELL 1 >>" = None /\
  replace "aXXbXXXc" "XX" "-" = "a-b-Xc" /\
  replace "ab" "" "-" = "-a-b-".
Proof. repeat split. Qed.

Example match_repw_example :
  match_repw "REPW 3 >>>return>>>yield" = Some ("3", "return", "yield") /\
  match_repw "REPW 3 >>>a >>>b>>>c" = Some ("3", "a ", "b>>>c") /\
  match_repw "REPW 3 >>>a" = None /\
  match_repw "REPW3 >>>a>>>b" = None /\
  match_repw "REPW x >>>a>>>b" = None.
Proof. repeat split. Qed.

Example str_int_example :
  str 0 = "0" /\ str 907 = "907" /\ int "007" = Ok 7 /\
  int "" = Raise ValueError /\ isdigit "12a" = false.
Proof. repeat split. Qed.

Lemma append_empty_r (s : string) : s ++ "" = s.
Proof. induction s as [|c s IH]; simpl; congruence. Qed.

Lemma append_assoc (s t u : string) : (s ++ t) ++ u = s ++ (t ++ u).
Proof. induction s as [|c s IH]; simpl; congruence. Qed.

Lemma is_empty_true (s : string) : is_empty s = true -> s = "".
Proof. destruct s; simpl; congruence. Qed.

Lemma is_empty_app (s t : string) :
  is_empty (s ++ t) = is_empty s && is_empty t.
Proof. destruct s; reflexivity. Qed.

Lemma forallb_str_app (p : ascii -> bool) (s t : string) :
  forallb_str p (s ++ t) = forallb_str p s && forallb_str p t.
Proof.
  induction s as [|c s IH]; simpl; [reflexivity|].
  rewrite IH. now rewrite andb_assoc.
Qed.

Lemma forallb_str_impl (p q : ascii -> bool) (s : string) :
  (forall c, p c = true -> q c = true) ->
  forallb_str p s = true -> forallb_str q s = true.
Proof.
  intros Hpq. induction s as [|c s IH]; simpl; [reflexivity|].
  intros Hs. apply andb_true_iff in Hs as [Hc Hs].
  rewrite (Hpq _ Hc). now apply IH.
Qed.

(** *** strip *)

Lemma lstrip_nonblank (c : ascii) (s : string) :
  isspace c = false -> lstrip (String c s) = String c s.
Proof. intros Hc. simpl. now rewrite Hc. Qed.

Lemma rstrip_app_nonblank (s : string) (c : ascii) (t : string) :
  isspace c = false -> rstrip (s ++ String c t) = s ++ String c (rstrip t).
Proof.
  intros Hc. induction s as [|a s IH]; simpl.
  - now rewrite Hc.
  - rewrite IH. destruct s; simpl; now rewrite andb_false_r.
Qed.

(** *** split *)

Lemma split_from_word (w cur rest : string) :
  forallb_str nonblank w = true ->
  split_from cur (w ++ rest) = split_from (cur ++ w) rest.
Proof.
  revert cur. induction w as [|c w IH]; intros cur Hw; simpl.
  - now rewrite append_empty_r.
  - simpl in Hw. apply andb_true_iff in Hw as [Hc Hw].
    unfold nonblank in Hc. apply negb_true_iff in Hc. rewrite Hc.
    rewrite IH by assumption. now rewrite append_assoc.
Qed.

Lemma split_from_blank (cur : string) (c : ascii) (rest : string) :
  isspace c = true -> cur <> "" ->
  split_from cur (String c rest) = cur :: split_from "" rest.
Proof.
  intros Hc Hcur. simpl. rewrite Hc.
  destruct cur; [congruence | reflexivity].
Qed.

(** A word followed by a blank is the first element of the split. *)
Lemma split_word_blank (w : string) (c : ascii) (rest : string) :
  forallb_str nonblank w = true -> w <> "" -> isspace c = true ->
  split (w ++ String c rest) = w :: split rest.
Proof.
  intros Hw Hne Hc. unfold split.
  rewrite split_from_word by assumption. simpl append.
  now apply split_from_blank.
Qed.

(** *** partition *)

Lemma partition_delim (p rest : string) :
  forallb_str not_gt p = true ->
  partition ">>>" (p ++ ">>>" ++ rest) = Some (p, rest).
Proof.
  induction p as [|c p IH]; intros Hp.
  - reflexivity.
  - simpl in Hp. apply andb_true_iff in Hp as [Hc Hp].
    unfold not_gt in Hc. apply negb_true_iff in Hc.
    specialize (IH Hp).
    change (String c p ++ ">>>" ++ rest) with (String c (p ++ ">>>" ++ rest)).
    unfold partition; fold partition.
    replace (startswith (String c (p ++ ">>>" ++ rest)) ">>>") with false.
    + now rewrite IH.
    + cbn [startswith]. now rewrite Ascii.eqb_sym, Hc.
Qed.

(** *** str and int *)

Lemma nat_of_digit_char (d : nat) :
  d < 10 -> nat_of_ascii (digit_char d) = 48 + d.
Proof.
  intros Hd. unfold digit_char. apply nat_ascii_embedding. lia.
Qed.

Lemma isdecimal_digit_char (d : nat) : d < 10 -> isdecimal (digit_char d) = true.
Proof.
  intros Hd. unfold isdecimal. rewrite nat_of_digit_char by assumption.
  apply andb_true_iff. split; apply Nat.leb_le; lia.
Qed.

Lemma digit_value_digit_char (d : nat) : d < 10 -> digit_value (digit_char d) = d.
Proof.
  intros Hd. unfold digit_value. rewrite nat_of_digit_char by assumption. lia.
Qed.

Lemma int_acc_app (s t : string) (a : nat) :
  int_acc a (s ++ t) = int_acc (int_acc a s) t.
Proof. revert a. induction s as [|c s IH]; intros a; simpl; auto. Qed.

Lemma str_digits_acc (fuel n : nat) (acc : string) :
  str_digits fuel n acc = str_digits fuel n "" ++ acc.
Proof.
  revert n acc. induction fuel as [|fuel IH]; intros n acc; cbn [str_digits].
  - reflexivity.
  - destruct (n <? 10)%nat; [reflexivity|].
    rewrite IH. rewrite (IH _ (String _ "")).
    now rewrite append_assoc.
Qed.

Lemma str_digits_decimal (fuel n : nat) (acc : string) :
  forallb_str isdecimal acc = true ->
  forallb_str isdecimal (str_digits fuel n acc) = true.
Proof.
  revert n acc. induction fuel as [|fuel IH]; intros n acc Hacc;
    cbn [str_digits].
  - assumption.
  - assert (Hd : forallb_str isdecimal (String (digit_char (n mod 10)) acc)
                 = true).
    { cbn [forallb_str]. rewrite Hacc, isdecimal_digit_char; [reflexivity|].
      apply Nat.mod_upper_bound. lia. }
    destruct (n <? 10)%nat; [assumption | now apply IH].
Qed.

Lemma str_digits_nonempty (fuel n : nat) (acc : string) :
  is_empty (str_digits (S fuel) n acc) = false.
Proof.
  revert n acc. induction fuel as [|fuel IH]; intros n acc.
  - cbn [str_digits]. now destruct (n <? 10)%nat.
  - cbn [str_digits]. destruct (n <? 10)%nat; [reflexivity|]. apply IH.
Qed.

Lemma int_str_digits (fuel n : nat) :
  n < fuel -> int_acc 0 (str_digits fuel n "") = n.
Proof.
  revert n. induction fuel as [|fuel IH]; intros n Hn; [lia|].
  cbn [str_digits]. destruct (n <? 10)%nat eqn:E.
  - apply Nat.ltb_lt in E. cbn [int_acc].
    rewrite Nat.mod_small by assumption.
    rewrite digit_value_digit_char; lia.
  - apply Nat.ltb_ge in E.
    rewrite str_digits_acc, int_acc_app.
    assert (Hq : n / 10 < fuel).
    { assert (n / 10 < n) by (apply Nat.div_lt; lia). lia. }
    rewrite IH by assumption. cbn [int_acc].
    rewrite digit_value_digit_char by (apply Nat.mod_upper_bound; lia).
    pose proof (Nat.div_mod_eq n 10). lia.
Qed.

Lemma str_decimal (n : nat) : forallb_str isdecimal (str n) = true.
Proof. now apply str_digits_decimal. Qed.

Lemma str_nonempty (n : nat) : is_empty (str n) = false.
Proof. apply str_digits_nonempty. Qed.

Lemma str_neq_empty (n : nat) : str n <> "".
Proof. intros E. pose proof (str_nonempty n) as H. now rewrite E in H. Qed.

(** [int(str(n)) == n]. *)
Lemma int_str (n : nat) : int (str n) = Ok n.
Proof.
  unfold int. rewrite str_nonempty, str_decimal. cbn [negb andb].
  f_equal. apply int_str_digits. lia.
Qed.

Lemma isdecimal_isdigit (c : ascii) : isdecimal c = true -> isdigit_char c = true.
Proof. intros Hc. unfold isdigit_char. now rewrite Hc. Qed.

Lemma isdigit_str (n : nat) : isdigit (str n) = true.
Proof.
  unfold isdigit. rewrite str_nonempty. cbn [negb andb].
  apply (forallb_str_impl isdecimal); [apply isdecimal_isdigit | apply str_decimal].
Qed.

End StringFacts.

(** ** Character classes *)

Lemma isdecimal_classes (c : ascii) :
  isdecimal c = true -> isspace c = false /\ not_gt c = true.
Proof.
  destruct c as [[] [] [] [] [] [] [] []]; vm_compute; intros Hc;
    try discriminate; split; reflexivity.
Qed.

Lemma decimal_nonblank (s : string) :
  forallb_str isdecimal s = true -> forallb_str nonblank s = true.
Proof.
  apply forallb_str_impl. intros c Hc. unfold nonblank.
  now rewrite (proj1 (isdecimal_classes c Hc)).
Qed.

Lemma decimal_not_gt (s : string) :
  forallb_str isdecimal s = true -> forallb_str not_gt s = true.
Proof.
  apply forallb_str_impl. intros c Hc. apply (isdecimal_classes c Hc).
Qed.

(** ** Lists *)

Section ListFacts.
Context {A : Type}.

Lemma firstn_nth_error (l : list A) (i k : nat) :
  k < i -> nth_error (firstn i l) k = nth_error l k.
Proof.
  intros Hk. rewrite nth_error_firstn.
  apply Nat.ltb_lt in Hk. now rewrite Hk.
Qed.

Lemma pop_length (l : list A) (i : nat) :
  i < List.length l -> List.length (pylist.pop l i) = List.length l - 1.
Proof.
  intros Hi. unfold pylist.pop.
  rewrite length_app, firstn_length_le, length_skipn by lia. lia.
Qed.

Lemma pop_before (l : list A) (i k : nat) :
  k < i -> i < List.length l -> nth_error (pylist.pop l i) k = nth_error l k.
Proof.
  intros Hk Hi. unfold pylist.pop.
  rewrite nth_error_app1 by (rewrite firstn_length_le; lia).
  now apply firstn_nth_error.
Qed.

Lemma pop_after (l : list A) (i k : nat) :
  i <= k -> i < List.length l ->
  nth_error (pylist.pop l i) k = nth_error l (S k).
Proof.
  intros Hk Hi. unfold pylist.pop.
  rewrite nth_error_app2 by (rewrite firstn_length_le; lia).
  rewrite firstn_length_le by lia.
  rewrite nth_error_skipn. f_equal. lia.
Qed.

Lemma insert_length (l : list A) (i : nat) (x : A) :
  List.length (pylist.insert l i x) = List.length l + 1.
Proof.
  unfold pylist.insert. rewrite length_app. cbn [List.length].
  rewrite length_firstn, length_skipn. lia.
Qed.

Lemma insert_at (l : list A) (i : nat) (x : A) :
  i <= List.length l -> nth_error (pylist.insert l i x) i = Some x.
Proof.
  intros Hi. unfold pylist.insert.
  rewrite nth_error_app2 by (rewrite firstn_length_le; lia).
  rewrite firstn_length_le by lia. now rewrite Nat.sub_diag.
Qed.

Lemma insert_before (l : list A) (i k : nat) (x : A) :
  k < i -> i <= List.length l ->
  nth_error (pylist.insert l i x) k = nth_error l k.
Proof.
  intros Hk Hi. unfold pylist.insert.
  rewrite nth_error_app1 by (rewrite firstn_length_le; lia).
  now apply firstn_nth_error.
Qed.

Lemma insert_after (l : list A) (i k : nat) (x : A) :
  i <= k -> i <= List.length l ->
  nth_error (pylist.insert l i x) (S k) = nth_error l k.
Proof.
  intros Hk Hi. unfold pylist.insert.
  rewrite nth_error_app2 by (rewrite firstn_length_le; lia).
  rewrite firstn_length_le by lia.
  replace (S k - i) with (S (k - i)) by lia. cbn [nth_error].
  rewrite nth_error_skipn. f_equal. lia.
Qed.

Lemma insert_end (l : list A) (x : A) :
  pylist.insert l (List.length l) x = (l ++ [x])%list.
Proof.
  unfold pylist.insert. now rewrite firstn_all, skipn_all.
Qed.

Lemma set_item_length (l : list A) (i : nat) (x : A) :
  List.length (pylist.set_item l i x) = List.length l.
Proof.
  revert i. induction l as [|y l IH]; intros [|i]; simpl; auto.
Qed.

Lemma set_item_at (l : list A) (i : nat) (x : A) :
  i < List.length l -> nth_error (pylist.set_item l i x) i = Some x.
Proof.
  revert i. induction l as [|y l IH]; intros [|i] Hi; simpl in *;
    try lia; auto. apply IH. lia.
Qed.

Lemma set_item_other (l : list A) (i k : nat) (x : A) :
  k <> i -> nth_error (pylist.set_item l i x) k = nth_error l k.
Proof.
  revert i k. induction l as [|y l IH]; intros [|i] [|k] Hk; simpl;
    try congruence; auto.
Qed.

Lemma set_item_same (l : list A) (i : nat) (x : A) :
  nth_error l i = Some x -> pylist.set_item l i x = l.
Proof.
  revert i. induction l as [|y l IH]; intros [|i] Hx; simpl in *;
    try congruence. f_equal. now apply IH.
Qed.

Lemma set_item_split (l : list A) (i : nat) (x : A) :
  i < List.length l ->
  pylist.set_item l i x = (firstn i l ++ x :: skipn (S i) l)%list.
Proof.
  revert i. induction l as [|y l IH]; intros [|i] Hi; simpl in *;
    try lia; auto. f_equal. apply IH. lia.
Qed.

End ListFacts.

(** ** The edit engine (src/env.py) *)

Section EngineFacts.
Context `{env.Interpreter}.
Import env.

(** The engine on concrete actions. *)
Example edit_example :
  edit ["def add(a, b):"; "    return a"] "REPL 2 >>>    return a + b"
  = Ok ["def add(a, b):"; "    return a + b"] /\
  edit ["a"; "b"] "DELL 99" = Ok ["a"; "b"] /\
  edit ["a"; "b"] "REPL 99 >>>c" = Ok ["a"; "b"] /\
  edit ["a"; "b"] "ADDL 0 >>>c" = Ok ["c"; "a"; "b"] /\
  edit ["return x"] "REPW 1 >>>return>>>yield" = Ok ["yield x"] /\
  edit ["a"] "EXIT" = Ok ["a"].
Proof. repeat split. Qed.

Lemma recompute_ok (e e' : CoEEnv) (lines : list string) (st : ScratchpadState) :
  recompute e lines = Ok (e', st) ->
  st = state e' /\ code_lines st = lines /\ tests e' = tests e.
Proof.
  unfold recompute, update_feedback. cbn [state code_lines tests].
  destruct (run (tests e) (join nl lines)) as [fb|x]; cbn [bind];
    [|discriminate].
  intros E. injection E as <- <-. cbn. auto.
Qed.

Lemma recompute_same (e : CoEEnv) :
  recompute e (code_lines (state e))
  = (e' <- update_feedback e ;; Ok (e', state e')).
Proof. reflexivity. Qed.

Lemma apply_edit (e : CoEEnv) (action : string) (lines : list string) :
  edit (code_lines (state e)) action = Ok lines ->
  apply e action = recompute e lines.
Proof. intros E. unfold apply. now rewrite E. Qed.

Lemma in_range_iff (ln : nat) (lines : list string) :
  in_range ln lines = true <-> 1 <= ln <= List.length lines.
Proof.
  unfold in_range. rewrite andb_true_iff, !Nat.leb_le. tauto.
Qed.

Lemma in_range_false (ln : nat) (lines : list string) :
  ~ (1 <= ln <= List.length lines) -> in_range ln lines = false.
Proof.
  intros Hn. destruct (in_range ln lines) eqn:E; [|reflexivity].
  now apply in_range_iff in E.
Qed.

(** Unfold [edit] on an action whose split is known and pick the branch of
    its verb. *)
Ltac select_branch Hparse :=
  unfold env.edit; rewrite Hparse; cbn [String.eqb Ascii.eqb Bool.eqb].

(** C8: for a parsed [DELL line] on a buffer of N lines, a line number in
    [1, N] removes exactly that line (N-1 lines remain, the ones before it
    at their positions and the ones after it shifted up by one, in their
    order); any other line number leaves the buffer unchanged. *)
Theorem C8_delete_line (e : CoEEnv) (action d : string) (rest : list string)
    (ln : nat) :
  split (strip action) = "DELL" :: d :: rest ->
  isdigit d = true ->
  int d = Ok ln ->
  let lines := code_lines (state e) in
  let N := List.length lines in
  (1 <= ln <= N ->
   let lines' := (firstn (ln - 1) lines ++ skipn ln lines)%list in
   edit lines action = Ok lines' /\
   apply e action = recompute e lines' /\
   List.length lines' = N - 1 /\
   (forall k, k < ln - 1 -> nth_error lines' k = nth_error lines k) /\
   (forall k, ln - 1 <= k -> nth_error lines' k = nth_error lines (S k)))
  /\
  (~ (1 <= ln <= N) ->
   edit lines action = Ok lines /\ apply e action = recompute e lines).
Proof.
  intros Hparse Hdig Hint lines N.
  assert (Hedit : edit lines action
                  = Ok (if in_range ln lines then pylist.pop lines (ln - 1)
                        else lines)).
  { select_branch Hparse.
    unfold dell. now rewrite Hdig, Hint. }
  split.
  - intros Hr. pose proof (proj2 (in_range_iff ln lines) Hr) as Hin.
    rewrite Hin in Hedit.
    assert (Hpop : pylist.pop lines (ln - 1)
                   = (firstn (ln - 1) lines ++ skipn ln lines)%list).
    { unfold pylist.pop. do 2 f_equal. lia. }
    cbv zeta. rewrite <- Hpop.
    split; [assumption|]. split; [now apply apply_edit|].
    split; [apply pop_length; fold N; lia|].
    split; intros k Hk.
    + apply pop_before; [assumption | fold N; lia].
    + apply pop_after; [assumption | fold N; lia].
  - intros Hr. rewrite (in_range_false _ _ Hr) in Hedit.
    split; [assumption | now apply apply_edit].
Qed.

(** C7: for a parsed [ADDL line >>>content] on a buffer of N lines, the line
    number is clamped into [1, N+1] and the insertion always happens: the
    result has N+1 lines, the content at the clamped position, the lines
    before it unchanged and the lines from it on shifted down by one; a
    clamp to N+1 appends. *)
Theorem C7_insert_line (e : CoEEnv) (action d : string) (rest : list string)
    (ln : nat) :
  split (strip action) = "ADDL" :: d :: rest ->
  isdigit d = true ->
  int d = Ok ln ->
  let lines := code_lines (state e) in
  let N := List.length lines in
  let c := Nat.max 1 (Nat.min ln (N + 1)) in
  let content := content_of (strip action) in
  let lines' := (firstn (c - 1) lines ++ content :: skipn (c - 1) lines)%list in
  1 <= c <= N + 1 /\
  (1 <= ln <= N + 1 -> c = ln) /\
  edit lines action = Ok lines' /\
  apply e action = recompute e lines' /\
  List.length lines' = N + 1 /\
  nth_error lines' (c - 1) = Some content /\
  (forall k, k < c - 1 -> nth_error lines' k = nth_error lines k) /\
  (forall k, c - 1 <= k -> nth_error lines' (S k) = nth_error lines k) /\
  (c = N + 1 -> lines' = (lines ++ [content])%list).
Proof.
  intros Hparse Hdig Hint lines N c content lines'.
  assert (Hedit : edit lines action = Ok lines').
  { select_branch Hparse.
    unfold addl. now rewrite Hdig, Hint. }
  assert (Hc : 1 <= c <= N + 1) by (unfold c; lia).
  split; [assumption|]. split; [unfold c; lia|].
  split; [assumption|]. split; [now apply apply_edit|].
  change lines' with (pylist.insert lines (c - 1) content).
  split; [apply insert_length|].
  split; [apply insert_at; fold N; lia|].
  split; [intros k Hk; apply insert_before; [assumption | fold N; lia]|].
  split; [intros k Hk; apply insert_after; [assumption | fold N; lia]|].
  intros E. replace (c - 1) with (List.length lines) by (fold N; lia).
  apply insert_end.
Qed.

(** C9: a parsed [REPL line >>>content] overwrites the target line exactly
    when 1 <= line <= N, every other line staying as it is, and otherwise
    leaves the buffer unchanged; replacing a line by its current content
    gives back the original buffer. *)
Theorem C9_replace_line (e : CoEEnv) (action d : string) (rest : list string)
    (ln : nat) :
  split (strip action) = "REPL" :: d :: rest ->
  isdigit d = true ->
  int d = Ok ln ->
  let lines := code_lines (state e) in
  let N := List.length lines in
  let content := content_of (strip action) in
  exists lines',
    edit lines action = Ok lines' /\
    apply e action = recompute e lines' /\
    List.length lines' = N /\
    (1 <= ln <= N ->
     nth_error lines' (ln - 1) = Some content /\
     forall k, k <> ln - 1 -> nth_error lines' k = nth_error lines k) /\
    (~ (1 <= ln <= N) -> lines' = lines) /\
    (nth_error lines (ln - 1) = Some content -> lines' = lines).
Proof.
  intros Hparse Hdig Hint lines N content.
  assert (Hedit : edit lines action
                  = Ok (if in_range ln lines
                        then pylist.set_item lines (ln - 1) content
                        else lines)).
  { select_branch Hparse.
    unfold repl. now rewrite Hdig, Hint. }
  eexists. split; [exact Hedit|]. split; [now apply apply_edit|].
  destruct (in_range ln lines) eqn:Hin.
  - apply in_range_iff in Hin. fold N in Hin.
    split; [apply set_item_length|].
    split; [|split].
    + intros _. split; [apply set_item_at; fold N; lia|].
      intros k Hk. now apply set_item_other.
    + intros Hn. now elim Hn.
    + intros Hsame. now apply set_item_same.
  - split; [reflexivity|].
    split; [|split; reflexivity].
    intros Hr. apply in_range_iff in Hr. congruence.
Qed.

End EngineFacts.

Section IgnoredActions.
Context `{env.Interpreter}.
Import env.

Lemma edit_ignored (lines : list string) (action : string) :
  ignored action = true -> edit lines action = Ok lines.
Proof.
  unfold ignored, edit.
  destruct (split (strip action)) as [|verb args]; [discriminate|].
  destruct (verb =? "DELL") eqn:Edell.
  { cbn [orb]. unfold dell. destruct args as [|a args]; [reflexivity|].
    intros Ha. apply negb_true_iff in Ha. now rewrite Ha. }
  destruct (verb =? "ADDL") eqn:Eaddl.
  { cbn [orb]. unfold addl. destruct args as [|a args]; [reflexivity|].
    intros Ha. apply negb_true_iff in Ha. now rewrite Ha. }
  destruct (verb =? "REPL") eqn:Erepl.
  { cbn [orb]. unfold repl. destruct args as [|a args]; [reflexivity|].
    intros Ha. apply negb_true_iff in Ha. now rewrite Ha. }
  cbn [orb].
  destruct (verb =? "REPW") eqn:Erepw.
  { unfold repw. destruct (match_repw (strip action)) as [[[dg old] new]|];
      [discriminate | reflexivity]. }
  now destruct (verb =? "EXIT").
Qed.

(** C2 (as amended): an action text that is not blank and is malformed in
    one of these ways -- its leading token is none of DELL, ADDL, REPL and
    REPW; the verb is DELL, ADDL or REPL and the line argument is missing
    or not all digits; the verb is REPW and the text does not match the
    two-delimiter pattern -- leaves the code lines unchanged; [apply] then
    only recomputes the feedback, and returns whenever the test harness
    does. *)
Theorem C2_ignored_action_is_noop (e : CoEEnv) (action : string) :
  ignored action = true ->
  let lines := code_lines (state e) in
  edit lines action = Ok lines /\
  apply e action = recompute e lines /\
  (forall fb, run (tests e) (join nl lines) = Ok fb ->
   exists e', apply e action = Ok (e', state e') /\
              code_lines (state e') = lines /\
              feedback (state e') = fb).
Proof.
  intros Hig lines.
  pose proof (edit_ignored lines action Hig) as Hedit.
  split; [assumption|]. split; [now apply apply_edit|].
  intros fb Hfb. rewrite (apply_edit _ _ _ Hedit).
  unfold recompute, update_feedback. cbn [state code_lines tests].
  fold lines. rewrite Hfb. cbn [bind].
  eexists. split; [reflexivity|]. cbn. auto.
Qed.

End IgnoredActions.

(** C2, witness: the unknown verb FOO on a one-line buffer. *)
Lemma C2_ignored_action_is_noop_witness :
  env.edit ["pass"] "FOO 1 >>>x" = Ok ["pass"].
Proof.
  exact (proj1 (@C2_ignored_action_is_noop scenario.toy
                  (scenario.env_of ["pass"] "" []) "FOO 1 >>>x" eq_refl)).
Defined.

(** C2, counterexample: ADDL without the content delimiter is not ignored,
    it inserts an empty line; REPL without it blanks the target line. *)
Lemma C2_missing_delimiter_edits :
  contains ">>>" (strip "ADDL 1") = false /\
  env.edit ["a"] "ADDL 1" = Ok [""; "a"] /\
  contains ">>>" (strip "REPL 1") = false /\
  env.edit ["a"] "REPL 1" = Ok [""] /\
  Ok [""; "a"] <> Ok ["a"] /\ Ok [""] <> @Ok (list string) ["a"].
Proof.
  repeat split; try reflexivity; intros E; discriminate E.
Qed.

(** Texts of each ignored kind, and texts that are not ignored. *)
Example ignored_examples :
  map env.ignored
      ["FOO 1"; "EXIT"; "DELL"; "DELL two"; "ADDL x >>>y"; "REPL"; "REPW 1 >>>a";
       "DELL 1"; "ADDL 1"; "REPL 1"; "REPW 1 >>>a>>>b"; ""]
  = [true; true; true; true; true; true; true;
     false; false; false; false; false].
Proof. reflexivity. Qed.

(** Blank action text: [parts[0]] raises IndexError. *)
Lemma edit_blank_raises :
  env.edit ["a"] "" = Raise IndexError /\
  env.edit ["a"] "   " = Raise IndexError.
Proof. split; reflexivity. Qed.

(** A superscript digit passes [isdigit] and is refused by [int]. *)
Lemma edit_superscript_raises :
  env.edit ["a"] ("DELL " ++ String (ascii_of_nat 178) "") = Raise ValueError.
Proof. reflexivity. Qed.

(** ** The test harness and the feedback (src/env.py) *)

Section FeedbackFacts.
Context `{env.Interpreter}.
Import env.

Lemma run_tests_failures (ts : list string) (idx : nat) (g : Namespace)
    (acc failed : list failure) :
  run_tests ts idx g acc = Ok failed ->
  exists fs, failed = (acc ++ fs)%list /\ failures ts idx g fs.
Proof.
  revert idx g acc. induction ts as [|t ts IH]; intros idx g acc; cbn [run_tests].
  - intros E. injection E as <-. exists []. split.
    + now rewrite app_nil_r.
    + constructor.
  - destruct (exec t g) as [g'|g' e tb|] eqn:Et; [| |discriminate].
    + intros E. destruct (IH _ _ _ E) as [fs [-> Hfs]].
      exists fs. split; [reflexivity|]. now apply failures_pass with g'.
    + intros E. destruct (IH _ _ _ E) as [fs [-> Hfs]].
      exists ((idx, t, e) :: fs). split.
      * now rewrite <- app_assoc.
      * now apply failures_fail with g' tb.
Qed.

Lemma failures_nil_all_pass (ts : list string) (idx : nat) (g : Namespace) :
  failures ts idx g [] -> all_pass ts g.
Proof.
  revert idx g. induction ts as [|t ts IH]; intros idx g Hf; cbn [all_pass].
  - exact I.
  - inversion Hf; subst. eexists. split; [eassumption|]. eapply IH; eassumption.
Qed.

Lemma all_pass_failures_nil (ts : list string) (idx : nat) (g : Namespace)
    (fs : list failure) :
  all_pass ts g -> failures ts idx g fs -> fs = [].
Proof.
  revert idx g. induction ts as [|t ts IH]; intros idx g Hp Hf.
  - now inversion Hf.
  - cbn [all_pass] in Hp. destruct Hp as [g' [Et Hp]].
    inversion Hf; subst.
    + rewrite Et in *. match goal with E : Returned _ = Returned _ |- _ =>
        injection E as <- end. eapply IH; eassumption.
    + congruence.
Qed.

Lemma format_exc_nonempty (tb : string) : format_exc tb <> "".
Proof. discriminate. Qed.

Lemma failure_report_nonempty (f : failure) (fs : list failure) :
  join nl (map failure_text (f :: fs)) <> "".
Proof.
  destruct f as [[i t] err]. cbn [map join failure_text].
  destruct (map failure_text fs); discriminate.
Qed.

(** What [DSLExecutor.run] returns, when it returns. *)
Lemma run_spec (ts : list string) (lines : list string) (fb : string) :
  run ts (join nl lines) = Ok fb ->
  (fb = "" <-> passes ts lines) /\
  (fb <> "" -> is_traceback lines fb \/ is_failure_report ts lines fb).
Proof.
  unfold run.
  destruct (exec (join nl lines) fresh) as [g|g e tb|] eqn:Ecode;
    [| |discriminate].
  - destruct (run_tests ts 1 g []) as [failed|x] eqn:Ert; cbn [bind];
      [|discriminate].
    destruct (run_tests_failures _ _ _ _ _ Ert) as [fs [-> Hfs]].
    cbn [app]. destruct fs as [|f fs].
    + intros E. injection E as <-. split.
      * split; [|reflexivity]. intros _. exists g. split; [assumption|].
        eapply failures_nil_all_pass; eassumption.
      * congruence.
    + intros E. injection E as <-. split.
      * split.
        -- intros E. now apply failure_report_nonempty in E.
        -- intros [g0 [Eg Hp]]. rewrite Ecode in Eg. injection Eg as <-.
           pose proof (all_pass_failures_nil _ _ _ _ Hp Hfs). discriminate.
      * intros _. right. exists g, f, fs. auto.
  - intros E. injection E as <-. split.
    + split.
      * intros E. now apply format_exc_nonempty in E.
      * intros [g0 [Eg _]]. congruence.
    + intros _. left. exists g, e, tb. auto.
Qed.

Lemma update_feedback_ok (e0 e : CoEEnv) :
  update_feedback e0 = Ok e ->
  code_lines (state e) = code_lines (state e0) /\
  tests e = tests e0 /\
  run (tests e) (join nl (code_lines (state e))) = Ok (feedback (state e)).
Proof.
  unfold update_feedback.
  destruct (run (tests e0) (join nl (code_lines (state e0)))) as [fb|x] eqn:Er;
    cbn [bind]; [|discriminate].
  intros E. injection E as <-. cbn. auto.
Qed.

(** C1: in the environment that construction returns, and in the one left
    by any [apply] call that returns, the feedback is empty exactly when
    the newline-joined code lines execute without raising and every test
    then executes without raising against the populated namespace;
    otherwise it is non-empty diagnostic text: the traceback of the
    program's exception, or the report of all the failing tests. *)
Theorem C1_feedback_empty_iff_passes (e : CoEEnv) :
  (exists lines ts, init lines ts = Ok e) \/
  (exists e0 action st, apply e0 action = Ok (e, st)) ->
  let lines := code_lines (state e) in
  let fb := feedback (state e) in
  (fb = "" <-> passes (tests e) lines) /\
  (fb <> "" -> is_traceback lines fb \/ is_failure_report (tests e) lines fb).
Proof.
  intros Hfrom lines fb.
  assert (Hrun : run (tests e) (join nl lines) = Ok fb).
  { destruct Hfrom as [[ls [ts Hi]] | [e0 [action [st Ha]]]].
    - unfold init in Hi. now apply update_feedback_ok in Hi.
    - unfold apply in Ha.
      destruct (edit (code_lines (state e0)) action) as [ls|x]; cbn [bind] in Ha;
        [|discriminate].
      unfold recompute in Ha.
      destruct (update_feedback _) as [e1|x] eqn:Eu; cbn [bind] in Ha;
        [|discriminate].
      injection Ha as -> _. now apply update_feedback_ok in Eu. }
  now apply run_spec.
Qed.

End FeedbackFacts.

Section FeedbackScenarios.
#[local] Existing Instance scenario.toy.

(** C1, witness: construction on a passing program. *)
Lemma C1_feedback_empty_iff_passes_witness :
  env.init ["pass"] [] = Ok (scenario.env_of ["pass"] "" []) /\
  ("" = "" <-> env.passes [] ["pass"]).
Proof.
  split; [reflexivity|].
  exact (proj1 (@C1_feedback_empty_iff_passes scenario.toy
                  (scenario.env_of ["pass"] "" [])
                  (or_introl (ex_intro _ ["pass"] (ex_intro _ [] eq_refl))))).
Defined.

(** C8, witness: DELL 2 on three lines. *)
Lemma C8_delete_line_witness :
  env.edit ["a"; "b"; "c"] "DELL 2" = Ok ["a"; "c"].
Proof.
  exact (proj1 (proj1 (C8_delete_line (scenario.env_of ["a"; "b"; "c"] "" [])
                         "DELL 2" "2" [] 2 eq_refl eq_refl eq_refl)
                      ltac:(simpl; lia))).
Defined.

(** C7, witness: ADDL 9 on two lines is clamped to an append. *)
Lemma C7_insert_line_witness :
  env.edit ["a"; "b"] "ADDL 9 >>>  c" = Ok ["a"; "b"; "  c"].
Proof.
  exact (proj1 (proj2 (proj2
           (C7_insert_line (scenario.env_of ["a"; "b"] "" [])
              "ADDL 9 >>>  c" "9" [">>>"; "c"] 9 eq_refl eq_refl eq_refl)))).
Defined.

(** C9, witness: REPL 2 on two lines. *)
Lemma C9_replace_line_witness :
  exists lines',
    env.edit ["a"; "b"] "REPL 2 >>>c" = Ok lines' /\
    nth_error lines' 1 = Some "c".
Proof.
  destruct (C9_replace_line (scenario.env_of ["a"; "b"] "" [])
              "REPL 2 >>>c" "2" [">>>c"] 2 eq_refl eq_refl eq_refl)
    as [lines' [Hedit [_ [_ [Hin _]]]]].
  exists lines'. split; [exact Hedit|].
  exact (proj1 (Hin ltac:(simpl; lia))).
Defined.

End FeedbackScenarios.

(** ** Words and blanks *)

Section WordFacts.

Lemma split_from_words (s cur : string) :
  forallb_str nonblank cur = true -> Forall word (split_from cur s).
Proof.
  revert cur. induction s as [|c s IH]; intros cur Hcur; cbn [split_from].
  - destruct cur as [|a cur]; cbn [is_empty]; constructor; [|constructor].
    split; [discriminate | assumption].
  - destruct (isspace c) eqn:Hc.
    + destruct cur as [|a cur]; cbn [is_empty].
      * now apply IH.
      * constructor; [split; [discriminate | assumption] | now apply IH].
    + apply IH. rewrite forallb_str_app, Hcur. cbn [forallb_str].
      unfold nonblank. now rewrite Hc.
Qed.

Lemma split_words (s : string) : Forall word (split s).
Proof. now apply split_from_words. Qed.

Lemma split_word (w : string) : word w -> split w = [w].
Proof.
  intros [Hne Hw]. unfold split.
  rewrite <- (append_empty_r w) at 1.
  rewrite split_from_word by assumption. cbn [append split_from].
  destruct w; [congruence | reflexivity].
Qed.

Lemma isspace_space : isspace " " = true.
Proof. reflexivity. Qed.

Lemma join_cons2 (sep x y : string) (rest : list string) :
  join sep (x :: y :: rest) = x ++ sep ++ join sep (y :: rest).
Proof. reflexivity. Qed.

(** Splitting the single-space join of words gives the words back. *)
Lemma split_join_words (ws : list string) :
  Forall word ws -> split (join " " ws) = ws.
Proof.
  induction ws as [|w ws IH]; intros Hws; [reflexivity|].
  inversion Hws as [|? ? Hw Hrest]; subst.
  destruct ws as [|w' ws].
  - now apply split_word.
  - rewrite join_cons2. cbn [append].
    destruct Hw as [Hne Hw].
    rewrite split_word_blank by auto using isspace_space.
    now rewrite IH.
Qed.

Lemma lstrip_word_app (w t : string) : word w -> lstrip (w ++ t) = w ++ t.
Proof.
  intros [Hne Hw]. destruct w as [|c w]; [congruence|].
  cbn [forallb_str] in Hw. apply andb_true_iff in Hw as [Hc _].
  unfold nonblank in Hc. apply negb_true_iff in Hc.
  cbn [append]. now apply lstrip_nonblank.
Qed.

Lemma rstrip_word (w : string) : forallb_str nonblank w = true -> rstrip w = w.
Proof.
  induction w as [|c w IH]; intros Hw; [reflexivity|].
  cbn [forallb_str] in Hw. apply andb_true_iff in Hw as [Hc Hw].
  unfold nonblank in Hc. apply negb_true_iff in Hc.
  cbn [rstrip]. rewrite Hc. cbn [andb]. now rewrite IH.
Qed.

Lemma rstrip_app_fixed (s t : string) :
  rstrip t = t -> t <> "" -> rstrip (s ++ t) = s ++ t.
Proof.
  intros Ht Hne. induction s as [|a s IH]; [assumption|].
  cbn [append rstrip]. rewrite IH.
  destruct (s ++ t) eqn:E.
  - destruct s; [cbn in E; congruence | discriminate].
  - cbn [is_empty]. now rewrite andb_false_r.
Qed.

Lemma join_words_nonempty (w : string) (ws : list string) :
  word w -> join " " (w :: ws) <> "".
Proof.
  intros [Hne _]. destruct w; [congruence|].
  destruct ws; discriminate.
Qed.

Lemma rstrip_join_words (ws : list string) :
  Forall word ws -> rstrip (join " " ws) = join " " ws.
Proof.
  induction ws as [|w ws IH]; intros Hws; [reflexivity|].
  inversion Hws as [|? ? Hw Hrest]; subst.
  destruct ws as [|w' ws].
  - apply rstrip_word, Hw.
  - rewrite join_cons2, <- append_assoc.
    apply rstrip_app_fixed; [now apply IH|].
    inversion Hrest; subst. now apply join_words_nonempty.
Qed.

Lemma strip_join_words (ws : list string) :
  Forall word ws -> strip (join " " ws) = join " " ws.
Proof.
  intros Hws. unfold strip.
  destruct ws as [|w ws]; [reflexivity|].
  assert (Hl : lstrip (join " " (w :: ws)) = join " " (w :: ws)).
  { inversion Hws; subst. destruct ws.
    - cbn [join]. rewrite <- (append_empty_r w) at 1 2.
      now apply lstrip_word_app.
    - rewrite join_cons2. now apply lstrip_word_app. }
  rewrite Hl. now apply rstrip_join_words.
Qed.

(** In a single-space join of words every blank is one space. *)
Lemma join_words_blanks (ws : list string) :
  Forall word ws -> forallb_str space_or_nonblank (join " " ws) = true.
Proof.
  induction ws as [|w ws IH]; intros Hws; [reflexivity|].
  inversion Hws as [|? ? Hw Hrest]; subst.
  assert (Hw' : forallb_str space_or_nonblank w = true).
  { apply (forallb_str_impl nonblank); [|apply Hw].
    intros c Hc. unfold space_or_nonblank. now rewrite Hc. }
  destruct ws as [|w' ws]; [assumption|].
  rewrite join_cons2, !forallb_str_app, Hw', IH by assumption. reflexivity.
Qed.

Lemma forallb_str_take (p : ascii -> bool) (n : nat) (s : string) :
  forallb_str p s = true -> forallb_str p (take n s) = true.
Proof.
  revert n. induction s as [|c s IH]; intros [|n] Hs; try reflexivity.
  cbn [forallb_str take] in *. apply andb_true_iff in Hs as [Hc Hs].
  rewrite Hc. now apply IH.
Qed.

Lemma forallb_str_drop (p : ascii -> bool) (n : nat) (s : string) :
  forallb_str p s = true -> forallb_str p (drop n s) = true.
Proof.
  revert n. induction s as [|c s IH]; intros [|n] Hs; try reflexivity;
    try assumption.
  cbn [forallb_str drop] in *. apply andb_true_iff in Hs as [Hc Hs].
  now apply IH.
Qed.

Lemma letter_nonblank (i : nat) :
  i < 26 ->
  nonblank (nth i (list_ascii_of_string corruptor.letters) zero) = true.
Proof.
  intros Hi.
  do 26 (destruct i as [|i]; [reflexivity|]). lia.
Qed.

Lemma Forall_set_item {A : Type} (P : A -> Prop) (l : list A) (i : nat) (x : A) :
  Forall P l -> P x -> Forall P (pylist.set_item l i x).
Proof.
  intros Hl Hx. revert i. induction Hl as [|y l Hy Hl IH]; intros [|i];
    cbn [pylist.set_item]; constructor; auto.
Qed.

Lemma Forall_nth_default {A : Type} (P : A -> Prop) (l : list A) (i : nat) (d : A) :
  Forall P l -> i < List.length l -> P (nth i l d).
Proof.
  intros Hl. revert i. induction Hl as [|y l Hy Hl IH]; intros [|i] Hi;
    cbn in *; try lia; auto. apply IH. lia.
Qed.

End WordFacts.

(** ** The corruption generator (src/corruptor.py) *)

Section CorruptorFacts.
Import corruptor.

Lemma randrange_ok (n : nat) (r : rng) :
  n <> 0 -> randrange n r = Ok (draws r (cursor r) mod n, advance r).
Proof.
  intros Hn. unfold randrange.
  apply Nat.eqb_neq in Hn. now rewrite Hn.
Qed.

Lemma choice_letter (r : rng) :
  exists c, choice (list_ascii_of_string letters) zero r = Ok (c, advance r)
            /\ nonblank c = true.
Proof.
  unfold choice. cbn [letters list_ascii_of_string List.length].
  rewrite randrange_ok by discriminate. cbn [bind].
  eexists. split; [reflexivity|].
  apply letter_nonblank. apply Nat.mod_upper_bound. discriminate.
Qed.

(** The word the typo produces is still a word. *)
Lemma typo_in_word (w : string) (r : rng) :
  forallb_str nonblank w = true ->
  exists w2 r',
    (if (1 <? String.length w)%nat then
       '(pos, r) <- randrange (String.length w) r ;;
       '(c, r) <- choice (list_ascii_of_string letters) zero r ;;
       Ok (take pos w ++ String c "" ++ drop (pos + 1) w, r)
     else
       '(c, r) <- choice (list_ascii_of_string letters) zero r ;;
       Ok (w ++ String c "", r)) = Ok (w2, r')
    /\ word w2.
Proof.
  intros Hw. destruct (1 <? String.length w)%nat eqn:Hlen.
  - apply Nat.ltb_lt in Hlen. rewrite randrange_ok by lia. cbn [bind].
    destruct (choice_letter (advance r)) as [c [Ec Hc]].
    rewrite Ec. cbn [bind].
    eexists. eexists. split; [reflexivity|]. split.
    + destruct (take _ w); discriminate.
    + rewrite !forallb_str_app. cbn [forallb_str].
      rewrite forallb_str_take, forallb_str_drop, Hc by assumption.
      reflexivity.
  - destruct (choice_letter r) as [c [Ec Hc]]. rewrite Ec. cbn [bind].
    eexists. eexists. split; [reflexivity|]. split.
    + destruct w; discriminate.
    + rewrite forallb_str_app, Hw. cbn [forallb_str]. now rewrite Hc.
Qed.

(** C10: when the line the typo corruption picks has at least one word,
    [typo_word] replaces it by the single-space join of its words, one of
    them altered: the new line has the same number of words, they are the
    old ones except the altered one, every run of blanks of the old line
    (leading indentation included) has become one separating space and
    there is no leading or trailing blank; every other line is returned
    unchanged. *)
Theorem C10_typo_rejoins_words (lines : list string) (r : rng) :
  lines <> [] ->
  let idx := draws r (cursor r) mod List.length lines in
  let words := split (nth idx lines "") in
  words <> [] ->
  exists (w2 : string) (r' : rng),
    let wi := draws r (S (cursor r)) mod List.length words in
    let words' := pylist.set_item words wi w2 in
    let new_line := join " " words' in
    let new := pylist.set_item lines idx new_line in
    typo_word lines r = Ok (new, r') /\
    word w2 /\
    List.length words' = List.length words /\
    (forall j, j <> wi -> nth_error words' j = nth_error words j) /\
    split new_line = words' /\
    strip new_line = new_line /\
    forallb_str space_or_nonblank new_line = true /\
    List.length new = List.length lines /\
    nth_error new idx = Some new_line /\
    (forall k, k <> idx -> nth_error new k = nth_error lines k).
Proof.
  intros Hlines idx words Hwords.
  assert (Hidx : idx < List.length lines).
  { apply Nat.mod_upper_bound. now destruct lines. }
  set (wi := draws r (S (cursor r)) mod List.length words).
  assert (Hwi : wi < List.length words).
  { apply Nat.mod_upper_bound. now destruct words. }
  pose proof (split_words (nth idx lines "")) as Hall. fold words in Hall.
  assert (Hw : forallb_str nonblank (nth wi words "") = true).
  { now apply (Forall_nth_default word words wi "" Hall Hwi). }
  destruct (typo_in_word (nth wi words "") (advance (advance r)) Hw)
    as [w2 [r' [Etypo Hw2]]].
  exists w2, r'. cbv zeta.
  assert (Hall' : Forall word (pylist.set_item words wi w2))
    by now apply Forall_set_item.
  split.
  { unfold typo_word.
    destruct lines as [|l0 ls]; [congruence|].
    rewrite randrange_ok by discriminate. cbn [bind]. fold idx. fold words.
    destruct words as [|w0 ws] eqn:Ewords; [congruence|].
    rewrite randrange_ok by discriminate. cbn [bind].
    change (draws (advance r) (cursor (advance r)) mod List.length (w0 :: ws))
      with wi.
    rewrite Etypo. reflexivity. }
  split; [assumption|].
  split; [apply set_item_length|].
  split; [intros j Hj; now apply set_item_other|].
  split; [now apply split_join_words|].
  split; [now apply strip_join_words|].
  split; [now apply join_words_blanks|].
  split; [apply set_item_length|].
  split; [now apply set_item_at|].
  intros k Hk. now apply set_item_other.
Qed.

End CorruptorFacts.

(** C10, witness: the indented line of a two-line function, every draw
    being 1: the second line and its second word are picked. *)
Lemma C10_typo_rejoins_words_witness :
  exists w2 r',
    corruptor.typo_word ["def f():"; "    return  1"]
      {| corruptor.draws := fun _ => 1; corruptor.cursor := 0 |}
    = Ok (["def f():"; join " " ["return"; w2]], r') /\ word w2.
Proof.
  destruct (C10_typo_rejoins_words ["def f():"; "    return  1"]
              {| corruptor.draws := fun _ => 1; corruptor.cursor := 0 |}
              ltac:(discriminate) ltac:(discriminate))
    as [w2 [r' [Htypo [Hw2 _]]]].
  exists w2, r'. split; [exact Htypo | exact Hw2].
Defined.

(** ** The trace synthesizer (src/demo_generator.py) *)

Section SynthesisFacts.
Import env corruptor demo_generator.

(** After one line is deleted, the first mismatch with the clean lines is
    found at or after the deleted position, inside a run of lines equal to
    the deleted one; inserting there gives the clean list again, up to the
    inserted text. *)
Lemma first_mismatch_after_delete (clean : list string) (idx k : nat) :
  idx < List.length clean ->
  exists i,
    idx <= i < List.length clean /\
    first_mismatch k clean (pylist.pop clean idx)
    = Some (k + i, nth idx clean "") /\
    nth i clean "" = nth idx clean "" /\
    forall x, pylist.insert (pylist.pop clean idx) i x
              = pylist.set_item clean i x.
Proof.
  revert idx k. induction clean as [|c cs IH]; intros idx k Hidx;
    [cbn in Hidx; lia|].
  destruct idx as [|j].
  - change (pylist.pop (c :: cs) 0) with cs. cbn [nth first_mismatch].
    destruct cs as [|x cs'].
    + exists 0. repeat split; cbn; try lia. now rewrite Nat.add_0_r.
    + destruct (x =? c) eqn:Ex.
      * apply String.eqb_eq in Ex. subst x.
        destruct (IH 0 (S k)) as [i [Hi [Hfm [Hnth Hins]]]]; [cbn; lia|].
        exists (S i). split; [cbn in *; lia|].
        split.
        { change (pylist.pop (c :: cs') 0) with cs' in Hfm.
          rewrite Hfm. cbn [nth]. do 2 f_equal. lia. }
        split; [exact Hnth|].
        intros y. specialize (Hins y).
        change (pylist.pop (c :: cs') 0) with cs' in Hins.
        change (pylist.insert (c :: cs') (S i) y)
          with (c :: pylist.insert cs' i y).
        rewrite Hins. reflexivity.
      * exists 0. repeat split; cbn; try lia. now rewrite Nat.add_0_r.
  - change (pylist.pop (c :: cs) (S j)) with (c :: pylist.pop cs j).
    cbn [first_mismatch nth]. rewrite String.eqb_refl.
    destruct (IH j (S k)) as [i [Hi [Hfm [Hnth Hins]]]]; [cbn in Hidx; lia|].
    exists (S i). split; [cbn; lia|].
    split; [rewrite Hfm; do 2 f_equal; lia|].
    split; [exact Hnth|].
    intros y.
    change (pylist.insert (c :: pylist.pop cs j) (S i) y)
      with (c :: pylist.insert (pylist.pop cs j) i y).
    now rewrite Hins.
Qed.

(** How the engine reads the action text the synthesizer writes for an
    insertion: the verb, the line number, and the line with its trailing
    blanks stripped. *)
Lemma strip_addl (n : nat) (ln : string) :
  strip ("ADDL " ++ str n ++ " >>>" ++ ln)
  = "ADDL " ++ str n ++ " >>>" ++ rstrip ln.
Proof.
  unfold strip.
  change ("ADDL " ++ str n ++ " >>>" ++ ln)
    with (String "A" ("DDL " ++ str n ++ " >>>" ++ ln)).
  rewrite lstrip_nonblank by reflexivity.
  assert (E : String "A" ("DDL " ++ str n ++ " >>>" ++ ln)
              = ("ADDL " ++ str n ++ " >>") ++ String ">" ln).
  { cbn [append]. now rewrite append_assoc. }
  rewrite E, rstrip_app_nonblank by reflexivity.
  cbn [append]. now rewrite append_assoc.
Qed.

Lemma split_addl (n : nat) (rest : string) :
  split ("ADDL " ++ str n ++ " >>>" ++ rest)
  = "ADDL" :: str n :: split (">>>" ++ rest).
Proof.
  change ("ADDL " ++ str n ++ " >>>" ++ rest)
    with ("ADDL" ++ String " " (str n ++ String " " (">>>" ++ rest))).
  rewrite split_word_blank; [|reflexivity | discriminate | reflexivity].
  rewrite split_word_blank;
    [reflexivity | apply decimal_nonblank, str_decimal
     | apply str_neq_empty | reflexivity].
Qed.

Lemma content_of_addl (n : nat) (rest : string) :
  content_of ("ADDL " ++ str n ++ " >>>" ++ rest) = rest.
Proof.
  unfold content_of, contains, after_first.
  replace ("ADDL " ++ str n ++ " >>>" ++ rest)
    with (("ADDL " ++ str n ++ " ") ++ ">>>" ++ rest).
  - rewrite partition_delim; [reflexivity|].
    rewrite !forallb_str_app.
    rewrite (decimal_not_gt (str n) (str_decimal n)). reflexivity.
  - cbn [append]. now rewrite !append_assoc.
Qed.

(** The engine inserts the stripped line at the position the action
    names. *)
Lemma edit_addl (lines : list string) (i : nat) (ln : string) :
  i <= List.length lines ->
  edit lines ("ADDL " ++ str (i + 1) ++ " >>>" ++ ln)
  = Ok (pylist.insert lines i (rstrip ln)).
Proof.
  intros Hi. unfold edit. rewrite strip_addl, split_addl.
  cbn [String.eqb Ascii.eqb Bool.eqb]. unfold addl.
  rewrite isdigit_str, int_str. cbn [bind].
  rewrite content_of_addl. do 2 f_equal. lia.
Qed.

End SynthesisFacts.

Section SynthesisTheorem.
Context `{env.Interpreter}.
Import env corruptor demo_generator.

Lemma corrupt_single_delete (clean donor : list string) (r : rng) :
  clean <> [] ->
  draws r (cursor r) mod 4 = 0 ->
  corrupt 1 clean [] donor r
  = Ok (pylist.pop clean (draws r (S (cursor r)) mod List.length clean),
        ["delete"], advance (advance r)).
Proof.
  intros Hne Hdel. cbn [corrupt]. unfold choice.
  cbn [CORRUPTION_TYPES List.length].
  rewrite randrange_ok by discriminate. cbn [bind]. rewrite Hdel.
  cbn [nth String.eqb Ascii.eqb Bool.eqb]. unfold delete_line.
  destruct clean as [|c cs]; [congruence|].
  rewrite randrange_ok by discriminate. cbn [bind app].
  unfold pylist.pop. now rewrite Nat.add_1_r.
Qed.

Lemma init_lines (lines ts : list string) (e : CoEEnv) :
  init lines ts = Ok e -> code_lines (state e) = lines.
Proof. intros Hi. unfold init in Hi. now apply update_feedback_ok in Hi. Qed.

(** C6 (as amended): for a non-empty clean line list and an episode whose
    corruption history is a single delete, the synthesizer produces exactly
    one inverse action, an ADDL at the first position where the corrupted
    buffer departs from the clean one; the recorded trace is the corrupted
    state's rendering, that action, the rendering after it, and the literal
    EXIT; the engine strips the action text, so the line it inserts is the
    deleted line without its trailing blanks, and the buffer is the clean
    buffer again exactly when the deleted line has no trailing blank. *)
Theorem C6_single_delete_trace (clean tests donor : list string) (r : rng) :
  clean <> [] ->
  draws r (cursor r) mod 4 = 0 ->
  let idx := draws r (S (cursor r)) mod List.length clean in
  let deleted := nth idx clean "" in
  let code := (firstn idx clean ++ skipn (S idx) clean)%list in
  exists i,
    let action := "ADDL " ++ str (i + 1) ++ " >>>" ++ deleted in
    let restored := pylist.set_item clean i (rstrip deleted) in
    idx <= i < List.length clean /\
    nth i clean "" = deleted /\
    invert_action_for_op "delete" clean code = Ok action /\
    edit code action = Ok restored /\
    (rstrip deleted = deleted <-> restored = clean) /\
    generate_demo_for_example clean tests donor 1 r
    = (e0 <- init code tests ;;
       '(e1, st) <- recompute e0 restored ;;
       Ok ([render (state e0); action; render st; "EXIT"], code, e1,
           advance (advance r))).
Proof.
  intros Hne Hdel idx deleted code.
  assert (Hidx : idx < List.length clean).
  { apply Nat.mod_upper_bound. now destruct clean. }
  destruct (first_mismatch_after_delete clean idx 0 Hidx)
    as [i [Hi [Hfm [Hnth Hins]]]].
  change (pylist.pop clean idx) with code in Hfm, Hins.
  exists i. cbv zeta. fold deleted in Hfm, Hnth.
  assert (Hinv : invert_action_for_op "delete" clean code
                 = Ok ("ADDL " ++ str (i + 1) ++ " >>>" ++ deleted)).
  { unfold invert_action_for_op. cbn [String.eqb Ascii.eqb Bool.eqb].
    now rewrite Hfm. }
  assert (Hlen : List.length code = List.length clean - 1)
    by now apply pop_length.
  assert (Hedit : edit code ("ADDL " ++ str (i + 1) ++ " >>>" ++ deleted)
                  = Ok (pylist.set_item clean i (rstrip deleted))).
  { rewrite edit_addl by lia. now rewrite Hins. }
  split; [assumption|]. split; [assumption|].
  split; [assumption|]. split; [assumption|].
  assert (Hat : nth_error clean i = Some deleted).
  { rewrite <- Hnth. apply nth_error_nth'. lia. }
  split.
  { split.
    - intros E. rewrite E. now apply set_item_same.
    - intros E.
      assert (Hs : nth_error (pylist.set_item clean i (rstrip deleted)) i
                   = Some (rstrip deleted)) by (apply set_item_at; lia).
      rewrite E, Hat in Hs. congruence. }
  unfold generate_demo_for_example.
  rewrite corrupt_single_delete by assumption. cbn [bind]. fold idx.
  change (pylist.pop clean idx) with code.
  destruct (init code tests) as [e0|x] eqn:Ei; cbn [bind]; [|reflexivity].
  cbn [rev app invert_all]. rewrite (init_lines _ _ _ Ei), Hinv. cbn [bind].
  assert (Ha : apply e0 ("ADDL " ++ str (i + 1) ++ " >>>" ++ deleted)
               = recompute e0 (pylist.set_item clean i (rstrip deleted))).
  { apply apply_edit. now rewrite (init_lines _ _ _ Ei). }
  rewrite Ha.
  destruct (recompute e0 _) as [[e1 st]|x]; cbn [bind]; reflexivity.
Qed.

End SynthesisTheorem.

Section SynthesisScenarios.
#[local] Existing Instance scenario.toy.
Import env corruptor demo_generator.

(** C6, witness: the second of two lines is deleted and put back. *)
Lemma C6_single_delete_trace_witness :
  exists i,
    edit ["pass"] ("ADDL " ++ str (i + 1) ++ " >>>" ++ "x = 1")
    = Ok (pylist.set_item ["pass"; "x = 1"] i "x = 1").
Proof.
  destruct (C6_single_delete_trace ["pass"; "x = 1"] [] []
              {| draws := fun n => n; cursor := 0 |}
              ltac:(discriminate) eq_refl)
    as [i [_ [_ [_ [Hedit _]]]]].
  exists i. exact Hedit.
Defined.

(** C6, counterexample: the only line ends with a blank; the synthesizer's
    single inverse action puts the line back without it, so the buffer
    after the trace is not the clean buffer. *)
Lemma C6_trailing_blank_not_restored :
  exists trace e r',
    generate_demo_for_example ["x = 1 "] [] []  1
      {| draws := fun _ => 0; cursor := 0 |}
    = Ok (trace, [], e, r') /\
    trace = [render {| code_lines := []; feedback := "" |};
             "ADDL 1 >>>x = 1 ";
             render {| code_lines := ["x = 1"]; feedback := "" |};
             "EXIT"] /\
    code_lines (state e) = ["x = 1"] /\
    code_lines (state e) <> ["x = 1 "].
Proof.
  do 3 eexists. split; [vm_compute; reflexivity|].
  split; [reflexivity|]. split; [reflexivity|]. discriminate.
Qed.

End SynthesisScenarios.

(** ** The rollout driver (src/rl_train.py) *)

Section RolloutFacts.
Context `{env.Interpreter} `{rl_train.Policy}.
Import env rl_train.
Local Open Scope nat_scope.

Lemma last_step_snoc (pre : list step) (s : step) :
  last_step (pre ++ [s]) = Some s.
Proof. unfold last_step. now rewrite rev_app_distr. Qed.

Lemma last_step_cons (s : step) (body : list step) (s' : step) :
  last_step body = Some s' -> last_step (s :: body) = Some s'.
Proof.
  unfold last_step. cbn [rev].
  destruct (rev body) as [|x xs]; [discriminate|].
  intros E. injection E as <-. reflexivity.
Qed.

Lemma penalise_last_snoc (traj traj' : list step) :
  penalise_last traj = Ok traj' ->
  exists pre s, traj = (pre ++ [s])%list /\ traj' = (pre ++ [penalised s])%list.
Proof.
  revert traj'. induction traj as [|s traj IH]; intros traj' Hp.
  - cbn in Hp. discriminate.
  - destruct traj as [|s2 traj].
    + cbn in Hp. injection Hp as <-. now exists [], s.
    + change (penalise_last (s :: s2 :: traj))
        with (rest' <- penalise_last (s2 :: traj) ;; Ok (s :: rest')) in Hp.
      destruct (penalise_last (s2 :: traj)) as [rest'|x] eqn:Erest;
        cbn [bind] in Hp; [|discriminate].
      injection Hp as <-.
      destruct (IH rest' eq_refl) as [pre [s' [E1 E2]]].
      exists (s :: pre), s'. rewrite E1, E2. auto.
Qed.

(** The reward the loop computes is the one the specification words. *)
Lemma loop_reward (before after act : string) :
  (let reward := 0 in
   let reward :=
     if (after =? "")%string && negb (before =? "")%string
     then 1 else reward in
   if negb (starts_with_command act) then reward - 0.5 else reward)%R
  = expected_reward before after act.
Proof.
  unfold expected_reward. cbv zeta.
  destruct ((after =? "")%string && negb (before =? "")%string);
    destruct (starts_with_command act); cbn [negb]; lra.
Qed.

Lemma rollout_loop_spec (turns t : nat) (e e' : CoEEnv) (traj traj' : list step) :
  rollout_loop turns t e traj = Ok (e', traj') ->
  exists body,
    traj' = (traj ++ body)%list /\ recorded e t body e' /\ loop_post turns body.
Proof.
  revert t e traj. induction turns as [|turns IH]; intros t e traj Hloop.
  - injection Hloop as <- <-. exists []. rewrite app_nil_r.
    split; [reflexivity|]. split; [constructor|].
    repeat split; cbn; try lia. constructor.
  - cbn [rollout_loop] in Hloop. cbv zeta in Hloop.
    set (p := (render (state e) ++ nl ++ "### ")%string) in *.
    set (a := first_line_or_exit (sample_action t p)) in *.
    destruct (apply e a) as [[e1 st]|x] eqn:Eapply; cbn [bind] in Hloop;
      [|discriminate].
    set (s := {| prompt := p; action := a; logp := compute_logprob p a;
                 reward := _ |}) in Hloop.
    assert (Hrec : forall rest e2, recorded e1 (S t) rest e2 ->
                                   recorded e t (s :: rest) e2).
    { intros rest e2 Hrest. apply recorded_turn with e1 st; try reflexivity;
        try assumption.
      cbn [reward s]. apply (loop_reward (feedback (state e)) (feedback st) a). }
    destruct (startswith a "EXIT") eqn:Eexit.
    + injection Hloop as <- <-. exists [s].
      split; [reflexivity|]. split; [apply Hrec; constructor|].
      repeat split; cbn; try lia; try constructor; try discriminate.
      intros _. exists s. split; [reflexivity | exact Eexit].
    + destruct (IH _ _ _ Hloop) as [body [-> [Hbody [Hlen [Hpre [Hlast Hne]]]]]].
      exists (s :: body). rewrite <- app_assoc.
      split; [reflexivity|]. split; [now apply Hrec|].
      repeat split.
      * cbn. lia.
      * destruct body as [|s2 body]; [constructor|].
        change (removelast (s :: s2 :: body))
          with (s :: removelast (s2 :: body)).
        constructor; [exact Eexit | assumption].
      * intros Hlt. destruct Hlast as [s' [Hs' Hex]]; [cbn in Hlt; lia|].
        exists s'. split; [now apply last_step_cons | assumption].
      * discriminate.
Qed.

(** What [rollout_one] returns, when it returns: the recorded turns, with
    0.5 taken off the last reward when the final feedback is empty and the
    last action does not start with EXIT. *)
Lemma rollout_one_spec (lines ts : list string) (max_turns : nat)
    (traj : list step) :
  rollout_one lines ts max_turns = Ok traj ->
  exists e0 e' body,
    init lines ts = Ok e0 /\
    recorded e0 0 body e' /\
    loop_post max_turns body /\
    ((feedback (state e') = "" /\
      exists pre s, body = (pre ++ [s])%list /\ is_exit s = false /\
                    traj = (pre ++ [penalised s])%list)
     \/
     (traj = body /\
      (feedback (state e') <> "" \/
       exists s, last_step body = Some s /\ is_exit s = true))).
Proof.
  unfold rollout_one. intros Hroll.
  destruct (init lines ts) as [e0|x] eqn:Einit; cbn [bind] in Hroll;
    [|discriminate].
  destruct (rollout_loop max_turns 0 e0 []) as [[e' body]|x] eqn:Eloop;
    cbn [bind] in Hroll; [|discriminate].
  destruct (rollout_loop_spec _ _ _ _ _ _ Eloop) as [body' [E [Hrec Hpost]]].
  cbn [app] in E. subst body'.
  exists e0, e', body. split; [reflexivity|]. split; [assumption|].
  split; [assumption|].
  destruct (feedback (state e') =? "")%string eqn:Efb.
  - apply String.eqb_eq in Efb.
    destruct (last_step body) as [s|] eqn:Elast.
    + destruct (startswith (action s) "EXIT") eqn:Eexit; cbn [negb] in Hroll.
      * injection Hroll as <-. right. split; [reflexivity|].
        right. now exists s.
      * left. split; [assumption|].
        destruct (penalise_last_snoc _ _ Hroll) as [pre [s' [E1 E2]]].
        exists pre, s'. split; [assumption|]. split; [|assumption].
        rewrite E1, last_step_snoc in Elast. injection Elast as ->.
        exact Eexit.
    + destruct body; [discriminate Hroll|].
      unfold last_step in Elast. cbn [rev] in Elast.
      destruct (rev body); discriminate.
  - injection Hroll as <-. right. split; [reflexivity|]. left.
    now apply String.eqb_neq.
Qed.

End RolloutFacts.

Section RolloutTheorems.
Context `{env.Interpreter} `{rl_train.Policy}.
Import env rl_train.
Local Open Scope nat_scope.

(** C3 (as amended): a trajectory of the rollout driver has at most
    [max_turns] steps; no step is recorded after a step whose action starts
    with EXIT; and a trajectory shorter than the turn budget ends with such
    a step.  (Empty feedback does not stop the loop.) *)
Theorem C3_stops_on_exit_or_budget (lines ts : list string) (max_turns : nat)
    (traj : list step) :
  rollout_one lines ts max_turns = Ok traj ->
  List.length traj <= max_turns /\
  Forall (fun s => is_exit s = false) (removelast traj) /\
  (List.length traj < max_turns ->
   exists s, last_step traj = Some s /\ is_exit s = true).
Proof.
  intros Hroll.
  destruct (rollout_one_spec _ _ _ _ Hroll)
    as [e0 [e' [body [_ [_ [[Hlen [Hpre [Hlast _]]] Hcase]]]]]].
  destruct Hcase as [[_ [pre [s [-> [Hs ->]]]]] | [-> _]].
  - rewrite removelast_last in Hpre. rewrite length_app in *.
    split; [exact Hlen|]. split; [now rewrite removelast_last|].
    intros Hlt. destruct (Hlast Hlt) as [s' [Hs' Hex]].
    rewrite last_step_snoc in Hs'. injection Hs' as <-. congruence.
  - auto.
Qed.

(** C5 (as amended): the steps of a trajectory are the turns played one
    after the other from the constructed environment; the reward of a turn
    is 1 when the feedback goes from non-empty to empty on that turn and 0
    otherwise, less 0.5 when the action text does not start with one of
    DELL, ADDL, REPL, REPW, EXIT; after the loop, when the final feedback is
    empty and the last recorded action does not start with EXIT, a further
    0.5 is taken off the last step's reward, and otherwise the rewards are
    left as they are. *)
Theorem C5_rewards (lines ts : list string) (max_turns : nat)
    (traj : list step) :
  rollout_one lines ts max_turns = Ok traj ->
  exists e0 e' body,
    init lines ts = Ok e0 /\
    recorded e0 0 body e' /\
    ((feedback (state e') = "" /\
      exists pre s, body = (pre ++ [s])%list /\ is_exit s = false /\
                    traj = (pre ++ [penalised s])%list)
     \/
     (traj = body /\
      (feedback (state e') <> "" \/
       exists s, last_step body = Some s /\ is_exit s = true))).
Proof.
  intros Hroll.
  destruct (rollout_one_spec _ _ _ _ Hroll)
    as [e0 [e' [body [Hinit [Hrec [_ Hcase]]]]]].
  now exists e0, e', body.
Qed.

End RolloutTheorems.

Section RolloutScenarios.
#[local] Existing Instance scenario.toy.
Import env rl_train.
Local Open Scope nat_scope.

(** C3, witness: the policy repairs the program and then exits. *)
Lemma C3_stops_on_exit_or_budget_witness :
  exists traj,
    @rollout_one scenario.toy (scenario.scripted ["REPL 1 >>>pass"; "EXIT"])
      ["x"] [] 5 = Ok traj /\
    List.length traj <= 5.
Proof.
  eexists. split; [vm_compute; reflexivity|].
  exact (proj1 (@C3_stops_on_exit_or_budget scenario.toy
                  (scenario.scripted ["REPL 1 >>>pass"; "EXIT"])
                  ["x"] [] 5 _ ltac:(vm_compute; reflexivity))).
Defined.

(** C5, witness: the same episode. *)
Lemma C5_rewards_witness :
  exists traj e0,
    @rollout_one scenario.toy (scenario.scripted ["REPL 1 >>>pass"; "EXIT"])
      ["x"] [] 5 = Ok traj /\
    init ["x"] [] = Ok e0.
Proof.
  eassert (Hrun : @rollout_one scenario.toy
                    (scenario.scripted ["REPL 1 >>>pass"; "EXIT"])
                    ["x"] [] 5 = Ok _) by (vm_compute; reflexivity).
  destruct (@C5_rewards scenario.toy _ _ _ _ _ Hrun)
    as [e0 [e' [body [Hinit _]]]].
  eexists. exists e0. split; [exact Hrun | exact Hinit].
Defined.

(** C3, counterexample: the first action repairs the program, the feedback
    is empty after it, and the driver still plays and records a second
    turn. *)
Lemma C3_step_after_empty_feedback :
  exists s0 s1 e0 e1 st,
    @rollout_one scenario.toy
      (scenario.scripted ["REPL 1 >>>pass"; "DELL 9"]) ["x"] [] 2
    = Ok [s0; s1] /\
    init ["x"] [] = Ok e0 /\
    feedback (state e0) <> "" /\
    apply e0 (action s0) = Ok (e1, st) /\
    feedback st = "" /\
    action s1 = "DELL 9".
Proof.
  do 5 eexists.
  split; [vm_compute; reflexivity|].
  split; [vm_compute; reflexivity|].
  split; [discriminate|].
  split; [vm_compute; reflexivity|].
  split; reflexivity.
Qed.

(** C5, counterexample: the leading token DELLX is none of the five
    command verbs, yet the text starts with DELL and the step is not
    penalised. *)
Lemma C5_prefix_is_not_leading_token :
  exists s,
    @rollout_one scenario.toy (scenario.scripted ["DELLX 1"]) ["x"] [] 1
    = Ok [s] /\
    split (action s) = ["DELLX"; "1"] /\
    existsb (String.eqb "DELLX") ["DELL"; "ADDL"; "REPL"; "REPW"; "EXIT"]
    = false /\
    reward s = 0%R /\
    reward s <> (- 0.5)%R.
Proof.
  eexists.
  split; [vm_compute; reflexivity|].
  split; [reflexivity|]. split; [reflexivity|].
  cbn [reward]. split; lra.
Qed.

End RolloutScenarios.

(** ** The advantage estimator (src/rl_train.py) *)

Section AdvantageFacts.
Context `{rl_train.Policy}.
Import rl_train.
Local Open Scope nat_scope.

(** *** Returns *)

Lemma returns_fold (gamma : R) (traj : list step) :
  fold_left
    (fun (acc : R * list R) (s : step) =>
       let future := (reward s + gamma * fst acc)%R in
       (future, future :: snd acc))
    (rev traj) (0%R, [])
  = (hd 0%R (discounted gamma traj), discounted gamma traj).
Proof.
  induction traj as [|s traj IH]; [reflexivity|].
  change (rev (s :: traj)) with (rev traj ++ [s])%list.
  rewrite fold_left_app, IH. reflexivity.
Qed.

Lemma returns_of_discounted (gamma : R) (traj : list step) :
  returns_of gamma traj = discounted gamma traj.
Proof. exact (f_equal snd (returns_fold gamma traj)). Qed.

Lemma discounted_length (gamma : R) (traj : list step) :
  List.length (discounted gamma traj) = List.length traj.
Proof. induction traj as [|s traj IH]; cbn; congruence. Qed.

Lemma hd_nth0 (l : list R) : hd 0%R l = nth 0 l 0%R.
Proof. now destruct l. Qed.

Lemma discounted_step (gamma : R) (traj : list step) (t : nat) (s : step) :
  nth_error traj t = Some s ->
  nth t (discounted gamma traj) 0%R
  = (reward s + gamma * nth (S t) (discounted gamma traj) 0)%R.
Proof.
  revert t. induction traj as [|s0 traj IH]; intros [|t] Hs;
    try discriminate.
  - injection Hs as ->. cbn [discounted nth]. now rewrite hd_nth0.
  - cbn [nth_error] in Hs. cbn [discounted]. 
    change (nth (S t) (?x :: ?l) 0%R) with (nth t l 0%R).
    rewrite (IH _ Hs). reflexivity.
Qed.

(** *** The statistics of one turn *)

Lemma collect_column (t i : nat) (returns : list (list R)) :
  fst (collect t i returns) = column t returns.
Proof.
  revert i. induction returns as [|Ri returns IH]; intros i; [reflexivity|].
  cbn [collect column flat_map]. specialize (IH (S i)).
  destruct (collect t (S i) returns) as [vals idxs]. cbn [fst] in IH.
  unfold column in IH. rewrite <- IH.
  now destruct (t <? List.length Ri).
Qed.

Lemma sum_total (vals : list R) : sum vals = total vals.
Proof.
  unfold sum, total. apply fold_symmetric.
  - intros x y z. now rewrite Rplus_assoc.
  - intros y. apply Rplus_comm.
Qed.

Lemma mu_sigma_two (v1 v2 : R) (vals : list R) :
  mu_sigma (v1 :: v2 :: vals)
  = (mean (v1 :: v2 :: vals), sample_sd (v1 :: v2 :: vals)).
Proof.
  unfold mu_sigma, mean, sample_sd.
  change (2 <=? List.length (v1 :: v2 :: vals)) with true. cbv iota.
  now rewrite !sum_total.
Qed.

Lemma mu_sigma_one (v : R) : mu_sigma [v] = (v, 1%R).
Proof. reflexivity. Qed.

Lemma mu_sigma_at (t : nat) (returns : list (list R)) :
  column t returns <> [] ->
  mu_sigma (column t returns) = (mu_at t returns, sigma_at t returns).
Proof.
  unfold mu_at, sigma_at. intros Hne.
  destruct (column t returns) as [|v1 [|v2 vals]]; [congruence| |].
  - apply mu_sigma_one.
  - apply mu_sigma_two.
Qed.

End AdvantageFacts.

Section AdvantageRows.
Context `{rl_train.Policy}.
Import rl_train.
Local Open Scope nat_scope.

Lemma append_at_app (apre asuf : list (list R)) (a : list R) (x : R) :
  append_at (apre ++ a :: asuf) (List.length apre) x
  = (apre ++ (a ++ [x]) :: asuf)%list.
Proof.
  induction apre as [|b apre IH]; [reflexivity|].
  cbn [app List.length append_at]. now rewrite IH.
Qed.

(** The scatter loop over what the scan collected appends, to the row of
    every trajectory that has a step at [t], the advantage of its return. *)
Lemma scatter_collect (t : nat) (mu sigma : R) (suf : list (list R)) :
  forall (apre asuf : list (list R)) (done : list R),
    List.length asuf = List.length suf ->
    scatter (apre ++ asuf) (List.length done)
            (snd (collect t (List.length apre) suf))
            (done ++ fst (collect t (List.length apre) suf)) mu sigma
    = (apre ++ extend_all t mu sigma asuf suf)%list.
Proof.
  induction suf as [|Ri suf IH]; intros apre asuf done Hlen.
  - destruct asuf; [reflexivity | discriminate].
  - destruct asuf as [|a asuf]; [discriminate|].
    injection Hlen as Hlen.
    cbn [collect extend_all].
    destruct (collect t (S (List.length apre)) suf) as [vals idxs] eqn:Ec.
    destruct (t <? List.length Ri) eqn:Et; cbn [fst snd scatter].
    + rewrite append_at_app, nth_middle.
      specialize (IH (apre ++ [a ++ [(nth t Ri 0 - mu) / sigma]%R])%list
                     asuf (done ++ [nth t Ri 0%R])%list Hlen).
      rewrite !length_app in IH. cbn [List.length] in IH.
      rewrite !Nat.add_1_r, Ec in IH. cbn [fst snd] in IH.
      rewrite <- !app_assoc in IH. exact IH.
    + specialize (IH (apre ++ [a])%list asuf done Hlen).
      rewrite !length_app in IH. cbn [List.length] in IH.
      rewrite !Nat.add_1_r, Ec in IH. cbn [fst snd] in IH.
      rewrite <- !app_assoc in IH. exact IH.
Qed.

Lemma turn_rows (returns advantages : list (list R)) (t : nat) :
  List.length advantages = List.length returns ->
  turn returns advantages t
  = extend_all t (fst (mu_sigma (column t returns)))
               (snd (mu_sigma (column t returns))) advantages returns.
Proof.
  intros Hlen. unfold turn.
  pose proof (collect_column t 0 returns) as Hcol.
  destruct (collect t 0 returns) as [vals idxs] eqn:Ec. cbn [fst] in Hcol.
  subst vals. destruct (mu_sigma (column t returns)) as [mu sigma].
  pose proof (scatter_collect t mu sigma returns [] advantages [] Hlen) as Hs.
  cbn [List.length app] in Hs. rewrite Ec in Hs. exact Hs.
Qed.

Lemma extend_all_map (t : nat) (mu sigma : R) (f : list R -> list R)
    (l : list (list R)) :
  extend_all t mu sigma (map f l) l
  = map (fun Ri => if t <? List.length Ri
                   then (f Ri ++ [(nth t Ri 0 - mu) / sigma]%R)%list
                   else f Ri) l.
Proof.
  induction l as [|Ri l IH]; [reflexivity|].
  cbn [map extend_all]. now rewrite IH.
Qed.

Lemma row_step (returns : list (list R)) (T : nat) (Ri : list R) :
  row returns (S T) Ri
  = if T <? List.length Ri
    then (row returns T Ri
          ++ [(nth T Ri 0 - fst (mu_sigma (column T returns)))
              / snd (mu_sigma (column T returns))]%R)%list
    else row returns T Ri.
Proof.
  unfold row. destruct (T <? List.length Ri) eqn:Et.
  - apply Nat.ltb_lt in Et.
    rewrite (Nat.min_l (S T)), (Nat.min_l T) by lia.
    now rewrite seq_S, map_app.
  - apply Nat.ltb_ge in Et. now rewrite !Nat.min_r by lia.
Qed.

(** After [T] turns every trajectory has the advantages of its first [T]
    returns. *)
Lemma advantages_rows (returns : list (list R)) (T : nat) :
  advantages_of returns T = map (row returns T) returns.
Proof.
  induction T as [|T IH].
  - unfold advantages_of, row. cbn [seq fold_left Nat.min map]. reflexivity.
  - unfold advantages_of in *. rewrite seq_S, fold_left_app, IH.
    cbn [fold_left Nat.add].
    rewrite turn_rows by now rewrite length_map.
    rewrite extend_all_map. apply map_ext. intros Ri.
    now rewrite row_step.
Qed.

Lemma row_length (returns : list (list R)) (T : nat) (Ri : list R) :
  List.length (row returns T Ri) = Nat.min T (List.length Ri).
Proof. unfold row. now rewrite length_map, length_seq. Qed.

Lemma row_nth (returns : list (list R)) (T : nat) (Ri : list R) (t : nat) :
  t < Nat.min T (List.length Ri) ->
  nth t (row returns T Ri) 0%R
  = ((nth t Ri 0 - fst (mu_sigma (column t returns)))
     / snd (mu_sigma (column t returns)))%R.
Proof.
  intros Ht. unfold row.
  set (g := fun t0 : nat => _).
  rewrite (nth_indep _ 0%R (g 0)) by now rewrite length_map, length_seq.
  rewrite map_nth, seq_nth by assumption. reflexivity.
Qed.

Lemma column_nonempty (returns : list (list R)) (Ri : list R) (t : nat) :
  In Ri returns -> t < List.length Ri -> column t returns <> [].
Proof.
  intros Hin Ht Hcol. unfold column in Hcol.
  assert (Hx : In (nth t Ri 0%R)
                 (flat_map (fun Rj => if t <? List.length Rj
                                      then [nth t Rj 0%R] else []) returns)).
  { apply in_flat_map. exists Ri. split; [assumption|].
    apply Nat.ltb_lt in Ht. rewrite Ht. now left. }
  now rewrite Hcol in Hx.
Qed.

End AdvantageRows.

Section AdvantageTheorem.
Context `{rl_train.Policy}.
Import rl_train.
Local Open Scope nat_scope.

Lemma flatten_traj_spec (adv_i : list R) (traj : list step) (t0 : nat) :
  t0 + List.length traj <= List.length adv_i ->
  flatten_traj adv_i t0 traj
  = map (fun ts : nat * step =>
           {| f_prompt := prompt (snd ts); f_action := action (snd ts);
              old_logp := logp (snd ts); adv := nth (fst ts) adv_i 0%R |})
        (combine (seq t0 (List.length traj)) traj).
Proof.
  revert t0. induction traj as [|s traj IH]; intros t0 Hlen; [reflexivity|].
  cbn [List.length] in Hlen.
  cbn [flatten_traj List.length seq combine map fst snd].
  assert (Ht : (t0 <? List.length adv_i) = true) by (apply Nat.ltb_lt; lia).
  rewrite Ht, IH by lia. reflexivity.
Qed.

Lemma flatten_spec (G : list step -> list R) (suf : list (list step)) :
  forall apre : list (list R),
    flatten (apre ++ map G suf) (List.length apre) suf
    = flat_map (fun traj => flatten_traj (G traj) 0 traj) suf.
Proof.
  induction suf as [|traj suf IH]; intros apre; [reflexivity|].
  cbn [flatten flat_map map]. rewrite nth_middle. f_equal.
  specialize (IH (apre ++ [G traj])%list).
  rewrite length_app, Nat.add_1_r, <- app_assoc in IH. exact IH.
Qed.

Lemma max_len_ok {A : Type} (g : list A) (group : list (list A)) :
  exists M, max_len (g :: group) = Ok M /\
            forall traj, In traj (g :: group) -> List.length traj <= M.
Proof.
  eexists. split; [reflexivity|].
  generalize (g :: group) as l. clear.
  induction l as [|x l IH]; intros traj []; cbn [map fold_right].
  - subst. lia.
  - specialize (IH traj H). lia.
Qed.

Lemma flat_map_ext_in {A B : Type} (f g : A -> list B) (l : list A) :
  (forall a, In a l -> f a = g a) -> flat_map f l = flat_map g l.
Proof.
  induction l as [|a l IH]; intros Hfg; [reflexivity|].
  cbn [flat_map]. rewrite (Hfg a) by now left.
  rewrite IH; [reflexivity|]. intros b Hb. apply Hfg. now right.
Qed.

(** The flattened steps the estimator returns. *)
Lemma compute_spec (group : list (list step)) (gamma : R) :
  group <> [] ->
  compute_returns_and_advantages group gamma
  = Ok (flat_map (flat_of (map (discounted gamma) group) gamma) group).
Proof.
  intros Hne. destruct group as [|g group]; [congruence|].
  destruct (max_len_ok g group) as [M [HM Hmax]].
  unfold compute_returns_and_advantages. rewrite HM. cbn [bind]. f_equal.
  set (grp := g :: group) in *.
  assert (Hret : map (returns_of gamma) grp = map (discounted gamma) grp).
  { apply map_ext. apply returns_of_discounted. }
  rewrite Hret. set (returns := map (discounted gamma) grp).
  rewrite advantages_rows. unfold returns at 2. rewrite map_map.
  pose proof (flatten_spec (fun traj => row returns M (discounted gamma traj))
                grp []) as Hfl.
  cbn [app List.length] in Hfl. rewrite Hfl.
  apply flat_map_ext_in. intros traj Hin.
  specialize (Hmax traj Hin).
  assert (Hrl : List.length (row returns M (discounted gamma traj))
                = List.length traj).
  { rewrite row_length, discounted_length. lia. }
  rewrite flatten_traj_spec by (rewrite Hrl; lia).
  unfold flat_of. apply map_ext_in. intros [t s] Hts.
  apply in_combine_l in Hts. apply in_seq in Hts. cbn [fst snd].
  f_equal.
  rewrite row_nth by (rewrite discounted_length; lia).
  unfold advantage.
  rewrite (mu_sigma_at t returns); [reflexivity|].
  apply column_nonempty with (discounted gamma traj).
  - unfold returns. now apply in_map.
  - rewrite discounted_length. lia.
Qed.

End AdvantageTheorem.

Section AdvantageClaim.
Context `{rl_train.Policy}.
Import rl_train.
Local Open Scope R_scope.

Lemma sample_sd_pos (vals : list R) : 0 < sample_sd vals.
Proof.
  unfold sample_sd. apply sqrt_lt_R0.
  eapply Rlt_le_trans; [|apply Rmax_r]. lra.
Qed.

Lemma mean_pair (x y : R) : mean [x; y] = (x + y) / 2.
Proof. unfold mean, total. cbn [fold_right List.length INR]. field. Qed.

(** With two returns at a turn, the two advantages are opposite. *)
Lemma advantage_pair (returns : list (list R)) (t : nat) (x y : R) :
  column t returns = [x; y] ->
  advantage returns t x = - advantage returns t y.
Proof.
  intros Hcol. unfold advantage, mu_at, sigma_at. rewrite Hcol, mean_pair.
  unfold Rdiv. field_simplify_eq; [ring|].
  pose proof (sample_sd_pos [x; y]). lra.
Qed.

(** C4: per trajectory the returns are computed backward,
    R_t = reward_t + gamma * R_(t+1) (gamma is 1 by default); the estimator
    returns, for every step of every trajectory in order, the advantage
    (R_(i,t) - mu_t) / sigma_t, where over the returns at turn t of the
    trajectories that have a step at t, mu_t is the mean and sigma_t the
    Bessel-corrected sample standard deviation with the variance floored at
    1e-6 before the square root; with exactly one return at the turn, mu_t
    is that return, sigma_t is 1 and the advantage is 0; two identical
    returns at a turn both get advantage 0, and returns 1 and -1 at a turn
    get advantages of equal magnitude and opposite sign. *)
Theorem C4_group_advantages (group : list (list step)) (gamma : R) :
  group <> [] ->
  let returns := map (returns_of gamma) group in
  (forall traj t s,
     nth_error traj t = Some s ->
     nth t (returns_of gamma traj) 0
     = reward s + gamma * nth (S t) (returns_of gamma traj) 0) /\
  (forall traj, List.length (returns_of gamma traj) = List.length traj) /\
  default_gamma = 1 /\
  compute_returns_and_advantages group gamma
  = Ok (flat_map (flat_of returns gamma) group) /\
  (forall t x, advantage returns t x
               = (x - mu_at t returns) / sigma_at t returns) /\
  (forall t v1 v2 vals,
     column t returns = v1 :: v2 :: vals ->
     mu_at t returns
     = total (column t returns) / INR (List.length (column t returns)) /\
     sigma_at t returns
     = sqrt (Rmax (total (map (fun v => (v - mu_at t returns) ^ 2)
                              (column t returns))
                   / INR (List.length (column t returns) - 1))
                  1e-6)) /\
  (forall t v,
     column t returns = [v] ->
     mu_at t returns = v /\ sigma_at t returns = 1 /\
     advantage returns t v = 0) /\
  (forall t v,
     column t returns = [v; v] -> advantage returns t v = 0) /\
  (forall t,
     column t returns = [1; -1] ->
     advantage returns t 1 = - advantage returns t (-1) /\
     Rabs (advantage returns t 1) = Rabs (advantage returns t (-1)) /\
     advantage returns t 1 <> 0).
Proof.
  intros Hne returns.
  assert (Hret : returns = map (discounted gamma) group).
  { apply map_ext. apply returns_of_discounted. }
  split.
  { intros traj t s Hs. rewrite returns_of_discounted.
    now apply discounted_step. }
  split.
  { intros traj. rewrite returns_of_discounted. apply discounted_length. }
  split; [reflexivity|].
  split.
  { rewrite Hret. now apply compute_spec. }
  split; [reflexivity|].
  split.
  { intros t v1 v2 vals Hcol. unfold mu_at, sigma_at. rewrite Hcol.
    split; reflexivity. }
  split.
  { intros t v Hcol. unfold advantage, mu_at, sigma_at. rewrite Hcol.
    repeat split. field. }
  split.
  { intros t v Hcol. pose proof (advantage_pair returns t v v Hcol). lra. }
  intros t Hcol.
  pose proof (advantage_pair returns t 1 (-1) Hcol) as Hopp.
  split; [assumption|].
  split; [rewrite Hopp; apply Rabs_Ropp|].
  unfold advantage, mu_at, sigma_at. rewrite Hcol, mean_pair.
  pose proof (sample_sd_pos [1; -1]) as Hpos.
  intros E.
  assert (Hx : (1 - (1 + -1) / 2) / sample_sd [1; -1] * sample_sd [1; -1] = 1)
    by (field; lra).
  rewrite E in Hx. lra.
Qed.

End AdvantageClaim.

Section AdvantageScenarios.
Import rl_train.
Local Open Scope R_scope.

(** C4, witness: a group of two one-step trajectories with rewards 1
    and -1. *)
Lemma C4_group_advantages_witness :
  let P := scenario.scripted [] in
  let s1 := @Build_step P "p" "EXIT" tt 1 in
  let s2 := @Build_step P "p" "EXIT" tt (-1) in
  @compute_returns_and_advantages P [[s1]; [s2]] 1
  = Ok (flat_map
          (@flat_of P (map (@returns_of P 1) [[s1]; [s2]]) 1) [[s1]; [s2]]).
Proof.
  intros P s1 s2.
  exact (proj1 (proj2 (proj2 (proj2
           (@C4_group_advantages P [[s1]; [s2]] 1 ltac:(discriminate)))))).
Defined.

(** In that group the two returns at turn 0 are 1 and -1, and their
    advantages are opposite. *)
Lemma opposite_returns_scenario :
  let P := scenario.scripted [] in
  let s1 := @Build_step P "p" "EXIT" tt 1 in
  let s2 := @Build_step P "p" "EXIT" tt (-1) in
  let returns := map (@returns_of P 1) [[s1]; [s2]] in
  column 0 returns = [1; -1] /\
  advantage returns 0 1 = - advantage returns 0 (-1).
Proof.
  intros P s1 s2 returns.
  assert (Hcol : column 0 returns = [1; -1]).
  { unfold returns, column, returns_of.
    cbn [map rev app fold_left fst snd reward s1 s2 flat_map List.length
         Nat.ltb Nat.leb nth].
    f_equal; [ring | f_equal; ring]. }
  split; [exact Hcol | now apply advantage_pair].
Qed.

End AdvantageScenarios.

(* ================================================================== *)
(** * Further properties *)
(* ================================================================== *)

(** ** More on strings *)

Section MoreStringFacts.
Import props.

Lemma lstrip_blank (s : string) : blank s = true -> lstrip s = "".
Proof.
  unfold blank. induction s as [|c s IH]; intros Hs; [reflexivity|].
  cbn [forallb_str] in Hs. apply andb_true_iff in Hs as [Hc Hs].
  cbn [lstrip]. rewrite Hc. now apply IH.
Qed.

Lemma blank_lstrip (s : string) : blank (lstrip s) = true -> blank s = true.
Proof.
  unfold blank. induction s as [|c s IH]; intros Hs; [reflexivity|].
  cbn [lstrip] in Hs. destruct (isspace c) eqn:Hc.
  - cbn [forallb_str]. rewrite Hc. now apply IH.
  - cbn [forallb_str] in Hs. now rewrite Hc in Hs.
Qed.

Lemma blank_rstrip (s : string) : blank (rstrip s) = true -> blank s = true.
Proof.
  unfold blank. induction s as [|c s IH]; intros Hs; [reflexivity|].
  cbn [rstrip] in Hs. cbn [forallb_str].
  destruct (isspace c) eqn:Hc; cbn [andb] in *.
  - destruct (is_empty (rstrip s)) eqn:He.
    + apply IH. apply is_empty_true in He. now rewrite He.
    + cbn [forallb_str] in Hs. rewrite Hc in Hs. now apply IH.
  - cbn [forallb_str] in Hs. now rewrite Hc in Hs.
Qed.

Lemma split_from_nil (s cur : string) :
  split_from cur s = [] -> cur = "" /\ blank s = true.
Proof.
  unfold blank. revert cur. induction s as [|c s IH]; intros cur Hs;
    cbn [split_from] in Hs.
  - destruct cur; [auto | discriminate].
  - cbn [forallb_str]. destruct (isspace c) eqn:Hc.
    + destruct cur; cbn [is_empty] in Hs; [|discriminate].
      split; [reflexivity|]. now apply (IH "").
    + apply IH in Hs as [Hcur _]. destruct cur; discriminate.
Qed.

(** The stripped text has no token exactly when the text is blank. *)
Lemma split_strip_nil (s : string) :
  split (strip s) = [] <-> blank s = true.
Proof.
  split.
  - intros Hs. apply split_from_nil in Hs as [_ Hb].
    now apply blank_lstrip, blank_rstrip.
  - intros Hb. unfold strip. now rewrite (lstrip_blank s Hb).
Qed.

Lemma span_forall (p : ascii -> bool) (s : string) :
  forallb_str p (fst (span p s)) = true.
Proof.
  induction s as [|c s IH]; [reflexivity|].
  cbn [span]. destruct (p c) eqn:Hc; [|reflexivity].
  destruct (span p s) as [a b]. cbn [fst forallb_str] in *.
  now rewrite Hc, IH.
Qed.

(** The digits group of a REPW match always converts. *)
Lemma match_repw_digits (s digits old new : string) :
  match_repw s = Some (digits, old, new) ->
  int digits = Ok (int_acc 0 digits).
Proof.
  unfold match_repw.
  destruct (strip_prefix "REPW" s) as [s1|]; [|discriminate].
  destruct (span isspace s1) as [ws1 s2].
  pose proof (span_forall isdecimal s2) as Hd.
  destruct (span isdecimal s2) as [dg s3]. cbn [fst] in Hd.
  destruct (span isspace s3) as [ws2 s4].
  destruct (is_empty ws1 || is_empty dg || is_empty ws2) eqn:He;
    [discriminate|].
  destruct (strip_prefix ">>>" s4) as [rest|]; [|discriminate].
  destruct (forallb_str not_newline rest); [|discriminate].
  destruct (partition ">>>" rest) as [[o n]|]; [|discriminate].
  intros E. injection E as <- _ _.
  apply orb_false_iff in He as [He _]. apply orb_false_iff in He as [_ He].
  unfold int. now rewrite He, Hd.
Qed.

Lemma startswith_app (p t : string) : startswith (p ++ t) p = true.
Proof.
  induction p as [|c p IH]; [reflexivity|].
  cbn [append startswith]. now rewrite Ascii.eqb_refl, IH.
Qed.

Lemma startswith_split (s p : string) :
  startswith s p = true -> exists t, s = p ++ t.
Proof.
  revert s. induction p as [|c p IH]; intros s Hs.
  - now exists s.
  - destruct s as [|b s]; [discriminate|].
    cbn [startswith] in Hs. apply andb_true_iff in Hs as [Hc Hs].
    apply Ascii.eqb_eq in Hc. subst b.
    destruct (IH _ Hs) as [t ->]. now exists t.
Qed.

(** Replacing a text that does not occur changes nothing. *)
Lemma replace_absent (s old new : string) :
  old <> "" -> ~ occurs old s -> replace s old new = s.
Proof.
  intros Hne. unfold replace.
  destruct old as [|o old]; [congruence|]. cbn [is_empty].
  induction s as [|c s IH]; intros Hno; [reflexivity|].
  cbn [replace_scan].
  destruct (startswith (String c s) (String o old)) eqn:Hst.
  - exfalso. apply Hno. apply startswith_split in Hst as [t Ht].
    exists "", t. exact Ht.
  - f_equal. apply IH. intros [a [b Hab]]. apply Hno.
    exists (String c a), b. cbn [append]. now rewrite Hab.
Qed.

(** *** The texts of numbered commands *)

Lemma strip_command (v : string) (n : nat) (ln : string) :
  word v ->
  strip (v ++ " " ++ str n ++ " >>>" ++ ln)
  = v ++ " " ++ str n ++ " >>>" ++ rstrip ln.
Proof.
  intros Hv. unfold strip. rewrite lstrip_word_app by assumption.
  assert (E : forall t, v ++ " " ++ str n ++ " >>>" ++ t
                        = (v ++ " " ++ str n ++ " >>") ++ String ">" t).
  { intros t. now rewrite !append_assoc. }
  rewrite (E ln), rstrip_app_nonblank by reflexivity. now rewrite <- E.
Qed.

Lemma split_command (v : string) (n : nat) (rest : string) :
  word v ->
  split (v ++ " " ++ str n ++ " >>>" ++ rest)
  = v :: str n :: split (">>>" ++ rest).
Proof.
  intros [Hne Hv].
  change (v ++ " " ++ str n ++ " >>>" ++ rest)
    with (v ++ String " " (str n ++ String " " (">>>" ++ rest))).
  rewrite split_word_blank by auto.
  rewrite split_word_blank;
    [reflexivity | apply decimal_nonblank, str_decimal
     | apply str_neq_empty | reflexivity].
Qed.

Lemma content_of_command (v : string) (n : nat) (rest : string) :
  forallb_str not_gt v = true ->
  env.content_of (v ++ " " ++ str n ++ " >>>" ++ rest) = rest.
Proof.
  intros Hv. unfold env.content_of, contains, after_first.
  replace (v ++ " " ++ str n ++ " >>>" ++ rest)
    with ((v ++ " " ++ str n ++ " ") ++ ">>>" ++ rest).
  - rewrite partition_delim; [reflexivity|].
    rewrite !forallb_str_app, Hv.
    rewrite (decimal_not_gt (str n) (str_decimal n)). reflexivity.
  - now rewrite !append_assoc.
Qed.

Lemma word_str (n : nat) : word (str n).
Proof.
  split; [apply str_neq_empty | apply decimal_nonblank, str_decimal].
Qed.

(** A verb and a number, nothing else. *)
Lemma strip_split_bare (v : string) (n : nat) :
  word v ->
  split (strip (v ++ " " ++ str n)) = [v; str n].
Proof.
  intros Hv.
  assert (Hws : Forall word [v; str n])
    by (constructor; [assumption|]; constructor; [apply word_str|];
        constructor).
  change (v ++ " " ++ str n) with (join " " [v; str n]).
  rewrite strip_join_words by assumption.
  now apply split_join_words.
Qed.

End MoreStringFacts.

(** ** More on the edit engine (src/env.py) *)

Section EngineMore.
Import env props.

Lemma int_cases (d : string) :
  isdigit d = true ->
  (forallb_str isdecimal d = true /\ int d = Ok (int_acc 0 d)) \/
  (forallb_str isdecimal d = false /\ int d = Raise ValueError).
Proof.
  unfold isdigit, int. intros Hd. apply andb_true_iff in Hd as [Hne _].
  rewrite Hne. destruct (forallb_str isdecimal d); auto.
Qed.

(** What a numbered command does once its line argument passes
    [isdigit]. *)
Lemma numbered_cases (lines : list string) (action verb d : string)
    (rest : list string) :
  split (strip action) = verb :: d :: rest ->
  numbered_verb verb = true ->
  isdigit d = true ->
  (forallb_str isdecimal d = false /\ edit lines action = Raise ValueError)
  \/
  (forallb_str isdecimal d = true /\
   exists lines', edit lines action = Ok lines' /\
     (List.length lines - 1 <= List.length lines' <= List.length lines + 1)).
Proof.
  intros Hparse Hverb Hdig. unfold edit. rewrite Hparse.
  unfold numbered_verb in Hverb.
  destruct (int_cases d Hdig) as [[Hdec Hint] | [Hdec Hint]].
  - right. split; [assumption|].
    destruct (verb =? "DELL") eqn:E1.
    { unfold dell. rewrite Hdig, Hint. cbn [bind]. eexists.
      split; [reflexivity|].
      destruct (in_range (int_acc 0 d) lines) eqn:Hin; [|lia].
      apply in_range_iff in Hin. rewrite pop_length by lia. lia. }
    destruct (verb =? "ADDL") eqn:E2.
    { unfold addl. rewrite Hdig, Hint. cbn [bind]. eexists.
      split; [reflexivity|]. rewrite insert_length. lia. }
    destruct (verb =? "REPL") eqn:E3; [|discriminate].
    unfold repl. rewrite Hdig, Hint. cbn [bind]. eexists.
    split; [reflexivity|].
    destruct (in_range (int_acc 0 d) lines); [rewrite set_item_length|]; lia.
  - left. split; [assumption|].
    destruct (verb =? "DELL") eqn:E1.
    { unfold dell. now rewrite Hdig, Hint. }
    destruct (verb =? "ADDL") eqn:E2.
    { unfold addl. now rewrite Hdig, Hint. }
    destruct (verb =? "REPL") eqn:E3; [|discriminate].
    unfold repl. now rewrite Hdig, Hint.
Qed.

(** Every outcome of [edit], by the shape of the action text. *)
Lemma edit_cases (lines : list string) (action : string) :
  (blank action = true /\ edit lines action = Raise IndexError) \/
  (exists verb d rest,
     split (strip action) = verb :: d :: rest /\
     numbered_verb verb = true /\ isdigit d = true /\
     forallb_str isdecimal d = false /\
     edit lines action = Raise ValueError) \/
  (blank action = false /\
   exists lines', edit lines action = Ok lines' /\
     (List.length lines - 1 <= List.length lines' <= List.length lines + 1)).
Proof.
  destruct (split (strip action)) as [|verb args] eqn:Hparse.
  { left. split; [now apply split_strip_nil|].
    unfold edit. now rewrite Hparse. }
  assert (Hnb : blank action = false).
  { destruct (blank action) eqn:Hb; [|reflexivity].
    apply split_strip_nil in Hb. congruence. }
  destruct (numbered_verb verb) eqn:Hnum.
  - destruct args as [|d rest].
    + right; right. split; [assumption|]. exists lines.
      split; [|lia]. apply edit_ignored. unfold ignored. rewrite Hparse.
      unfold numbered_verb in Hnum. now rewrite Hnum.
    + destruct (isdigit d) eqn:Hdig.
      * destruct (numbered_cases lines action verb d rest Hparse Hnum Hdig)
          as [[Hdec Hraise] | [Hdec Hok]].
        -- right; left. exists verb, d, rest. auto.
        -- right; right. auto.
      * right; right. split; [assumption|]. exists lines.
        split; [|lia]. apply edit_ignored. unfold ignored. rewrite Hparse.
        unfold numbered_verb in Hnum. now rewrite Hnum, Hdig.
  - right; right. split; [assumption|].
    unfold numbered_verb in Hnum.
    apply orb_false_iff in Hnum as [Hnum E3].
    apply orb_false_iff in Hnum as [E1 E2].
    unfold edit. rewrite Hparse, E1, E2, E3.
    destruct (verb =? "REPW") eqn:E4.
    + unfold repw.
      destruct (match_repw (strip action)) as [[[dg old] new]|] eqn:Hm.
      * rewrite (match_repw_digits _ _ _ _ Hm). cbn [bind].
        eexists. split; [reflexivity|].
        destruct (in_range _ lines); [rewrite set_item_length|]; lia.
      * exists lines. split; [reflexivity | lia].
    + exists lines. split; [now destruct (verb =? "EXIT") | lia].
Qed.

(** X1: whatever the action text, an edit that returns changes the number
    of lines by at most one. *)
Theorem edit_changes_length_by_at_most_one (lines lines' : list string)
    (action : string) :
  edit lines action = Ok lines' ->
  List.length lines - 1 <= List.length lines' <= List.length lines + 1.
Proof.
  intros Hedit.
  destruct (edit_cases lines action)
    as [[_ Hr] | [[verb [d [rest [_ [_ [_ [_ Hr]]]]]]] | [_ [l [Hok Hlen]]]]];
    [congruence | congruence |].
  rewrite Hok in Hedit. now injection Hedit as <-.
Qed.

(** X2: [edit] raises IndexError exactly on the action texts made of
    blanks only (the empty text included). *)
Theorem edit_index_error_iff_blank (lines : list string) (action : string) :
  edit lines action = Raise IndexError <-> blank action = true.
Proof.
  destruct (edit_cases lines action)
    as [[Hb Hr] | [[verb [d [rest [Hp [_ [_ [_ Hr]]]]]]] | [Hb [l [Hok _]]]]].
  - tauto.
  - split; [congruence|]. intros Hb. apply split_strip_nil in Hb. congruence.
  - split; congruence.
Qed.


End EngineMore.

(** X1, witness: an insertion. *)
Lemma edit_changes_length_by_at_most_one_witness :
  List.length ["a"] - 1 <= List.length ["b"; "a"] <= List.length ["a"] + 1.
Proof.
  exact (edit_changes_length_by_at_most_one ["a"] ["b"; "a"] "ADDL 1 >>>b"
           eq_refl).
Defined.

Section EngineCompositions.
Import env props.

Lemma pop_insert {A : Type} (l : list A) (i : nat) (x : A) :
  i <= List.length l -> pylist.pop (pylist.insert l i x) i = l.
Proof.
  intros Hi. unfold pylist.pop, pylist.insert.
  rewrite firstn_app, firstn_firstn, Nat.min_id.
  rewrite firstn_length_le by lia. rewrite Nat.sub_diag. cbn [firstn].
  rewrite app_nil_r.
  rewrite skipn_app, firstn_length_le by lia.
  rewrite skipn_firstn_comm.
  replace (i - S i) with 0 by lia. cbn [firstn app].
  replace (S i - i) with 1 by lia. cbn [skipn].
  apply firstn_skipn.
Qed.

Lemma set_item_twice {A : Type} (l : list A) (i : nat) (x y : A) :
  pylist.set_item (pylist.set_item l i x) i y = pylist.set_item l i y.
Proof.
  revert i. induction l as [|a l IH]; intros [|i]; cbn; congruence.
Qed.

Lemma edit_dell (lines : list string) (k : nat) :
  edit lines ("DELL " ++ str k)
  = Ok (if in_range k lines then pylist.pop lines (k - 1) else lines).
Proof.
  unfold edit.
  change ("DELL " ++ str k) with ("DELL" ++ " " ++ str k).
  rewrite strip_split_bare by (split; [discriminate | reflexivity]).
  cbn [String.eqb Ascii.eqb Bool.eqb]. unfold dell.
  now rewrite isdigit_str, int_str.
Qed.

Lemma edit_repl (lines : list string) (k : nat) (c : string) :
  edit lines ("REPL " ++ str k ++ " >>>" ++ c)
  = Ok (if in_range k lines then pylist.set_item lines (k - 1) (rstrip c)
        else lines).
Proof.
  unfold edit.
  change ("REPL " ++ str k ++ " >>>" ++ c)
    with ("REPL" ++ " " ++ str k ++ " >>>" ++ c).
  assert (Hv : word "REPL") by (split; [discriminate | reflexivity]).
  rewrite strip_command, split_command by assumption.
  cbn [String.eqb Ascii.eqb Bool.eqb]. unfold repl.
  rewrite isdigit_str, int_str. cbn [bind].
  now rewrite content_of_command by reflexivity.
Qed.

(** X4: a REPW action that matches the pattern keeps the number of lines
    and every line but the target; a target in range becomes
    [line.replace(old, new)], a target out of range changes nothing, and
    neither does a non-empty [old] that does not occur in the target. *)
Theorem repw_edits_one_line (lines args : list string)
    (action digits old new : string) :
  split (strip action) = "REPW" :: args ->
  match_repw (strip action) = Some (digits, old, new) ->
  let ln := int_acc 0 digits in
  exists lines',
    edit lines action = Ok lines' /\
    List.length lines' = List.length lines /\
    (forall k, k <> ln - 1 -> nth_error lines' k = nth_error lines k) /\
    (forall line, 1 <= ln -> nth_error lines (ln - 1) = Some line ->
                  nth_error lines' (ln - 1) = Some (replace line old new)) /\
    (~ (1 <= ln <= List.length lines) -> lines' = lines) /\
    (old <> "" ->
     (forall line, nth_error lines (ln - 1) = Some line -> ~ occurs old line) ->
     lines' = lines).
Proof.
  intros Hparse Hm ln.
  assert (Hedit : edit lines action
                  = Ok (if in_range ln lines
                        then pylist.set_item lines (ln - 1)
                               (replace (nth (ln - 1) lines "") old new)
                        else lines)).
  { unfold edit. rewrite Hparse. cbn [String.eqb Ascii.eqb Bool.eqb].
    unfold repw. rewrite Hm, (match_repw_digits _ _ _ _ Hm). reflexivity. }
  eexists. split; [exact Hedit|].
  destruct (in_range ln lines) eqn:Hin.
  - apply in_range_iff in Hin.
    split; [apply set_item_length|].
    split; [intros k Hk; now apply set_item_other|].
    split.
    { intros line _ Hline. rewrite (nth_error_nth _ _ "" Hline).
      apply set_item_at. lia. }
    split; [intros Hn; now elim Hn|].
    intros Hne Hno.
    destruct (nth_error lines (ln - 1)) as [line|] eqn:Hline.
    + rewrite (nth_error_nth _ _ "" Hline).
      rewrite replace_absent by auto. now apply set_item_same.
    + apply nth_error_None in Hline. lia.
  - split; [reflexivity|]. split; [reflexivity|].
    split; [|split; reflexivity].
    intros line Hln Hline.
    assert (ln - 1 < List.length lines)
      by (apply nth_error_Some; congruence).
    assert (Hr : in_range ln lines = true) by (apply in_range_iff; lia).
    congruence.
Qed.

(** X5: inserting at a line number in [1, N+1] and then deleting that line
    number gives the original buffer back. *)
Theorem addl_then_dell_round_trip (lines : list string) (k : nat)
    (c : string) :
  1 <= k <= List.length lines + 1 ->
  exists l1,
    edit lines ("ADDL " ++ str k ++ " >>>" ++ c) = Ok l1 /\
    nth_error l1 (k - 1) = Some (rstrip c) /\
    edit l1 ("DELL " ++ str k) = Ok lines.
Proof.
  intros Hk. exists (pylist.insert lines (k - 1) (rstrip c)).
  split.
  { replace k with (k - 1 + 1) at 1 by lia. apply edit_addl. lia. }
  split; [apply insert_at; lia|].
  rewrite edit_dell.
  assert (Hr : in_range k (pylist.insert lines (k - 1) (rstrip c)) = true).
  { apply in_range_iff. rewrite insert_length. lia. }
  rewrite Hr. f_equal. apply pop_insert. lia.
Qed.

(** X6: of two REPL actions on the same line number the last one wins, and
    repeating a REPL action changes nothing more. *)
Theorem repl_last_write_wins (lines : list string) (k : nat) (b c : string) :
  exists l1 l2,
    edit lines ("REPL " ++ str k ++ " >>>" ++ b) = Ok l1 /\
    edit l1 ("REPL " ++ str k ++ " >>>" ++ c) = Ok l2 /\
    edit lines ("REPL " ++ str k ++ " >>>" ++ c) = Ok l2 /\
    edit l2 ("REPL " ++ str k ++ " >>>" ++ c) = Ok l2.
Proof.
  exists (if in_range k lines then pylist.set_item lines (k - 1) (rstrip b)
          else lines),
         (if in_range k lines then pylist.set_item lines (k - 1) (rstrip c)
          else lines).
  rewrite !edit_repl.
  destruct (in_range k lines) eqn:Hin.
  - assert (Hin1 : forall x, in_range k (pylist.set_item lines (k - 1) x)
                             = true).
    { intros x. apply in_range_iff. rewrite set_item_length.
      now apply in_range_iff. }
    now rewrite !Hin1, !set_item_twice.
  - now rewrite Hin.
Qed.

End EngineCompositions.

(** X4, witness: every occurrence in the second line is replaced. *)
Lemma repw_edits_one_line_witness :
  exists lines',
    env.edit ["x = a"; "a = a + 1"] "REPW 2 >>>a>>>b" = Ok lines' /\
    nth_error lines' 1 = Some "b = b + 1".
Proof.
  destruct (repw_edits_one_line ["x = a"; "a = a + 1"] ["2"; ">>>a>>>b"]
              "REPW 2 >>>a>>>b" "2" "a" "b" eq_refl eq_refl)
    as [lines' [Hedit [_ [_ [Hat _]]]]].
  exists lines'. split; [exact Hedit|].
  exact (Hat "a = a + 1" ltac:(vm_compute; repeat constructor) eq_refl).
Defined.

(** X5, witness: an indented line is inserted as line 2 and deleted. *)
Lemma addl_then_dell_round_trip_witness :
  exists l1,
    env.edit ["a"; "b"] ("ADDL " ++ str 2 ++ " >>>" ++ "  c") = Ok l1 /\
    nth_error l1 (2 - 1) = Some (rstrip "  c") /\
    env.edit l1 ("DELL " ++ str 2) = Ok ["a"; "b"].
Proof.
  exact (addl_then_dell_round_trip ["a"; "b"] 2 "  c" ltac:(simpl; lia)).
Defined.

(** ** More on the test harness (src/env.py) *)

Section ReportFacts.
Context `{env.Interpreter}.
Import env props.

Lemma failures_positions (ts : list string) (idx : nat) (g : Namespace)
    (fs : list failure) :
  failures ts idx g fs ->
  List.length fs <= List.length ts /\
  Forall (fun f => idx <= index_of f < idx + List.length ts /\
                   nth_error ts (index_of f - idx) = Some (test_of f)) fs /\
  StronglySorted (fun a b => index_of a < index_of b) fs.
Proof.
  intros Hf. induction Hf as [idx g | t rest idx g g' fs Ht Hf IH
                              | t rest idx g g' e tb fs Ht Hf IH].
  - repeat split; constructor.
  - destruct IH as [Hlen [Hall Hs]]. cbn [List.length].
    split; [lia|]. split; [|assumption].
    eapply Forall_impl; [|exact Hall]. intros f [Hb Hn]. split; [lia|].
    replace (index_of f - idx) with (S (index_of f - S idx)) by lia.
    exact Hn.
  - destruct IH as [Hlen [Hall Hs]]. cbn [List.length].
    split; [lia|]. split.
    + constructor.
      * unfold index_of, test_of. cbn [fst snd]. split; [lia|].
        now rewrite Nat.sub_diag.
      * eapply Forall_impl; [|exact Hall]. intros f [Hb Hn]. split; [lia|].
        replace (index_of f - idx) with (S (index_of f - S idx)) by lia.
        exact Hn.
    + constructor; [assumption|].
      eapply Forall_impl; [|exact Hall]. intros f [Hb _].
      unfold index_of at 1. cbn [fst]. lia.
Qed.

(** X7: the failure records that the test loop collects name the failing
    tests by their 1-based position: every record holds the text of the
    test at its index, the indices are strictly increasing, and there are
    at most as many records as tests. *)
Theorem failure_records_positions (ts : list string) (g : Namespace)
    (failed : list failure) :
  run_tests ts 1 g [] = Ok failed ->
  List.length failed <= List.length ts /\
  Forall (fun f => 1 <= index_of f <= List.length ts /\
                   nth_error ts (index_of f - 1) = Some (test_of f)) failed /\
  StronglySorted (fun a b => index_of a < index_of b) failed.
Proof.
  intros Hrun. destruct (run_tests_failures _ _ _ _ _ Hrun) as [fs [-> Hfs]].
  cbn [app]. destruct (failures_positions _ _ _ _ Hfs) as [Hlen [Hall Hs]].
  split; [assumption|]. split; [|assumption].
  eapply Forall_impl; [|exact Hall]. intros f [Hb Hn]. split; [lia|assumption].
Qed.

End ReportFacts.

Section ReportScenarios.
#[local] Existing Instance scenario.toy.
Import env props.

(** X7, witness: the second of three tests fails. *)
Lemma failure_records_positions_witness :
  List.length [(2, "assert False", "AssertionError()")] <= 3.
Proof.
  exact (proj1 (failure_records_positions ["pass"; "assert False"; "x = 1"] tt
                  [(2, "assert False", "AssertionError()")] eq_refl)).
Defined.

End ReportScenarios.

(** ** More on the corruption generator (src/corruptor.py) *)

Section CorruptorMore.
Import corruptor.

Lemma choice_ok {A : Type} (seq : list A) (d : A) (r : rng) :
  seq <> [] ->
  exists x, In x seq /\ choice seq d r = Ok (x, advance r).
Proof.
  intros Hne. destruct seq as [|a seq]; [congruence|].
  unfold choice. rewrite randrange_ok by discriminate. cbn [bind].
  eexists. split; [|reflexivity].
  apply nth_In. apply Nat.mod_upper_bound. discriminate.
Qed.

Lemma insert_pop_nth {A : Type} (l : list A) (i : nat) (d : A) :
  i < List.length l ->
  pylist.insert (pylist.pop l i) i (nth i l d) = l.
Proof.
  revert i. induction l as [|a l IH]; intros [|i] Hi; cbn [List.length] in Hi;
    try lia.
  - reflexivity.
  - change (pylist.pop (a :: l) (S i)) with (a :: pylist.pop l i).
    change (pylist.insert (a :: pylist.pop l i) (S i) (nth (S i) (a :: l) d))
      with (a :: pylist.insert (pylist.pop l i) i (nth i l d)).
    rewrite IH by lia. reflexivity.
Qed.

(** X8: [delete_line] returns an empty list as it is, without drawing;
    from a non-empty list it removes exactly one line, at a position below
    the length, and putting that line back at that position restores the
    list. *)
Theorem delete_line_removes_one (code : list string) (r : rng) :
  delete_line [] r = Ok ([], r) /\
  (code <> [] ->
   exists idx,
     idx < List.length code /\
     delete_line code r = Ok (pylist.pop code idx, advance r) /\
     List.length (pylist.pop code idx) = List.length code - 1 /\
     pylist.insert (pylist.pop code idx) idx (nth idx code "") = code).
Proof.
  split; [reflexivity|]. intros Hne.
  exists (draws r (cursor r) mod List.length code).
  assert (Hidx : draws r (cursor r) mod List.length code < List.length code).
  { apply Nat.mod_upper_bound. now destruct code. }
  split; [assumption|]. split.
  { unfold delete_line. destruct code as [|c cs]; [congruence|].
    rewrite randrange_ok by discriminate. cbn [bind].
    unfold pylist.pop. now rewrite Nat.add_1_r. }
  split; [now apply pop_length | now apply insert_pop_nth].
Qed.

(** X9: with a non-empty donor pool [add_line] inserts one donor line at a
    position between 0 and the length, so the result is one line longer
    and deleting at that position restores the list; with an empty donor
    pool it raises IndexError. *)
Theorem add_line_inserts_donor (code donor : list string) (r : rng) :
  add_line code [] r = Raise IndexError /\
  (donor <> [] ->
   exists idx line,
     idx <= List.length code /\ In line donor /\
     add_line code donor r
     = Ok (pylist.insert code idx line, advance (advance r)) /\
     List.length (pylist.insert code idx line) = List.length code + 1 /\
     pylist.pop (pylist.insert code idx line) idx = code).
Proof.
  split.
  { unfold add_line. rewrite randrange_ok by lia. reflexivity. }
  intros Hne.
  set (idx := draws r (cursor r) mod (List.length code + 1)).
  assert (Hidx : idx < List.length code + 1)
    by (apply Nat.mod_upper_bound; lia).
  destruct (choice_ok donor "" (advance r) Hne) as [line [Hin Hch]].
  exists idx, line. split; [lia|]. split; [assumption|]. split.
  { unfold add_line. rewrite randrange_ok by lia. cbn [bind]. fold idx.
    rewrite Hch. reflexivity. }
  split; [apply insert_length | apply pop_insert; lia].
Qed.

(** X10: [replace_line] returns an empty list as it is, whatever the donor
    pool; on a non-empty list it raises IndexError when the donor pool is
    empty, and otherwise overwrites exactly one line with a donor line,
    keeping the length and every other line. *)
Theorem replace_line_overwrites_one (code donor : list string) (r : rng) :
  replace_line [] donor r = Ok ([], r) /\
  (code <> [] -> replace_line code [] r = Raise IndexError) /\
  (code <> [] -> donor <> [] ->
   exists idx line,
     idx < List.length code /\ In line donor /\
     replace_line code donor r
     = Ok (pylist.set_item code idx line, advance (advance r)) /\
     List.length (pylist.set_item code idx line) = List.length code /\
     nth_error (pylist.set_item code idx line) idx = Some line /\
     forall k, k <> idx ->
               nth_error (pylist.set_item code idx line) k = nth_error code k).
Proof.
  split; [reflexivity|]. split.
  { intros Hne. unfold replace_line. destruct code as [|c cs]; [congruence|].
    rewrite randrange_ok by discriminate. reflexivity. }
  intros Hne Hd.
  set (idx := draws r (cursor r) mod List.length code).
  assert (Hidx : idx < List.length code).
  { apply Nat.mod_upper_bound. now destruct code. }
  destruct (choice_ok donor "" (advance r) Hd) as [line [Hin Hch]].
  exists idx, line. split; [assumption|]. split; [assumption|]. split.
  { unfold replace_line. destruct code as [|c cs]; [congruence|].
    rewrite randrange_ok by discriminate. cbn [bind]. fold idx.
    rewrite Hch. reflexivity. }
  split; [apply set_item_length|].
  split; [now apply set_item_at|].
  intros k Hk. now apply set_item_other.
Qed.

(** X11: [typo_word] never raises and never changes the number of lines;
    it touches at most the line it picks, and returns the list as it is
    when that line has no word (a blank line) or the list is empty. *)
Theorem typo_word_total (code : list string) (r : rng) :
  let idx := draws r (cursor r) mod List.length code in
  exists new r',
    typo_word code r = Ok (new, r') /\
    List.length new = List.length code /\
    (forall k, k <> idx -> nth_error new k = nth_error code k) /\
    (code = [] -> new = [] /\ r' = r) /\
    (split (nth idx code "") = [] -> new = code).
Proof.
  intros idx. destruct code as [|c cs].
  { exists [], r. repeat split; reflexivity. }
  destruct (split (nth idx (c :: cs) "")) as [|w ws] eqn:Ewords.
  - exists (c :: cs), (advance r). split.
    { unfold typo_word. rewrite randrange_ok by discriminate. cbn [bind].
      fold idx. now rewrite Ewords. }
    repeat split; try reflexivity; discriminate.
  - pose proof (split_words (nth idx (c :: cs) "")) as Hall.
    rewrite Ewords in Hall.
    set (wi := draws r (S (cursor r)) mod List.length (w :: ws)).
    assert (Hwi : wi < List.length (w :: ws))
      by (apply Nat.mod_upper_bound; discriminate).
    assert (Hw : forallb_str nonblank (nth wi (w :: ws) "") = true).
    { now apply (Forall_nth_default word (w :: ws) wi "" Hall Hwi). }
    destruct (typo_in_word (nth wi (w :: ws) "") (advance (advance r)) Hw)
      as [w2 [r' [Etypo _]]].
    eexists. exists r'. split.
    { unfold typo_word. rewrite randrange_ok by discriminate. cbn [bind].
      fold idx. rewrite Ewords.
      rewrite randrange_ok by discriminate. cbn [bind].
      change (draws (advance r) (cursor (advance r)) mod List.length (w :: ws))
        with wi.
      rewrite Etypo. reflexivity. }
    split; [apply set_item_length|].
    split; [intros k Hk; now apply set_item_other|].
    split; discriminate.
Qed.

End CorruptorMore.

(** ** More on the trace synthesizer (src/demo_generator.py) *)

Section InverseActions.
Import env corruptor demo_generator props.



Lemma in_range_succ (i : nat) (lines : list string) :
  i < List.length lines -> in_range (i + 1) lines = true.
Proof. intros Hi. apply in_range_iff. lia. Qed.

Lemma set_item_nth {A : Type} (l : list A) (i : nat) (d : A) :
  i < List.length l -> pylist.set_item l i (nth i l d) = l.
Proof. intros Hi. apply set_item_same. now apply nth_error_nth'. Qed.

(** The inverse of an insertion: a DELL that restores the clean lines. *)
Lemma revert_insertion (clean : list string) (idx : nat) (line : string) :
  idx <= List.length clean ->
  exists i,
    invert_action_for_op "add" clean (pylist.insert clean idx line)
    = Ok ("DELL " ++ str (i + 1)) /\
    edit (pylist.insert clean idx line) ("DELL " ++ str (i + 1)) = Ok clean.
Proof.
  intros Hidx. set (code := pylist.insert clean idx line).
  assert (Hlen : List.length code = List.length clean + 1)
    by apply insert_length.
  assert (Hpop : pylist.pop code idx = clean) by now apply pop_insert.
  destruct (first_mismatch_after_delete code idx 0) as [i [Hi [Hfm [_ Hins]]]];
    [lia|].
  rewrite Hpop in Hfm, Hins. exists i. split.
  - unfold invert_action_for_op. cbn [String.eqb Ascii.eqb Bool.eqb].
    now rewrite Hfm.
  - rewrite edit_dell, in_range_succ by lia.
    replace (i + 1 - 1) with i by lia. f_equal.
    rewrite <- (set_item_nth code i "") by lia.
    rewrite <- Hins. apply pop_insert. lia.
Qed.


Lemma typo_word_shape (clean : list string) (r : rng) :
  clean <> [] ->
  exists idx x r',
    idx < List.length clean /\
    typo_word clean r = Ok (pylist.set_item clean idx x, r').
Proof.
  intros Hne.
  set (idx := draws r (cursor r) mod List.length clean).
  assert (Hidx : idx < List.length clean).
  { apply Nat.mod_upper_bound. now destruct clean. }
  exists idx.
  destruct clean as [|c cs]; [congruence|].
  destruct (split (nth idx (c :: cs) "")) as [|w ws] eqn:Ewords.
  - exists (nth idx (c :: cs) ""), (advance r). split; [assumption|].
    rewrite set_item_nth by assumption.
    unfold typo_word. rewrite randrange_ok by discriminate. cbn [bind].
    fold idx. now rewrite Ewords.
  - pose proof (split_words (nth idx (c :: cs) "")) as Hall.
    rewrite Ewords in Hall.
    set (wi := draws r (S (cursor r)) mod List.length (w :: ws)).
    assert (Hwi : wi < List.length (w :: ws))
      by (apply Nat.mod_upper_bound; discriminate).
    assert (Hw : forallb_str nonblank (nth wi (w :: ws) "") = true).
    { now apply (Forall_nth_default word (w :: ws) wi "" Hall Hwi). }
    destruct (typo_in_word (nth wi (w :: ws) "") (advance (advance r)) Hw)
      as [w2 [r' [Etypo _]]].
    eexists. exists r'. split; [assumption|].
    unfold typo_word. rewrite randrange_ok by discriminate. cbn [bind].
    fold idx. rewrite Ewords.
    rewrite randrange_ok by discriminate. cbn [bind].
    change (draws (advance r) (cursor (advance r)) mod List.length (w :: ws))
      with wi.
    rewrite Etypo. reflexivity.
Qed.

End InverseActions.

Section SingleCorruption.
Context `{env.Interpreter}.
Import env corruptor demo_generator props.

(** The episode of one corruption, once the corruption and its inverse are
    known. *)
Lemma generate_single (clean tests donor code restored : list string)
    (op action : string) (r r' : rng) :
  corrupt 1 clean [] donor r = Ok (code, [op], r') ->
  invert_action_for_op op clean code = Ok action ->
  edit code action = Ok restored ->
  generate_demo_for_example clean tests donor 1 r
  = (e0 <- init code tests ;;
     '(e1, st) <- recompute e0 restored ;;
     Ok ([render (state e0); action; render st; "EXIT"], code, e1, r')).
Proof.
  intros Hc Hinv Hedit. unfold generate_demo_for_example.
  rewrite Hc. cbn [bind].
  destruct (init code tests) as [e0|x] eqn:Ei; cbn [bind]; [|reflexivity].
  cbn [rev app invert_all]. rewrite (init_lines _ _ _ Ei), Hinv. cbn [bind].
  assert (Ha : apply e0 action = recompute e0 restored).
  { apply apply_edit. now rewrite (init_lines _ _ _ Ei). }
  rewrite Ha. destruct (recompute e0 restored) as [[e1 st]|x]; reflexivity.
Qed.

Lemma generate_single_raises (clean tests donor code : list string)
    (op : string) (x : exception) (r r' : rng) :
  corrupt 1 clean [] donor r = Ok (code, [op], r') ->
  invert_action_for_op op clean code = Raise x ->
  generate_demo_for_example clean tests donor 1 r
  = (e0 <- init code tests ;; Raise x).
Proof.
  intros Hc Hinv. unfold generate_demo_for_example.
  rewrite Hc. cbn [bind].
  destruct (init code tests) as [e0|y] eqn:Ei; cbn [bind]; [|reflexivity].
  cbn [rev app invert_all]. now rewrite (init_lines _ _ _ Ei), Hinv.
Qed.

Lemma corrupt_one (clean donor : list string) (r : rng) :
  corrupt 1 clean [] donor r
  = match draws r (cursor r) mod 4 with
    | 0 => '(code, r) <- delete_line clean (advance r) ;;
           Ok (code, ["delete"], r)
    | 1 => '(code, r) <- add_line clean donor (advance r) ;;
           Ok (code, ["add"], r)
    | 2 => '(code, r) <- replace_line clean donor (advance r) ;;
           Ok (code, ["replace"], r)
    | _ => '(code, r) <- typo_word clean (advance r) ;;
           Ok (code, ["typo"], r)
    end.
Proof.
  cbn [corrupt]. unfold choice. cbn [CORRUPTION_TYPES List.length].
  rewrite randrange_ok by discriminate. cbn [bind].
  assert (Hk : draws r (cursor r) mod 4 < 4)
    by (apply Nat.mod_upper_bound; discriminate).
  destruct (draws r (cursor r) mod 4) as [|[|[|[|k]]]]; try lia;
    cbn [nth String.eqb Ascii.eqb Bool.eqb].
  - destruct (delete_line clean (advance r)) as [[c r1]|x]; reflexivity.
  - destruct (add_line clean donor (advance r)) as [[c r1]|x]; reflexivity.
  - destruct (replace_line clean donor (advance r)) as [[c r1]|x]; reflexivity.
  - destruct (typo_word clean (advance r)) as [[c r1]|x]; reflexivity.
Qed.

Lemma add_line_shape (code donor : list string) (r : rng) :
  donor <> [] ->
  exists idx line,
    idx <= List.length code /\
    add_line code donor r
    = Ok (pylist.insert code idx line, advance (advance r)).
Proof.
  intros Hne.
  assert (Hidx : draws r (cursor r) mod (List.length code + 1)
                 < List.length code + 1)
    by (apply Nat.mod_upper_bound; lia).
  destruct (choice_ok donor "" (advance r) Hne) as [line [_ Hch]].
  eexists. exists line. split; [|unfold add_line].
  2: { rewrite randrange_ok by lia. cbn [bind]. rewrite Hch. reflexivity. }
  lia.
Qed.

Lemma replace_line_shape (code donor : list string) (r : rng) :
  code <> [] -> donor <> [] ->
  exists idx line,
    idx < List.length code /\
    replace_line code donor r
    = Ok (pylist.set_item code idx line, advance (advance r)).
Proof.
  intros Hne Hd.
  assert (Hidx : draws r (cursor r) mod List.length code < List.length code).
  { apply Nat.mod_upper_bound. now destruct code. }
  destruct (choice_ok donor "" (advance r) Hd) as [line [_ Hch]].
  eexists. exists line. split; [exact Hidx|].
  unfold replace_line. destruct code as [|c cs]; [congruence|].
  rewrite randrange_ok by discriminate. cbn [bind]. rewrite Hch. reflexivity.
Qed.

(** X12: an episode whose single corruption is an add is reverted exactly,
    whatever the lines are: the synthesizer writes one DELL, and the engine
    turns the corrupted buffer (one line longer) back into the clean one;
    the trace is the corrupted rendering, the action, the rendering after
    it and EXIT. *)
Theorem single_add_is_reverted (clean tests donor : list string) (r : rng) :
  donor <> [] ->
  draws r (cursor r) mod 4 = 1 ->
  exists code action r',
    List.length code = List.length clean + 1 /\
    startswith action "DELL" = true /\
    edit code action = Ok clean /\
    generate_demo_for_example clean tests donor 1 r
    = (e0 <- init code tests ;;
       '(e1, st) <- recompute e0 clean ;;
       Ok ([render (state e0); action; render st; "EXIT"], code, e1, r')).
Proof.
  intros Hd Hadd.
  destruct (add_line_shape clean donor (advance r) Hd)
    as [idx [line [Hidx Hins]]].
  destruct (revert_insertion clean idx line Hidx) as [i [Hinv Hedit]].
  exists (pylist.insert clean idx line), ("DELL " ++ str (i + 1)),
         (advance (advance (advance r))).
  split; [apply insert_length|]. split; [reflexivity|].
  split; [assumption|].
  apply generate_single with "add"; try assumption.
  rewrite corrupt_one, Hadd, Hins. reflexivity.
Qed.


(** X14: on an empty clean line list, an episode whose single corruption
    is a delete, a replace or a typo raises IndexError as soon as the
    environment is constructed: the corruption leaves the empty list as it
    is and the inverse falls back on a line of the empty clean list. *)
Theorem empty_clean_raises (tests donor : list string) (r : rng) :
  draws r (cursor r) mod 4 <> 1 ->
  generate_demo_for_example [] tests donor 1 r
  = (e0 <- init [] tests ;; Raise IndexError).
Proof.
  intros Hk.
  assert (Hlt : draws r (cursor r) mod 4 < 4)
    by (apply Nat.mod_upper_bound; discriminate).
  pose proof (corrupt_one [] donor r) as Hc.
  destruct (draws r (cursor r) mod 4) as [|[|[|[|k]]]]; try lia;
    try congruence; cbn in Hc;
    eapply generate_single_raises; try exact Hc; reflexivity.
Qed.

End SingleCorruption.

Section SingleCorruptionScenarios.
#[local] Existing Instance programs.line_interpreter.
Import env corruptor demo_generator props.

(** X12, witness: a donor line is added to a one-line program. *)
Lemma single_add_is_reverted_witness :
  exists code action,
    List.length code = List.length ["pass"] + 1 /\
    edit code action = Ok ["pass"].
Proof.
  destruct (single_add_is_reverted ["pass"] [] ["x = 1"]
              {| draws := fun _ => 1; cursor := 0 |}
              ltac:(discriminate) eq_refl)
    as [code [action [r' [Hlen [_ [Hedit _]]]]]].
  exists code, action. split; [exact Hlen | exact Hedit].
Defined.


(** X14, witness: a delete drawn on the empty program. *)
Lemma empty_clean_raises_witness :
  generate_demo_for_example [] [] [] 1 {| draws := fun _ => 0; cursor := 0 |}
  = Raise IndexError.
Proof.
  exact (empty_clean_raises [] []
           {| draws := fun _ => 0; cursor := 0 |} ltac:(discriminate)).
Defined.

End SingleCorruptionScenarios.

(** ** Corruption loops (src/demo_generator.py, src/dataset_builder.py) *)

Section CorruptionLoops.
Import corruptor demo_generator props.

Lemma delete_line_within (code : list string) (r : rng) :
  exists code' r', delete_line code r = Ok (code', r') /\ within 1 code code'.
Proof.
  unfold within. destruct code as [|c cs].
  - exists [], r. split; [reflexivity | cbn; lia].
  - assert (Hidx : draws r (cursor r) mod List.length (c :: cs)
                   < List.length (c :: cs))
      by (apply Nat.mod_upper_bound; discriminate).
    eexists. eexists. split.
    + unfold delete_line. rewrite randrange_ok by discriminate. reflexivity.
    + rewrite length_app, length_firstn, length_skipn.
      cbn [List.length] in *. lia.
Qed.

Lemma add_line_within (code donor code' : list string) (r r' : rng) :
  add_line code donor r = Ok (code', r') -> within 1 code code'.
Proof.
  unfold add_line, within. rewrite randrange_ok by lia. cbn [bind].
  destruct (choice donor "" (advance r)) as [[line r1]|x]; cbn [bind];
    [|discriminate].
  intros E. injection E as <- _.
  rewrite length_app. cbn [app List.length].
  rewrite length_firstn, length_skipn. lia.
Qed.

Lemma replace_line_nonempty (code donor : list string) (r : rng) :
  code <> [] ->
  replace_line code donor r
  = match choice donor "" (advance r) with
    | Ok (line, r1) =>
        Ok (pylist.set_item code (draws r (cursor r) mod List.length code) line,
            r1)
    | Raise x => Raise x
    end.
Proof.
  intros Hne. unfold replace_line. destruct code as [|c cs]; [congruence|].
  rewrite randrange_ok by discriminate. cbv beta iota delta [bind].
  destruct (choice donor "" (advance r)) as [[line r1]|x]; reflexivity.
Qed.

Lemma replace_line_within (code donor code' : list string) (r r' : rng) :
  replace_line code donor r = Ok (code', r') -> within 1 code code'.
Proof.
  unfold within. destruct code as [|c cs].
  - intros E. injection E as <- _. cbn. lia.
  - rewrite replace_line_nonempty by discriminate.
    destruct (choice donor "" (advance r)) as [[line r1]|x]; [|discriminate].
    intros E.
    assert (Ec : pylist.set_item (c :: cs)
                   (draws r (cursor r) mod List.length (c :: cs)) line = code')
      by congruence.
    rewrite <- Ec, set_item_length. lia.
Qed.

Lemma typo_word_within (code : list string) (r : rng) :
  exists code' r', typo_word code r = Ok (code', r') /\ within 1 code code'.
Proof.
  unfold within. destruct code as [|c cs].
  - exists [], r. split; [reflexivity | cbn; lia].
  - destruct (typo_word_shape (c :: cs) r) as [idx [x [r' [_ Htw]]]];
      [discriminate|].
    eexists. exists r'. split; [exact Htw|]. rewrite set_item_length. lia.
Qed.

Lemma within_trans (n m : nat) (a b c : list string) :
  within n a b -> within m b c -> within (n + m) a c.
Proof. unfold within. lia. Qed.

(** What a corruption loop of the synthesizer that returns has done. *)
Lemma corrupt_inv (donor : list string) (n : nat) :
  forall (code ops code' ops' : list string) (r r' : rng),
    corrupt n code ops donor r = Ok (code', ops', r') ->
    exists new_ops,
      ops' = (ops ++ new_ops)%list /\
      List.length new_ops = n /\
      Forall (fun op => In op CORRUPTION_TYPES) new_ops /\
      within n code code'.
Proof.
  induction n as [|n IH]; intros code ops code' ops' r r' Hc.
  - injection Hc as <- <- _. exists []. rewrite app_nil_r.
    repeat split; [constructor | lia | lia].
  - cbn [corrupt] in Hc. unfold choice in Hc.
    cbn [CORRUPTION_TYPES List.length] in Hc.
    rewrite randrange_ok in Hc by discriminate. cbn [bind] in Hc.
    assert (Hk : draws r (cursor r) mod 4 < 4)
      by (apply Nat.mod_upper_bound; discriminate).
    assert (Hstep : forall op code1 r1,
               In op CORRUPTION_TYPES -> within 1 code code1 ->
               corrupt n code1 (ops ++ [op]) donor r1 = Ok (code', ops', r') ->
               exists new_ops,
                 ops' = (ops ++ new_ops)%list /\
                 List.length new_ops = S n /\
                 Forall (fun op => In op CORRUPTION_TYPES) new_ops /\
                 within (S n) code code').
    { intros op code1 r1 Hop Hw Hrest.
      destruct (IH _ _ _ _ _ _ Hrest) as [new [-> [Hlen [Hall Hw']]]].
      exists (op :: new). rewrite <- app_assoc.
      split; [reflexivity|]. split; [cbn; lia|].
      split; [now constructor|].
      apply (within_trans 1 n code code1 code'); assumption. }
    destruct (draws r (cursor r) mod 4) as [|[|[|[|k]]]]; try lia;
      cbn [nth String.eqb Ascii.eqb Bool.eqb] in Hc.
    + destruct (delete_line_within code (advance r)) as [c1 [r1 [Hd Hw]]].
      rewrite Hd in Hc. cbn [bind] in Hc.
      apply (Hstep "delete" c1 r1); [cbn; tauto | assumption | exact Hc].
    + destruct (add_line code donor (advance r)) as [[c1 r1]|x] eqn:Ha;
        cbn [bind] in Hc; [|discriminate].
      apply (Hstep "add" c1 r1);
        [cbn; tauto | now apply add_line_within in Ha | exact Hc].
    + destruct (replace_line code donor (advance r)) as [[c1 r1]|x] eqn:Ha;
        cbn [bind] in Hc; [|discriminate].
      apply (Hstep "replace" c1 r1);
        [cbn; tauto | now apply replace_line_within in Ha | exact Hc].
    + destruct (typo_word_within code (advance r)) as [c1 [r1 [Hd Hw]]].
      rewrite Hd in Hc. cbn [bind] in Hc.
      apply (Hstep "typo" c1 r1); [cbn; tauto | assumption | exact Hc].
Qed.

(** With donor lines at hand the loop always returns. *)
Lemma corrupt_returns (donor : list string) (n : nat) :
  donor <> [] ->
  forall (code ops : list string) (r : rng),
    exists code' ops' r', corrupt n code ops donor r = Ok (code', ops', r').
Proof.
  intros Hd. induction n as [|n IH]; intros code ops r.
  - now exists code, ops, r.
  - cbn [corrupt]. unfold choice. cbn [CORRUPTION_TYPES List.length].
    rewrite randrange_ok by discriminate. cbn [bind].
    assert (Hk : draws r (cursor r) mod 4 < 4)
      by (apply Nat.mod_upper_bound; discriminate).
    destruct (draws r (cursor r) mod 4) as [|[|[|[|k]]]]; try lia;
      cbn [nth String.eqb Ascii.eqb Bool.eqb].
    + destruct (delete_line_within code (advance r)) as [c1 [r1 [Hc _]]].
      rewrite Hc. cbn [bind]. apply IH.
    + destruct (add_line_shape code donor (advance r) Hd)
        as [idx [line [_ Hc]]].
      rewrite Hc. cbn [bind]. apply IH.
    + destruct code as [|c cs].
      * cbn [replace_line bind]. apply IH.
      * destruct (replace_line_shape (c :: cs) donor (advance r))
          as [idx [line [_ Hc]]]; [discriminate | assumption|].
        rewrite Hc. cbn [bind]. apply IH.
    + destruct (typo_word_within code (advance r)) as [c1 [r1 [Hc _]]].
      rewrite Hc. cbn [bind]. apply IH.
Qed.

(** X15: with a non-empty donor pool the corruption loop of the
    synthesizer never raises; it records exactly one operation name per
    round, each one of the four corruption types, and the number of lines
    moves by at most the number of rounds. *)
Theorem corrupt_records_every_round (clean donor : list string) (n : nat)
    (r : rng) :
  donor <> [] ->
  exists code ops r',
    corrupt n clean [] donor r = Ok (code, ops, r') /\
    List.length ops = n /\
    Forall (fun op => In op CORRUPTION_TYPES) ops /\
    List.length clean - n <= List.length code <= List.length clean + n.
Proof.
  intros Hd.
  destruct (corrupt_returns donor n Hd clean [] r) as [code [ops [r' Hc]]].
  destruct (corrupt_inv donor n _ _ _ _ _ _ Hc) as [new [-> [Hlen [Hall Hw]]]].
  exists code, new, r'. cbn [app] in *. auto.
Qed.

End CorruptionLoops.

(** X15, witness: three rounds on a two-line program. *)
Lemma corrupt_records_every_round_witness :
  exists code ops r',
    demo_generator.corrupt 3 ["a"; "b"] [] ["d"]
      {| corruptor.draws := fun n => n; corruptor.cursor := 0 |}
    = Ok (code, ops, r') /\ List.length ops = 3.
Proof.
  destruct (corrupt_records_every_round ["a"; "b"] ["d"] 3
              {| corruptor.draws := fun n => n; corruptor.cursor := 0 |}
              ltac:(discriminate))
    as [code [ops [r' [Hc [Hlen _]]]]].
  exists code, ops, r'. split; [exact Hc | exact Hlen].
Defined.

(** ** The shape of a synthesized trace *)

Section TraceShape.
Context `{env.Interpreter}.
Import env corruptor demo_generator props.

Lemma invert_action_verb (op : string) (clean current : list string)
    (action : string) :
  In op CORRUPTION_TYPES ->
  invert_action_for_op op clean current = Ok action ->
  synth_verb action = true.
Proof.
  intros Hop. unfold invert_action_for_op.
  cbn [CORRUPTION_TYPES In] in Hop.
  destruct Hop as [<- | [<- | [<- | [<- | []]]]];
    cbn [String.eqb Ascii.eqb Bool.eqb orb].
  - destruct (first_mismatch 0 clean current) as [[i ln]|].
    + intros E. now injection E as <-.
    + destruct (last_item clean); cbn [bind]; [|discriminate].
      intros E. now injection E as <-.
  - destruct (first_mismatch 0 current clean) as [[i ln]|];
      intros E; now injection E as <-.
  - destruct (first_mismatch 0 clean current) as [[i ln]|].
    + intros E. now injection E as <-.
    + destruct (first_item clean); cbn [bind]; [|discriminate].
      intros E. now injection E as <-.
  - destruct (first_mismatch 0 clean current) as [[i ln]|].
    + intros E. now injection E as <-.
    + destruct (first_item clean); cbn [bind]; [|discriminate].
      intros E. now injection E as <-.
Qed.

Lemma invert_all_shape (clean : list string) (ops : list string) :
  Forall (fun op => In op CORRUPTION_TYPES) ops ->
  forall (e e' : CoEEnv) (current trace trace' : list string),
    invert_all ops clean e current trace = Ok (e', trace') ->
    exists steps,
      trace' = (trace ++ flat_map step_items steps)%list /\
      List.length steps = List.length ops /\
      Forall (fun p => synth_verb (fst p) = true) steps.
Proof.
  induction 1 as [|op ops Hop Hops IH]; intros e e' current trace trace' Hi.
  - injection Hi as _ <-. exists []. rewrite app_nil_r. auto.
  - cbn [invert_all] in Hi.
    destruct (invert_action_for_op op clean current) as [action|x] eqn:Hinv;
      cbn [bind] in Hi; [|discriminate].
    destruct (apply e action) as [[e1 st]|x]; cbn [bind] in Hi; [|discriminate].
    destruct (IH _ _ _ _ _ Hi) as [steps [-> [Hlen Hall]]].
    exists ((action, st) :: steps).
    split; [cbn [flat_map step_items fst snd]; now rewrite <- !app_assoc|].
    split; [cbn; lia|].
    constructor; [|assumption]. cbn [fst].
    eapply invert_action_verb; eassumption.
Qed.

(** What an episode of the synthesizer that returns has produced. *)
Lemma generate_shape (clean tests donor trace code : list string) (n : nat)
    (e : CoEEnv) (r r' : rng) :
  generate_demo_for_example clean tests donor n r = Ok (trace, code, e, r') ->
  exists e0 steps,
    init code tests = Ok e0 /\
    trace = (render (state e0) :: flat_map step_items steps ++ ["EXIT"])%list /\
    List.length steps = n /\
    Forall (fun p => synth_verb (fst p) = true) steps /\
    within n clean code.
Proof.
  unfold generate_demo_for_example. intros Hg.
  destruct (corrupt n clean [] donor r) as [[[c ops] r1]|x] eqn:Hc;
    cbn [bind] in Hg; [|discriminate].
  destruct (corrupt_inv donor n _ _ _ _ _ _ Hc) as [new [-> [Hlen [Hall Hw]]]].
  cbn [app] in Hg.
  destruct (init c tests) as [e0|x] eqn:Ei; cbn [bind] in Hg; [|discriminate].
  destruct (invert_all (rev new) clean e0 (code_lines (state e0))
              [render (state e0)]) as [[e1 tr]|x] eqn:Hi;
    cbn [bind] in Hg; [|discriminate].
  injection Hg as <- <- <- <-.
  destruct (invert_all_shape clean (rev new) (Forall_rev Hall) _ _ _ _ _ Hi)
    as [steps [-> [Hsl Hsv]]].
  exists e0, steps. split; [assumption|].
  split; [cbn [app]; reflexivity|].
  split; [now rewrite Hsl, length_rev|]. auto.
Qed.

Lemma flat_map_step_items_length (steps : list (string * ScratchpadState)) :
  List.length (flat_map step_items steps) = 2 * List.length steps.
Proof. induction steps as [|p steps IH]; cbn in *; lia. Qed.

(** X16: the trace of an episode of [n] corruptions has 2n + 2 elements:
    the rendering of the corrupted state, then for each inverted
    corruption an action starting with ADDL, DELL or REPL followed by the
    rendering of the state after it, then the literal EXIT; the returned
    code is the buffer the environment was constructed on and has at most
    [n] lines more or fewer than the clean list. *)
Theorem trace_alternates (clean tests donor trace code : list string)
    (n : nat) (e : CoEEnv) (r r' : rng) :
  generate_demo_for_example clean tests donor n r = Ok (trace, code, e, r') ->
  exists e0 steps,
    init code tests = Ok e0 /\
    code_lines (state e0) = code /\
    trace = (render (state e0) :: flat_map step_items steps ++ ["EXIT"])%list /\
    List.length steps = n /\
    Forall (fun p => synth_verb (fst p) = true) steps /\
    List.length trace = 2 * n + 2 /\
    List.length clean - n <= List.length code <= List.length clean + n.
Proof.
  intros Hg.
  destruct (generate_shape _ _ _ _ _ _ _ _ _ Hg)
    as [e0 [steps [Hi [-> [Hlen [Hall Hw]]]]]].
  exists e0, steps. split; [assumption|].
  split; [now apply init_lines in Hi|]. split; [reflexivity|].
  split; [assumption|]. split; [assumption|]. split; [|exact Hw].
  cbn [List.length]. rewrite length_app, flat_map_step_items_length.
  cbn [List.length]. lia.
Qed.

End TraceShape.

(** ** Counting the actions of a trace (src/generate_results.py) *)

Section ActionCounts.
Context `{env.Interpreter}.
Import env corruptor demo_generator generate_results props.

Lemma action_type_render (st : ScratchpadState) :
  action_type (render st) = None.
Proof.
  unfold render. destruct (code_lines st) as [|l [|l2 ls]]; reflexivity.
Qed.

Lemma action_type_synth (a : string) :
  synth_verb a = true ->
  exists v, action_type a = Some v /\ v <> "REPW".
Proof.
  unfold synth_verb, action_type. intros Hv.
  destruct (startswith a "DELL"); [eexists; split; [reflexivity|discriminate]|].
  destruct (startswith a "ADDL"); [eexists; split; [reflexivity|discriminate]|].
  destruct (startswith a "REPL"); [eexists; split; [reflexivity|discriminate]|].
  discriminate.
Qed.

Lemma action_types_steps (steps : list (string * ScratchpadState)) :
  Forall (fun p => synth_verb (fst p) = true) steps ->
  List.length (action_types (flat_map step_items steps)) = List.length steps /\
  ~ In "REPW" (action_types (flat_map step_items steps)).
Proof.
  induction 1 as [|p steps Hp Hall [IHl IHn]]; [split; [reflexivity | tauto]|].
  destruct (action_type_synth _ Hp) as [v [Hv Hne]].
  unfold action_types in *. cbn [flat_map step_items app].
  rewrite Hv, action_type_render. cbn [app List.length].
  split; [now rewrite IHl|].
  intros [E | Hin]; [congruence | tauto].
Qed.

Lemma action_types_app (a b : list string) :
  action_types (a ++ b) = (action_types a ++ action_types b)%list.
Proof. unfold action_types. apply flat_map_app. Qed.

(** X17: on the trace of an episode of [n] corruptions, the action count of
    [analyze_coe_demos] finds exactly [n] actions: the renderings and the
    final EXIT are never counted, and no REPW is. *)
Theorem synthesized_trace_action_count (clean tests donor trace code
    : list string) (n : nat) (e : CoEEnv) (r r' : rng) :
  generate_demo_for_example clean tests donor n r = Ok (trace, code, e, r') ->
  List.length (action_types trace) = n /\
  ~ In "REPW" (action_types trace).
Proof.
  intros Hg.
  destruct (generate_shape _ _ _ _ _ _ _ _ _ Hg)
    as [e0 [steps [_ [-> [Hlen [Hall _]]]]]].
  destruct (action_types_steps steps Hall) as [Hl Hn].
  change (render (state e0) :: flat_map step_items steps ++ ["EXIT"])%list
    with ([render (state e0)] ++ flat_map step_items steps ++ ["EXIT"])%list.
  rewrite !action_types_app.
  assert (E1 : action_types [render (state e0)] = []).
  { unfold action_types. cbn [flat_map]. now rewrite action_type_render. }
  rewrite E1. cbn [app]. change (action_types ["EXIT"]) with (@nil string).
  rewrite app_nil_r. split; [congruence | assumption].
Qed.

End ActionCounts.

Section TraceScenarios.
#[local] Existing Instance programs.line_interpreter.
Import env corruptor demo_generator generate_results props.

(** X16 and X17, witnesses: two corruptions (an add, then a delete) of a
    two-line program. *)
Lemma trace_alternates_witness :
  exists trace code e r',
    generate_demo_for_example ["pass"; "x = 1"] [] ["x"] 2
      {| draws := fun n => n + 1; cursor := 0 |} = Ok (trace, code, e, r') /\
    List.length trace = 2 * 2 + 2.
Proof.
  eassert (Hg : generate_demo_for_example ["pass"; "x = 1"] [] ["x"] 2
                  {| draws := fun n => n + 1; cursor := 0 |} = Ok (_, _, _, _))
    by (vm_compute; reflexivity).
  destruct (trace_alternates _ _ _ _ _ _ _ _ _ Hg)
    as [e0 [steps [_ [_ [_ [_ [_ [Hlen _]]]]]]]].
  do 4 eexists. split; [exact Hg | exact Hlen].
Defined.

Lemma synthesized_trace_action_count_witness :
  exists trace code e r',
    generate_demo_for_example ["pass"; "x = 1"] [] ["x"] 2
      {| draws := fun n => n + 1; cursor := 0 |} = Ok (trace, code, e, r') /\
    List.length (action_types trace) = 2.
Proof.
  eassert (Hg : generate_demo_for_example ["pass"; "x = 1"] [] ["x"] 2
                  {| draws := fun n => n + 1; cursor := 0 |} = Ok (_, _, _, _))
    by (vm_compute; reflexivity).
  do 4 eexists. split; [exact Hg|].
  exact (proj1 (synthesized_trace_action_count _ _ _ _ _ _ _ _ _ Hg)).
Defined.

End TraceScenarios.

(** ** The synthetic repair corpus (src/dataset_builder.py) *)

Section RepairCorpus.
Import corruptor dataset_builder props.

Lemma corrupt_lines_returns (clean : list string) (c : nat) :
  clean <> [] ->
  forall (code : list string) (r : rng),
    exists code' r',
      corrupt_lines c code clean r = Ok (code', r') /\ within c code code'.
Proof.
  intros Hd. induction c as [|c IH]; intros code r.
  - exists code, r. split; [reflexivity | unfold within; lia].
  - cbn [corrupt_lines]. unfold choice. cbn [List.length].
    rewrite randrange_ok by discriminate. cbn [bind].
    assert (Hk : draws r (cursor r) mod 4 < 4)
      by (apply Nat.mod_upper_bound; discriminate).
    assert (Hstep : forall code1 r1,
               within 1 code code1 ->
               exists code' r',
                 corrupt_lines c code1 clean r1 = Ok (code', r') /\
                 within (S c) code code').
    { intros code1 r1 Hw. destruct (IH code1 r1) as [code' [r' [Hc Hw']]].
      exists code', r'. split; [assumption|].
      apply (within_trans 1 c code code1 code'); assumption. }
    destruct (draws r (cursor r) mod 4) as [|[|[|[|k]]]]; try lia;
      cbn [nth String.eqb Ascii.eqb Bool.eqb].
    + destruct (delete_line_within code (advance r)) as [c1 [r1 [Hc Hw]]].
      rewrite Hc. cbn [bind]. now apply Hstep.
    + destruct (add_line_shape code clean (advance r) Hd)
        as [idx [line [_ Hc]]].
      rewrite Hc. cbn [bind]. apply Hstep.
      now apply add_line_within in Hc.
    + destruct (replace_line code clean (advance r)) as [[c1 r1]|x] eqn:Hc.
      * cbn [bind]. apply Hstep. now apply replace_line_within in Hc.
      * exfalso. destruct code as [|l ls]; [discriminate|].
        destruct (replace_line_shape (l :: ls) clean (advance r))
          as [idx [line [_ Hc']]]; [discriminate | assumption | congruence].
    + destruct (typo_word_within code (advance r)) as [c1 [r1 [Hc Hw]]].
      rewrite Hc. cbn [bind]. now apply Hstep.
Qed.

(** X18: for a non-empty ground truth, a corrupted sample of the synthetic
    repair corpus is always produced (the corruption loop never raises);
    between 5 and 20 corruptions are applied, and the sample has at most
    that many lines more or fewer than the ground truth.  For an empty
    ground truth, an add drawn in the first round raises IndexError, there
    being no donor line to choose. *)
Theorem corrupted_sample_bounds (clean : list string) (r : rng) :
  (clean <> [] ->
   exists c code r',
     5 <= c <= 20 /\
     corrupted_sample clean r = Ok (code, r') /\
     List.length clean - c <= List.length code <= List.length clean + c) /\
  (draws r (S (cursor r)) mod 4 = 1 ->
   corrupted_sample [] r = Raise IndexError).
Proof.
  split.
  - intros Hne. unfold corrupted_sample, randint.
    rewrite randrange_ok by discriminate. cbn [bind].
    set (k := draws r (cursor r) mod (20 - 5 + 1)).
    assert (Hk : k < 16) by (apply Nat.mod_upper_bound; discriminate).
    clearbody k.
    destruct (corrupt_lines_returns clean (5 + k) Hne clean (advance r))
      as [code [r' [Hc Hw]]].
    exists (5 + k), code, r'. split; [lia|]. auto.
  - intros Hadd. unfold corrupted_sample, randint.
    rewrite randrange_ok by discriminate. cbn [bind].
    set (k := draws r (cursor r) mod (20 - 5 + 1)).
    change (5 + k) with (S (4 + k)). cbn [corrupt_lines]. unfold choice.
    cbn [List.length]. rewrite randrange_ok by discriminate. cbn [bind].
    change (draws (advance r) (cursor (advance r))) with (draws r (S (cursor r))).
    rewrite Hadd. cbn [nth String.eqb Ascii.eqb Bool.eqb].
    unfold add_line. rewrite randrange_ok by discriminate. reflexivity.
Qed.

End RepairCorpus.

(** X18, witness: a one-line ground truth. *)
Lemma corrupted_sample_bounds_witness :
  exists c code r',
    5 <= c <= 20 /\
    dataset_builder.corrupted_sample ["pass"]
      {| corruptor.draws := fun n => n; corruptor.cursor := 0 |}
    = Ok (code, r').
Proof.
  destruct (proj1 (corrupted_sample_bounds ["pass"]
                     {| corruptor.draws := fun n => n; corruptor.cursor := 0 |})
              ltac:(discriminate))
    as [c [code [r' [Hc [Hs _]]]]].
  exists c, code, r'. split; [exact Hc | exact Hs].
Defined.

(** ** More on the rollout driver (src/rl_train.py) *)

Section RolloutMore.
Context `{env.Interpreter} `{rl_train.Policy}.
Import env rl_train props.
Local Open Scope nat_scope.

Lemma expected_reward_value (before after act : string) :
  (expected_reward before after act = 1 \/
   expected_reward before after act = 0 \/
   expected_reward before after act = 0.5 \/
   expected_reward before after act = -0.5)%R.
Proof.
  unfold expected_reward.
  destruct ((after =? "")%string && negb (before =? "")%string);
    destruct (starts_with_command act).
  - left. lra.
  - right; right; left. lra.
  - right; left. lra.
  - right; right; right. lra.
Qed.

Lemma recorded_rewards (e e' : CoEEnv) (t : nat) (body : list step) :
  recorded e t body e' ->
  Forall (fun s => reward s = 1 \/ reward s = 0 \/ reward s = 0.5
                   \/ reward s = -0.5)%R body.
Proof.
  induction 1 as [|e e1 e' t s st rest Hp Ha Happ Hr Hrest IH];
    constructor; [|assumption].
  rewrite Hr. apply expected_reward_value.
Qed.

(** X19: every reward of a returned trajectory is one of -1, -0.5, 0, 0.5
    and 1; in particular it lies between -1 and 1. *)
Theorem rollout_rewards_bounded (lines ts : list string) (max_turns : nat)
    (traj : list step) :
  rollout_one lines ts max_turns = Ok traj ->
  Forall (fun s => reward_value (reward s) /\ (-1 <= reward s <= 1)%R) traj.
Proof.
  intros Hroll.
  destruct (rollout_one_spec _ _ _ _ Hroll)
    as [e0 [e' [body [_ [Hrec [_ Hcase]]]]]].
  pose proof (recorded_rewards _ _ _ _ Hrec) as Hall.
  assert (Hweak : forall l,
             Forall (fun s => reward s = 1 \/ reward s = 0 \/ reward s = 0.5
                              \/ reward s = -0.5)%R l ->
             Forall (fun s => reward_value (reward s)
                              /\ (-1 <= reward s <= 1)%R) l).
  { intros l. apply Forall_impl. intros s Hs. unfold reward_value.
    split; [tauto | lra]. }
  destruct Hcase as [[_ [pre [s [-> [_ ->]]]]] | [-> _]]; [|now apply Hweak].
  apply Forall_app in Hall as [Hpre Hs]. apply Forall_app. split.
  - now apply Hweak.
  - constructor; [|constructor]. inversion Hs as [|? ? Hv _]; subst.
    unfold penalised, reward_value. cbn [reward]. split; lra.
Qed.

(** X20: with a turn budget of 0 no action is sampled: the rollout returns
    the empty trajectory when the initial program fails, and raises
    IndexError when it already passes (the penalty is taken off the last
    step of an empty trajectory); with a positive budget a returned
    trajectory is never empty. *)
Theorem rollout_zero_budget (lines ts : list string) (e0 : CoEEnv) :
  init lines ts = Ok e0 ->
  rollout_one lines ts 0
  = (if (feedback (state e0) =? "")%string then Raise IndexError else Ok [])
  /\
  (forall max_turns traj,
     0 < max_turns -> rollout_one lines ts max_turns = Ok traj -> traj <> []).
Proof.
  intros Hinit. split.
  - unfold rollout_one. rewrite Hinit. cbn [bind rollout_loop].
    now destruct (feedback (state e0) =? "")%string.
  - intros max_turns traj Hpos Hroll.
    destruct (rollout_one_spec _ _ _ _ Hroll)
      as [e1 [e' [body [_ [_ [[_ [_ [_ Hne]]] Hcase]]]]]].
    destruct Hcase as [[_ [pre [s [_ [_ ->]]]]] | [-> _]]; [|auto].
    now destruct pre.
Qed.

End RolloutMore.

Section RolloutMoreScenarios.
#[local] Existing Instance scenario.toy.
Import env rl_train props.

(** X19, witness: a repair followed by an exit. *)
Lemma rollout_rewards_bounded_witness :
  exists traj,
    @rollout_one scenario.toy (scenario.scripted ["REPL 1 >>>pass"; "EXIT"])
      ["x"] [] 5 = Ok traj /\
    Forall (fun s => reward_value (reward s) /\ (-1 <= reward s <= 1)%R) traj.
Proof.
  eassert (Hrun : @rollout_one scenario.toy
                    (scenario.scripted ["REPL 1 >>>pass"; "EXIT"])
                    ["x"] [] 5 = Ok _) by (vm_compute; reflexivity).
  eexists. split; [exact Hrun|].
  exact (@rollout_rewards_bounded scenario.toy _ _ _ _ _ Hrun).
Defined.

(** X20, witness: a passing program and no turn. *)
Lemma rollout_zero_budget_witness :
  @rollout_one scenario.toy (scenario.scripted []) ["pass"] [] 0
  = Raise IndexError.
Proof.
  exact (proj1 (@rollout_zero_budget scenario.toy (scenario.scripted [])
                  ["pass"] [] (scenario.env_of ["pass"] "" []) eq_refl)).
Defined.

End RolloutMoreScenarios.

(** ** More on the advantage estimator (src/rl_train.py) *)

Section EstimatorMore.
Context `{rl_train.Policy}.
Import rl_train.
Local Open Scope R_scope.

Lemma total_centred (l : list R) (m s : R) :
  total (map (fun v => (v - m) / s) l)
  = (total l - INR (List.length l) * m) / s.
Proof.
  induction l as [|x l IH].
  - cbn. unfold Rdiv. ring.
  - change (total (map (fun v => (v - m) / s) (x :: l)))
      with ((x - m) / s + total (map (fun v => (v - m) / s) l)).
    change (total (x :: l)) with (x + total l).
    change (List.length (x :: l)) with (S (List.length l)).
    rewrite IH, S_INR. unfold Rdiv. ring.
Qed.

(** X21: the advantages computed at one turn sum to zero: for every list
    of returns, the values (v - mu) / sigma, with the mean and the
    deviation the code computes for that list, add up to 0. *)
Theorem turn_advantages_sum_to_zero (vals : list R) :
  total (map (fun v => (v - fst (mu_sigma vals)) / snd (mu_sigma vals)) vals)
  = 0.
Proof.
  rewrite total_centred.
  destruct vals as [|v1 [|v2 vals]].
  - cbn. unfold Rdiv. ring.
  - rewrite mu_sigma_one. cbn. unfold Rdiv. ring.
  - rewrite mu_sigma_two. cbn [fst snd]. unfold mean.
    set (l := v1 :: v2 :: vals).
    assert (Hn : INR (List.length l) <> 0) by (apply not_0_INR; discriminate).
    replace (total l - INR (List.length l) * (total l / INR (List.length l)))
      with 0 by (field; assumption).
    unfold Rdiv. ring.
Qed.

Lemma discounted_one (traj : list step) (t : nat) :
  nth t (discounted 1 traj) 0 = total (map reward (skipn t traj)).
Proof.
  revert t. induction traj as [|s traj IH]; intros t.
  - destruct t; reflexivity.
  - destruct t as [|t].
    + cbn [skipn map total fold_right discounted nth].
      fold (total (map reward traj)).
      rewrite hd_nth0, (IH 0%nat). cbn [skipn]. ring.
    + cbn [skipn discounted]. change (nth (S t) (?x :: ?l) 0) with (nth t l 0).
      apply IH.
Qed.

(** X22: with the default discount 1 the return of a step is the sum of
    the rewards from that step to the end of the trajectory; in particular
    the first return is the total reward. *)
Theorem default_returns_are_suffix_sums (traj : list step) (t : nat) :
  nth t (returns_of default_gamma traj) 0
  = total (map reward (skipn t traj)).
Proof.
  rewrite returns_of_discounted. apply discounted_one.
Qed.

Lemma combine_seq_snd {A B : Type} (g : A -> B) (l : list A) (k : nat) :
  map (fun ts : nat * A => g (snd ts)) (combine (seq k (List.length l)) l)
  = map g l.
Proof.
  revert k. induction l as [|x l IH]; intros k; [reflexivity|].
  cbn [List.length seq combine map snd]. now rewrite IH.
Qed.

Lemma flat_map_map {A B C : Type} (f : A -> list B) (g : B -> C) (l : list A) :
  map g (flat_map f l) = flat_map (fun a => map g (f a)) l.
Proof.
  induction l as [|a l IH]; [reflexivity|].
  cbn [flat_map]. now rewrite map_app, IH.
Qed.

Lemma flat_of_field {C : Type} (pf : flat_step -> C) (ps : step -> C)
    (returns : list (list R)) (gamma : R) (group : list (list step)) :
  (forall (s : step) (x : R),
     pf {| f_prompt := prompt s; f_action := action s; old_logp := logp s;
           adv := x |} = ps s) ->
  map pf (flat_map (flat_of returns gamma) group)
  = map ps (List.concat group).
Proof.
  intros Hpf. induction group as [|traj group IH]; [reflexivity|].
  cbn [flat_map List.concat]. rewrite !map_app, IH. f_equal.
  unfold flat_of. rewrite map_map.
  rewrite <- (combine_seq_snd ps traj 0%nat). apply map_ext.
  intros [t s]. cbn [fst snd]. apply Hpf.
Qed.

(** X23: an empty group makes the estimator raise ValueError; on a
    non-empty group it returns one flat step per step of the group, in the
    order of the trajectories and of their steps, each with the prompt, the
    action and the log-probability of its step. *)
Theorem flat_steps_keep_the_steps (group : list (list step)) (gamma : R) :
  compute_returns_and_advantages [] gamma = Raise ValueError /\
  (group <> [] ->
   exists flat,
     compute_returns_and_advantages group gamma = Ok flat /\
     map f_prompt flat = map prompt (List.concat group) /\
     map f_action flat = map action (List.concat group) /\
     map old_logp flat = map logp (List.concat group) /\
     List.length flat = List.length (List.concat group)).
Proof.
  split; [reflexivity|]. intros Hne.
  eexists. split; [now apply compute_spec|].
  split; [now apply flat_of_field|].
  split; [now apply flat_of_field|].
  split; [now apply flat_of_field|].
  rewrite <- (length_map f_action),
          <- (length_map action (List.concat group)).
  f_equal. now apply flat_of_field.
Qed.

End EstimatorMore.

(** X23, witness: a group of one two-step trajectory. *)
Lemma flat_steps_keep_the_steps_witness :
  let P := scenario.scripted [] in
  let s1 := @rl_train.Build_step P "p1" "DELL 1" tt 0%R in
  let s2 := @rl_train.Build_step P "p2" "EXIT" tt 1%R in
  exists flat,
    @rl_train.compute_returns_and_advantages P [[s1; s2]] 1%R = Ok flat /\
    map rl_train.f_action flat = ["DELL 1"; "EXIT"].
Proof.
  intros P s1 s2.
  destruct (proj2 (@flat_steps_keep_the_steps P [[s1; s2]] 1%R)
              ltac:(discriminate))
    as [flat [Hc [_ [Ha _]]]].
  exists flat. split; [exact Hc | exact Ha].
Defined.

(** ** The clipped objective (src/rl_train.py, train_loop) *)

Section ClippedObjective.
Import trainer.
Local Open Scope R_scope.

Lemma clamp_bounds (x lo hi : R) :
  lo <= hi -> lo <= clamp x lo hi <= hi.
Proof.
  intros Hlh. unfold clamp. split.
  - apply Rmin_glb; [apply Rmax_r | assumption].
  - apply Rmin_r.
Qed.

Lemma clamp_inside (x lo hi : R) : lo <= x <= hi -> clamp x lo hi = x.
Proof.
  intros [Hl Hh]. unfold clamp.
  rewrite Rmax_left by assumption. now apply Rmin_left.
Qed.

(** X24: for a clip range eps >= 0, the loss of a step is -adv when the
    new log-probability equals the old one, is the unclipped
    -ratio * adv while the ratio stays within [1 - eps, 1 + eps], and is
    never below -(1 + eps) * adv for a non-negative advantage, nor below
    -(1 - eps) * adv for a non-positive one: moving the ratio beyond the
    clip range gains nothing. *)
Theorem step_loss_is_clipped (new_logp old_logp adv eps : R) :
  0 <= eps ->
  step_loss old_logp old_logp adv eps = - adv /\
  (1 - eps <= exp (new_logp - old_logp) <= 1 + eps ->
   step_loss new_logp old_logp adv eps = - (exp (new_logp - old_logp) * adv)) /\
  (0 <= adv -> - ((1 + eps) * adv) <= step_loss new_logp old_logp adv eps) /\
  (adv <= 0 -> - ((1 - eps) * adv) <= step_loss new_logp old_logp adv eps).
Proof.
  intros Heps. unfold step_loss. cbv zeta.
  assert (Hlh : 1 - eps <= 1 + eps) by lra.
  split.
  { replace (old_logp - old_logp) with 0 by ring. rewrite exp_0.
    rewrite clamp_inside by lra. rewrite Rmin_left by lra. ring. }
  split.
  { intros Hin. rewrite clamp_inside by assumption.
    now rewrite Rmin_left by lra. }
  set (ratio := exp (new_logp - old_logp)).
  destruct (clamp_bounds ratio (1 - eps) (1 + eps) Hlh) as [Hlo Hhi].
  set (c := clamp ratio (1 - eps) (1 + eps)) in *.
  pose proof (Rmin_r (ratio * adv) (c * adv)) as Hmin.
  split; intros Hadv.
  - assert (c * adv <= (1 + eps) * adv) by (apply Rmult_le_compat_r; lra).
    lra.
  - assert (c * adv <= (1 - eps) * adv).
    { replace (c * adv) with (- adv * - c) by ring.
      replace ((1 - eps) * adv) with (- adv * - (1 - eps)) by ring.
      apply Rmult_le_compat_l; lra. }
    lra.
Qed.

(** X24, witness: the default clip range 0.2. *)
Lemma step_loss_is_clipped_witness :
  step_loss 0 0 1 0.2 = - 1.
Proof.
  exact (proj1 (step_loss_is_clipped 0 0 1 0.2 ltac:(lra))).
Defined.

End ClippedObjective.

(** ** The evaluation episodes (src/eval.py) *)

Section EvalFacts.
Context `{env.Interpreter} `{rl_train.Policy}.
Import env rl_train eval props.
Local Open Scope nat_scope.

Lemma init_consistent (lines ts : list string) (e : CoEEnv) :
  init lines ts = Ok e -> consistent e /\ tests e = ts.
Proof.
  unfold init. intros Hi. apply update_feedback_ok in Hi as [_ [Ht Hr]].
  split; [exact Hr | exact Ht].
Qed.

Lemma apply_consistent (e e' : CoEEnv) (action : string)
    (st : ScratchpadState) :
  apply e action = Ok (e', st) -> consistent e' /\ tests e' = tests e.
Proof.
  unfold apply. destruct (edit (code_lines (state e)) action) as [ls|x];
    cbn [bind]; [|discriminate].
  unfold recompute. destruct (update_feedback _) as [e1|x] eqn:Eu;
    cbn [bind]; [|discriminate].
  intros E. injection E as <- _.
  apply update_feedback_ok in Eu as [_ [Ht Hr]].
  split; [exact Hr | exact Ht].
Qed.

Lemma episode_loop_spec (turns : nat) :
  forall (t : nat) (e e' : CoEEnv) (applied applied' : list string)
         (returned : bool),
    consistent e ->
    episode_loop turns t e applied = Ok (returned, e', applied') ->
    consistent e' /\ tests e' = tests e /\
    (returned = true -> feedback (state e') = "") /\
    List.length applied' <= List.length applied + turns.
Proof.
  induction turns as [|turns IH]; intros t e e' applied applied' returned Hc Hl.
  - injection Hl as <- <- <-. repeat split; auto; [discriminate | lia].
  - cbn [episode_loop] in Hl. cbv zeta in Hl.
    set (a := first_line_or_exit _) in Hl.
    destruct (apply e a) as [[e1 st]|x] eqn:Ea; cbn [bind] in Hl;
      [|discriminate].
    destruct (apply_consistent _ _ _ _ Ea) as [Hc1 Ht1].
    destruct (feedback (state e1) =? "")%string eqn:Efb.
    + injection Hl as <- <- <-. apply String.eqb_eq in Efb.
      rewrite length_app. cbn [List.length]. repeat split; auto. lia.
    + destruct (startswith a "EXIT").
      * injection Hl as <- <- <-. rewrite length_app. cbn [List.length].
        repeat split; auto; [discriminate | lia].
      * destruct (IH _ _ _ _ _ _ Hc1 Hl) as [Hc' [Ht' [Hr' Hlen]]].
        rewrite length_app in Hlen. cbn [List.length] in Hlen.
        repeat split; auto; [congruence | lia].
Qed.

(** X25: an evaluation episode that returns reports success exactly when
    the final buffer passes: the returned boolean is true if and only if
    the feedback of the final environment is empty, that is if and only if
    the final code lines execute and every test then executes without
    raising; at most [max_turns] actions are applied, and none when the
    budget is 0. *)
Theorem episode_reports_final_state (lines ts : list string)
    (max_turns : nat) (b : bool) (e' : CoEEnv) (applied : list string) :
  run_one_episode lines ts max_turns = Ok (b, e', applied) ->
  (b = true <-> feedback (state e') = "") /\
  (b = true <-> passes ts (code_lines (state e'))) /\
  List.length applied <= max_turns.
Proof.
  unfold run_one_episode. intros Hrun.
  destruct (init lines ts) as [e0|x] eqn:Ei; cbn [bind] in Hrun;
    [|discriminate].
  destruct (init_consistent _ _ _ Ei) as [Hc0 Ht0].
  destruct (episode_loop max_turns 0 e0 []) as [[[ret e1] app1]|x] eqn:El;
    cbn [bind] in Hrun; [|discriminate].
  destruct (episode_loop_spec _ _ _ _ _ _ _ Hc0 El) as [Hc [Ht [Hret Hlen]]].
  assert (Hfb : (b = true <-> feedback (state e') = "") /\ e' = e1
                /\ applied = app1).
  { destruct ret.
    - injection Hrun as <- <- <-. split; [|auto]. split; auto.
    - injection Hrun as <- <- <-. split; [|auto].
      split; intros E; [now apply String.eqb_eq | now apply String.eqb_eq]. }
  destruct Hfb as [Hfb [-> ->]].
  split; [assumption|]. split; [|cbn in Hlen; lia].
  rewrite Hfb. unfold consistent in Hc. rewrite Ht, Ht0 in Hc.
  apply (proj1 (run_spec _ _ _ Hc)).
Qed.

End EvalFacts.

Section EvalScenarios.
#[local] Existing Instance scenario.toy.
Import env rl_train eval props.

(** X25, witness: the first action repairs the program and the episode
    stops there. *)
Lemma episode_reports_final_state_witness :
  exists e' applied,
    @run_one_episode scenario.toy
      (scenario.scripted ["REPL 1 >>>pass"; "DELL 9"]) ["x"] [] 5
    = Ok (true, e', applied) /\
    (true = true <-> feedback (state e') = "").
Proof.
  eassert (Hrun : @run_one_episode scenario.toy
                    (scenario.scripted ["REPL 1 >>>pass"; "DELL 9"]) ["x"] [] 5
                  = Ok (true, _, _)) by (vm_compute; reflexivity).
  do 2 eexists. split; [exact Hrun|].
  exact (proj1 (@episode_reports_final_state scenario.toy _ _ _ _ _ _ _ Hrun)).
Defined.

End EvalScenarios.

(** ** Actions without content, and the actions of the collaborators *)

Section ActionTexts.
Import env demo_generator rl_train props.
Local Open Scope nat_scope.
Local Open Scope string_scope.

Lemma partition_no_gt (s : string) :
  forallb_str not_gt s = true -> partition ">>>" s = None.
Proof.
  induction s as [|c s IH]; intros Hs; [reflexivity|].
  cbn [forallb_str] in Hs. apply andb_true_iff in Hs as [Hc Hs].
  unfold not_gt in Hc. apply negb_true_iff in Hc.
  unfold partition; fold partition.
  replace (startswith (String c s) ">>>") with false
    by (cbn [startswith]; now rewrite Ascii.eqb_sym, Hc).
  now rewrite IH.
Qed.

Lemma content_of_bare (v : string) (n : nat) :
  forallb_str not_gt v = true -> content_of (v ++ " " ++ str n) = "".
Proof.
  intros Hv. unfold content_of, contains.
  rewrite partition_no_gt; [reflexivity|].
  rewrite !forallb_str_app, Hv.
  rewrite (decimal_not_gt (str n) (str_decimal n)). reflexivity.
Qed.

Lemma strip_bare (v : string) (n : nat) :
  word v -> strip (v ++ " " ++ str n) = v ++ " " ++ str n.
Proof.
  intros Hv. change (v ++ " " ++ str n) with (join " " [v; str n]).
  apply strip_join_words.
  constructor; [assumption|]. constructor; [apply word_str | constructor].
Qed.

(** X26: an ADDL or REPL action without the content delimiter is carried
    out with the empty text: ADDL inserts an empty line at the clamped
    position, REPL blanks the target line when it is in range. *)
Theorem bare_actions_use_empty_content (lines : list string) (k : nat) :
  edit lines ("ADDL " ++ str k)
  = Ok (pylist.insert lines
          (Nat.max 1 (Nat.min k (List.length lines + 1)) - 1) "") /\
  edit lines ("REPL " ++ str k)
  = Ok (if in_range k lines then pylist.set_item lines (k - 1) "" else lines).
Proof.
  assert (Hw : forall v, v = "ADDL" \/ v = "REPL" ->
                         word v /\ forallb_str not_gt v = true).
  { intros v [-> | ->]; (split; [split; [discriminate|]|]; reflexivity). }
  split; unfold edit.
  - destruct (Hw "ADDL" (or_introl eq_refl)) as [Hv Hg].
    change ("ADDL " ++ str k) with ("ADDL" ++ " " ++ str k).
    rewrite strip_split_bare, strip_bare by assumption.
    cbn [String.eqb Ascii.eqb Bool.eqb]. unfold addl.
    rewrite isdigit_str, int_str. cbn [bind].
    now rewrite content_of_bare.
  - destruct (Hw "REPL" (or_intror eq_refl)) as [Hv Hg].
    change ("REPL " ++ str k) with ("REPL" ++ " " ++ str k).
    rewrite strip_split_bare, strip_bare by assumption.
    cbn [String.eqb Ascii.eqb Bool.eqb]. unfold repl.
    rewrite isdigit_str, int_str. cbn [bind].
    now rewrite content_of_bare.
Qed.

Lemma first_mismatch_bound (a b : list string) (k i : nat) (ln : string) :
  first_mismatch k a b = Some (i, ln) -> k <= i <= k + List.length b.
Proof.
  revert b k. induction a as [|x a IH]; intros b k Hf; [discriminate|].
  cbn [first_mismatch] in Hf. destruct b as [|y b].
  - injection Hf as <- _. cbn. lia.
  - destruct (y =? x).
    + apply IH in Hf. cbn [List.length]. lia.
    + injection Hf as <- _. lia.
Qed.

Lemma ignored_command (v : string) (n : nat) (rest : string) :
  word v -> numbered_verb v = true ->
  ignored (v ++ " " ++ str n ++ " >>>" ++ rest) = false.
Proof.
  intros Hv Hn. unfold ignored.
  rewrite strip_command, split_command by assumption.
  unfold numbered_verb in Hn. rewrite Hn. now rewrite isdigit_str.
Qed.

(** X27: the action the synthesizer writes for a corruption of one of the
    four types is always accepted by the engine on the current lines: the
    edit returns (it raises neither IndexError nor ValueError) and the
    action is not one of the ignored texts. *)
Theorem synthesized_action_is_accepted (op action : string)
    (clean current : list string) :
  In op CORRUPTION_TYPES ->
  invert_action_for_op op clean current = Ok action ->
  ignored action = false /\ exists lines', edit current action = Ok lines'.
Proof.
  intros Hop. unfold invert_action_for_op.
  assert (Hdell : forall n, ignored ("DELL " ++ str n) = false /\
                            exists l, edit current ("DELL " ++ str n) = Ok l).
  { intros n. split; [|rewrite edit_dell; eauto].
    unfold ignored. change ("DELL " ++ str n) with ("DELL" ++ " " ++ str n).
    rewrite strip_split_bare by (split; [discriminate | reflexivity]).
    cbn [String.eqb Ascii.eqb Bool.eqb orb]. now rewrite isdigit_str. }
  assert (Hrepl : forall n c,
             ignored ("REPL " ++ str n ++ " >>>" ++ c) = false /\
             exists l, edit current ("REPL " ++ str n ++ " >>>" ++ c) = Ok l).
  { intros n c. split; [|rewrite edit_repl; eauto].
    apply (ignored_command "REPL");
      [split; [discriminate | reflexivity] | reflexivity]. }
  assert (Haddl : forall i c, i <= List.length current ->
             ignored ("ADDL " ++ str (i + 1) ++ " >>>" ++ c) = false /\
             exists l, edit current ("ADDL " ++ str (i + 1) ++ " >>>" ++ c)
                       = Ok l).
  { intros i c Hi. split; [|rewrite edit_addl by assumption; eauto].
    apply (ignored_command "ADDL");
      [split; [discriminate | reflexivity] | reflexivity]. }
  cbn [CORRUPTION_TYPES In] in Hop.
  destruct Hop as [<- | [<- | [<- | [<- | []]]]];
    cbn [String.eqb Ascii.eqb Bool.eqb orb].
  - destruct (first_mismatch 0 clean current) as [[i ln]|] eqn:Hf.
    + intros E. injection E as <-. apply Haddl.
      apply first_mismatch_bound in Hf. lia.
    + destruct (last_item clean); cbn [bind]; [|discriminate].
      intros E. injection E as <-. apply Haddl. lia.
  - destruct (first_mismatch 0 current clean) as [[i ln]|];
      intros E; injection E as <-; apply Hdell.
  - destruct (first_mismatch 0 clean current) as [[i ln]|].
    + intros E. injection E as <-. apply Hrepl.
    + destruct (first_item clean); cbn [bind]; [|discriminate].
      intros E. injection E as <-. apply (Hrepl 1).
  - destruct (first_mismatch 0 clean current) as [[i ln]|].
    + intros E. injection E as <-. apply Hrepl.
    + destruct (first_item clean); cbn [bind]; [|discriminate].
      intros E. injection E as <-. apply (Hrepl 1).
Qed.

End ActionTexts.

(** X27, witness: the inverse of a replace. *)
Lemma synthesized_action_is_accepted_witness :
  env.ignored "REPL 2 >>>b" = false /\
  exists lines', env.edit ["a"; "x"] "REPL 2 >>>b" = Ok lines'.
Proof.
  exact (synthesized_action_is_accepted "replace" "REPL 2 >>>b"
           ["a"; "b"] ["a"; "x"] ltac:(simpl; tauto) eq_refl).
Defined.

Section PenalisedActions.
Import env rl_train props.
Local Open Scope nat_scope.
Local Open Scope string_scope.

Lemma lstrip_head (s : string) (c : ascii) (r : string) :
  lstrip s = String c r -> isspace c = false.
Proof.
  induction s as [|a s IH]; [discriminate|].
  cbn [lstrip]. destruct (isspace a) eqn:Ha; [assumption|].
  intros E. injection E as <- _. assumption.
Qed.

Lemma rstrip_head (c : ascii) (r : string) :
  isspace c = false -> rstrip (String c r) = String c (rstrip r).
Proof. intros Hc. cbn [rstrip]. now rewrite Hc. Qed.

Lemma strip_head (s : string) (c : ascii) (r : string) :
  strip s = String c r -> isspace c = false.
Proof.
  unfold strip. destruct (lstrip s) as [|c0 r0] eqn:El; [discriminate|].
  pose proof (lstrip_head _ _ _ El) as Hc0.
  rewrite rstrip_head by assumption. intros E. now injection E as <- _.
Qed.

Lemma linebreak_is_blank (c : ascii) :
  isspace c = false -> islinebreak c = false.
Proof.
  destruct c as [[] [] [] [] [] [] [] []]; vm_compute; intros Hc;
    try discriminate; reflexivity.
Qed.

Lemma rstrip_prefix (s : string) : exists u, s = rstrip s ++ u.
Proof.
  induction s as [|c s [u Hu]]; [now exists ""|].
  cbn [rstrip]. destruct (isspace c && is_empty (rstrip s)).
  - now exists (String c s).
  - exists u. cbn [append]. now rewrite <- Hu.
Qed.

Lemma split_from_first (s cur w : string) (ws : list string) :
  split_from cur s = w :: ws ->
  cur <> "" \/ (exists c r, s = String c r /\ isspace c = false) ->
  exists t, cur ++ s = w ++ t.
Proof.
  revert cur. induction s as [|c s IH]; intros cur Hs Hstart;
    cbn [split_from] in Hs.
  - destruct cur as [|a cur]; [discriminate|].
    injection Hs as <- _. now exists "".
  - destruct (isspace c) eqn:Hc.
    + destruct Hstart as [Hne | [c0 [r0 [E Hc0]]]].
      * destruct cur as [|a cur]; [congruence|].
        injection Hs as <- _. now exists (String c s).
      * injection E as <- _. congruence.
    + destruct (IH (cur ++ String c "") Hs) as [t Ht].
      { left. destruct cur; discriminate. }
      exists t. rewrite <- Ht, append_assoc. reflexivity.
Qed.

(** The first token of an action without leading blank is a prefix of the
    action. *)
Lemma first_token_prefix (c : ascii) (r w : string) (ws : list string) :
  isspace c = false ->
  split (strip (String c r)) = w :: ws ->
  startswith (String c r) w = true.
Proof.
  intros Hc Hs. unfold strip in Hs.
  rewrite lstrip_nonblank, rstrip_head in Hs by assumption.
  destruct (split_from_first _ "" _ _ Hs) as [t Ht].
  { right. now exists c, (rstrip r). }
  cbn [append] in Ht. destruct (rstrip_prefix r) as [u Hu].
  rewrite Hu. change (String c (rstrip r ++ u)) with (String c (rstrip r) ++ u).
  rewrite Ht, append_assoc. apply startswith_app.
Qed.

(** X28: an action of the rollout driver (the first line of the stripped
    generation, or EXIT) that gets the malformed-action penalty never
    changes the buffer: a text that starts with none of the five command
    strings is a no-op for the engine. *)
Theorem penalised_action_changes_nothing (raw : string) (lines : list string) :
  let action := first_line_or_exit (strip raw) in
  starts_with_command action = false ->
  edit lines action = Ok lines.
Proof.
  intros action Hpen. unfold action, first_line_or_exit in *.
  destruct (strip raw) as [|c r] eqn:Es; [discriminate Hpen|].
  cbn [is_empty] in *. pose proof (strip_head _ _ _ Es) as Hc.
  cbn [first_line] in *. rewrite (linebreak_is_blank c Hc) in *.
  set (a := String c (first_line r)) in *.
  destruct (split (strip a)) as [|w ws] eqn:Hs.
  { apply split_strip_nil in Hs. unfold blank, a in Hs.
    cbn [forallb_str] in Hs. now rewrite Hc in Hs. }
  pose proof (first_token_prefix c (first_line r) w ws Hc Hs) as Hw.
  fold a in Hw.
  unfold starts_with_command in Hpen. cbn [existsb] in Hpen.
  repeat (apply orb_false_iff in Hpen as [? Hpen]).
  assert (Hverb : forall v, startswith a v = false -> (w =? v) = false).
  { intros v Hv. destruct (w =? v) eqn:E; [|reflexivity].
    apply String.eqb_eq in E. congruence. }
  apply edit_ignored. unfold ignored. rewrite Hs.
  rewrite !Hverb by assumption. reflexivity.
Qed.

End PenalisedActions.

(** X28, witness: a generation that is no command. *)
Lemma penalised_action_changes_nothing_witness :
  env.edit ["a"] "delete line 1" = Ok ["a"].
Proof.
  exact (penalised_action_changes_nothing "  delete line 1  " ["a"] eq_refl).
Defined.
